(** * Matrix multiplication FLOPS analyzer: model and verified properties

    Shallow embedding of the benchmarking core of the component
    [MatrixMultiplicationAnalyzer] (multiplier with operation counting,
    trial runner, cubic fit, sweep controller).

    Numbers.  JavaScript numbers that are integer counters or sizes ([n],
    [flops], loop indices, [length]) are modelled as [nat]/[Z]; they are
    exact in binary64 below 2^53.  All other numbers (times, rates, matrix
    entries) are values of type [number] below: exact rationals extended
    with the IEEE special values +Infinity, -Infinity and NaN, with the
    IEEE rules for them (x/0, 0/0, Infinity-Infinity, 0*Infinity, NaN
    propagation, comparisons with NaN).  Rounding and overflow of finite
    values are not modelled there, and the sign of zero is not tracked
    (zero behaves as +0).  Where rounding and overflow matter, the same
    lines of the source are given twice more: in [Binary64], with the
    binary64 numbers of the runtime themselves, and in [Rounded], with
    each operation followed by a rounding that is a parameter. *)

From Stdlib Require Import ZArith QArith Qabs Qround Lqa Lia String DecimalString Floats.
From stdpp Require Import base option list.

Local Open Scope Z_scope.

(** ** Numbers *)

Inductive number : Type :=
  | Finite (q : Q)
  | PosInf
  | NegInf
  | NaN.

Module Num.

Definition zero : number := Finite 0.
Definition of_Z (z : Z) : number := Finite (inject_Z z).
Definition of_nat (k : nat) : number := of_Z (Z.of_nat k).

Definition Qltb (a b : Q) : bool := negb (Qle_bool b a).

Definition neg (x : number) : number :=
  match x with
  | Finite a => Finite (- a)
  | PosInf => NegInf
  | NegInf => PosInf
  | NaN => NaN
  end.

(** [x + y] *)
Definition add (x y : number) : number :=
  match x, y with
  | NaN, _ | _, NaN => NaN
  | Finite a, Finite b => Finite (a + b)
  | PosInf, NegInf | NegInf, PosInf => NaN
  | PosInf, _ | _, PosInf => PosInf
  | NegInf, _ | _, NegInf => NegInf
  end.

(** [x - y] *)
Definition sub (x y : number) : number := add x (neg y).

(** The infinity whose sign is the sign of the finite factor [a];
    [0 * Infinity] is NaN. *)
Definition signed_inf (a : Q) (pos : number) : number :=
  if Qeq_bool a 0 then NaN
  else if Qltb 0 a then pos else neg pos.

(** [x * y] *)
Definition mul (x y : number) : number :=
  match x, y with
  | NaN, _ | _, NaN => NaN
  | Finite a, Finite b => Finite (a * b)
  | Finite a, PosInf | PosInf, Finite a => signed_inf a PosInf
  | Finite a, NegInf | NegInf, Finite a => signed_inf a NegInf
  | PosInf, PosInf | NegInf, NegInf => PosInf
  | PosInf, NegInf | NegInf, PosInf => NegInf
  end.

(** [x / y]: a finite nonzero value over zero is an infinity, [0/0] and
    [Infinity/Infinity] are NaN. *)
Definition div (x y : number) : number :=
  match x, y with
  | NaN, _ | _, NaN => NaN
  | Finite a, Finite b =>
      if Qeq_bool b 0 then
        if Qeq_bool a 0 then NaN
        else if Qltb 0 a then PosInf else NegInf
      else Finite (a / b)
  | Finite _, (PosInf | NegInf) => Finite 0
  | PosInf, Finite b => if Qle_bool 0 b then PosInf else NegInf
  | NegInf, Finite b => if Qle_bool 0 b then NegInf else PosInf
  | (PosInf | NegInf), (PosInf | NegInf) => NaN
  end.

(** [x < y]; false as soon as one side is NaN. *)
Definition ltb (x y : number) : bool :=
  match x, y with
  | NaN, _ | _, NaN => false
  | Finite a, Finite b => Qltb a b
  | NegInf, (Finite _ | PosInf) => true
  | Finite _, PosInf => true
  | _, _ => false
  end.

(** [x > y] *)
Definition gtb (x y : number) : bool := ltb y x.

(** [x === y] on numbers; NaN is equal to nothing. *)
Definition eqb (x y : number) : bool :=
  match x, y with
  | Finite a, Finite b => Qeq_bool a b
  | PosInf, PosInf | NegInf, NegInf => true
  | _, _ => false
  end.

(** [x !== y] *)
Definition neqb (x y : number) : bool := negb (eqb x y).

(** [Math.abs] *)
Definition abs (x : number) : number :=
  match x with
  | Finite a => Finite (Qabs a)
  | PosInf | NegInf => PosInf
  | NaN => NaN
  end.

(** [Math.max(x, y)] and [Math.min(x, y)]: NaN if an argument is NaN. *)
Definition max (x y : number) : number :=
  match x, y with
  | NaN, _ | _, NaN => NaN
  | _, _ => if ltb x y then y else x
  end.

Definition min (x y : number) : number :=
  match x, y with
  | NaN, _ | _, NaN => NaN
  | _, _ => if ltb y x then y else x
  end.

(** [Math.pow(x, k)] for a literal exponent [k] (2 and 3 in this
    program), as a repeated product. *)
Fixpoint pow (x : number) (k : nat) : number :=
  match k with
  | O => Finite 1
  | S k' => mul x (pow x k')
  end.

(** [Math.sqrt] away from the finite non-negative values, where it is
    given by the parameter [sqrt_fin] of the trial runner. *)
Definition sqrt (sqrt_fin : Q -> Q) (x : number) : number :=
  match x with
  | Finite a => if Qle_bool 0 a then Finite (sqrt_fin a) else NaN
  | PosInf => PosInf
  | NegInf | NaN => NaN
  end.

(** A finite value that is at least zero. *)
Definition nonneg (x : number) : Prop :=
  match x with
  | Finite a => (0 <= a)%Q
  | _ => False
  end.

Definition is_finite (x : number) : bool :=
  match x with Finite _ => true | _ => false end.

(** Equality of numbers up to the representation of the rational. *)
Definition eq (x y : number) : Prop :=
  match x, y with
  | Finite a, Finite b => (a == b)%Q
  | PosInf, PosInf | NegInf, NegInf | NaN, NaN => True
  | _, _ => False
  end.

End Num.

Declare Scope num_scope.
Delimit Scope num_scope with num.
Bind Scope num_scope with number.
Infix "+" := Num.add : num_scope.
Infix "-" := Num.sub : num_scope.
Infix "*" := Num.mul : num_scope.
Infix "/" := Num.div : num_scope.
Infix "=~" := Num.eq (at level 70, no associativity) : num_scope.

(** ** Exceptions *)

Inductive Error : Type :=
  | TypeError     (* property access on [undefined] *)
  | RangeError.   (* resource exhaustion reported by the runtime *)

Inductive Result (A : Type) : Type :=
  | Ok (a : A)
  | Throw (e : Error).
Arguments Ok {A} a.
Arguments Throw {A} e.

#[global] Instance Result_ret : MRet Result := fun A a => Ok a.
#[global] Instance Result_bind : MBind Result := fun A B k r =>
  match r with
  | Ok a => k a
  | Throw e => Throw e
  end.

#[global] Instance Result_fmap : FMap Result := fun A B f r =>
  match r with
  | Ok a => Ok (f a)
  | Throw e => Throw e
  end.

(** [for (let i = i0; i < i0 + cnt; i++) body], threading the loop state. *)
Fixpoint for_upto {S : Type} (i cnt : nat) (body : nat -> S -> Result S) (s : S)
  : Result S :=
  match cnt with
  | O => Ok s
  | Datatypes.S c => s' ← body i s; for_upto (Datatypes.S i) c body s'
  end.

(** ** Arrays *)

Abbreviation matrix := (list (list number)).

(** [arr[i] = v].  Inside the array the slot is replaced; at [i = length]
    the array grows by one; further out JavaScript leaves holes, filled
    here with [hole]. *)
Definition array_set {A} (hole : A) (arr : list A) (i : nat) (v : A) : list A :=
  if (i <? length arr)%nat then <[i:=v]> arr
  else arr ++ replicate (i - length arr) hole ++ [v].

(** [m[i][k]] read as a number: a missing row is a TypeError, a missing
    entry is [undefined], which arithmetic turns into NaN. *)
Definition load2 (m : matrix) (i k : nat) : Result number :=
  match m !! i with
  | None => Throw TypeError
  | Some row => Ok (default NaN (row !! k))
  end.

(** [m[i][j] = v] *)
Definition store2 (m : matrix) (i j : nat) (v : number) : Result matrix :=
  match m !! i with
  | None => Throw TypeError
  | Some row => Ok (<[i := array_set NaN row j v]> m)
  end.

(** ** The multiplier with operation counting *)

Module Product.
Record t : Type := { result : matrix; flops : Z }.
End Product.

Definition multiplyMatricesWithFLOPS (a b : matrix) (n : nat) : Result Product.t :=
  let result : matrix := [] in
  let flops := 0 in
  (* Inicializar matriz resultado *)
  result ← for_upto 0 n (fun i result =>
      let result := array_set [] result i [] in
      for_upto 0 n (fun j result => store2 result i j Num.zero) result) result;
  (* Multiplicacion estandar con conteo preciso de FLOPS *)
  '(result, flops) ← for_upto 0 n (fun i st =>
      for_upto 0 n (fun j st =>
        for_upto 0 n (fun k '(result, flops) =>
          rij ← load2 result i j;
          aik ← load2 a i k;
          bkj ← load2 b k j;
          result ← store2 result i j (rij + aik * bkj)%num;
          Ok (result, flops + 2)) st) st) (result, flops);
  Ok {| Product.result := result; Product.flops := flops |}.

(** ** The environment: random source, clock and runtime failures

    [Math.random()] and [performance.now()] read the next value of a
    stream supplied by the environment; both return finite numbers.  The
    runtime may also fail to allocate a matrix (the failure the sweep
    controller's [catch] is written for): the stream [faults] says, for
    each successive allocation, whether it throws. *)

Module World.
Record t : Type := {
  randoms : nat -> Q;
  clock : nat -> Q;
  faults : nat -> bool
}.
End World.

Definition stream_tl {A} (s : nat -> A) : nat -> A := fun k => s (S k).

(** Computations that use the environment and may throw. *)
Definition Eff (A : Type) : Type := World.t -> Result A * World.t.

#[global] Instance Eff_ret : MRet Eff := fun A a w => (Ok a, w).
#[global] Instance Eff_bind : MBind Eff := fun A B k m w =>
  match m w with
  | (Ok a, w') => k a w'
  | (Throw e, w') => (Throw e, w')
  end.

Definition lift {A} (r : Result A) : Eff A := fun w => (r, w).

Definition Math_random : Eff number := fun w =>
  (Ok (Finite (World.randoms w O)),
   {| World.randoms := stream_tl (World.randoms w);
      World.clock := World.clock w;
      World.faults := World.faults w |}).

Definition performance_now : Eff number := fun w =>
  (Ok (Finite (World.clock w O)),
   {| World.randoms := World.randoms w;
      World.clock := stream_tl (World.clock w);
      World.faults := World.faults w |}).

Definition allocate : Eff unit := fun w =>
  ((if World.faults w O then Throw RangeError else Ok tt),
   {| World.randoms := World.randoms w;
      World.clock := World.clock w;
      World.faults := stream_tl (World.faults w) |}).

Fixpoint for_upto_eff {S : Type} (i cnt : nat) (body : nat -> S -> Eff S) (s : S)
  : Eff S :=
  match cnt with
  | O => mret s
  | Datatypes.S c => s' ← body i s; for_upto_eff (Datatypes.S i) c body s'
  end.

(** ** The matrix generator *)

Definition generateRandomMatrix (n : nat) : Eff matrix :=
  _ ← allocate;
  for_upto_eff 0 n (fun i matrix =>
    let matrix := array_set [] matrix i [] in
    for_upto_eff 0 n (fun j matrix =>
      r ← Math_random;
      lift (store2 matrix i j (r * Num.of_Z 10)%num)) matrix) [].

(** ** The trial runner *)

(** [xs.reduce((sum, x) => sum + x, 0)] *)
Definition sum_numbers (xs : list number) : number :=
  foldl Num.add Num.zero xs.

Module Measurement.
Record t : Type := {
  avgTime : number;
  stdDev : number;
  flops : Z;
  avgFLOPS : number;
  gflops : number;
  teraflops : number;
  teraflopsSeconds : number
}.
End Measurement.

Module Trial.
(** What one pass of the measurement loop records. *)
Record t : Type := {
  elapsedMs : number;
  currentFLOPS : number;
  teraflopsSeconds : number;
  flops : Z
}.
End Trial.

Definition e12 : number := Num.of_Z (10 ^ 12).
Definition e9 : number := Num.of_Z (10 ^ 9).

(** The figures one trial derives from its operation count and its two
    clock readings. *)
Definition trial_metrics (flops : Z) (startTime endTime : number) : Trial.t :=
  let timeInSeconds := ((endTime - startTime) / Num.of_Z 1000)%num in
  let currentFLOPS := (Num.of_Z flops / timeInSeconds)%num in
  let teraflopsPerSecond := (currentFLOPS / e12)%num in
  let teraflopsSeconds := (timeInSeconds * teraflopsPerSecond)%num in
  {| Trial.elapsedMs := (endTime - startTime)%num;
     Trial.currentFLOPS := currentFLOPS;
     Trial.teraflopsSeconds := teraflopsSeconds;
     Trial.flops := flops |}.

(** The body of the measurement loop of [measureFLOPS]. *)
Definition measureFLOPS_trial (n : nat) : Eff Trial.t :=
  matrixA ← generateRandomMatrix n;
  matrixB ← generateRandomMatrix n;
  startTime ← performance_now;
  p ← lift (multiplyMatricesWithFLOPS matrixA matrixB n);
  endTime ← performance_now;
  mret (trial_metrics (Product.flops p) startTime endTime).

Section TrialRunner.

(** [Math.sqrt] on the finite non-negative numbers. *)
Variable sqrt_fin : Q -> Q.

(** The statistics computed after the measurement loop. *)
Definition aggregate (times flopsResults teraflopsSecondsResults : list number)
    (totalFLOPS : Z) : Measurement.t :=
  let avgTime := (sum_numbers times / Num.of_nat (length times))%num in
  let variance :=
    (foldl (fun sum time => sum + Num.pow (time - avgTime) 2) Num.zero times
     / Num.of_nat (length times))%num in
  let stdDev := Num.sqrt sqrt_fin variance in
  let avgFLOPS := (sum_numbers flopsResults / Num.of_nat (length flopsResults))%num in
  let gflops := (avgFLOPS / e9)%num in
  let teraflops := (avgFLOPS / e12)%num in
  let teraflopsSeconds :=
    (sum_numbers teraflopsSecondsResults
     / Num.of_nat (length teraflopsSecondsResults))%num in
  {| Measurement.avgTime := avgTime;
     Measurement.stdDev := stdDev;
     Measurement.flops := totalFLOPS;
     Measurement.avgFLOPS := avgFLOPS;
     Measurement.gflops := gflops;
     Measurement.teraflops := teraflops;
     Measurement.teraflopsSeconds := teraflopsSeconds |}.

Definition measureFLOPS (n : nat) (numMeasurements : nat) : Eff Measurement.t :=
  let times : list number := [] in
  let flopsResults : list number := [] in
  let teraflopsSecondsResults : list number := [] in
  let totalFLOPS := 0 in
  '(times, flopsResults, teraflopsSecondsResults, totalFLOPS) ←
    for_upto_eff 0 numMeasurements
      (fun i '(times, flopsResults, teraflopsSecondsResults, totalFLOPS) =>
         t ← measureFLOPS_trial n;
         mret (times ++ [Trial.elapsedMs t],
               flopsResults ++ [Trial.currentFLOPS t],
               teraflopsSecondsResults ++ [Trial.teraflopsSeconds t],
               Trial.flops t))
      (times, flopsResults, teraflopsSecondsResults, totalFLOPS);
  mret (aggregate times flopsResults teraflopsSecondsResults totalFLOPS).

End TrialRunner.

(** ** Data points and the cubic fit *)

Module DataPoint.
Record t : Type := {
  n : Z;
  time : number;
  operations : Z;
  flops : number;
  gflops : number;
  teraflops : number;
  teraflopsSeconds : number;
  theoretical : number;
  standardDeviation : number
}.
End DataPoint.

Module Fit.
Record t : Type := { a : number; b : number; c : number; rSquared : number }.
End Fit.

(** The callback of the first [forEach]: the running sums of [n^3],
    [n^6], [time * n^3] and [time]. *)
Definition regression_step (sums : number * number * number * number)
    (point : DataPoint.t) : number * number * number * number :=
  let '(sumN3, sumN6, sumTN3, sumT) := sums in
  let n3 := Num.pow (Num.of_Z (DataPoint.n point)) 3 in
  ((sumN3 + n3)%num,
   (sumN6 + Num.pow n3 2)%num,
   (sumTN3 + DataPoint.time point * n3)%num,
   (sumT + DataPoint.time point)%num).

(** The callback of the second [forEach]: the residual and total sums of
    squares for the curve [a n^3 + b n^2 + c] and the mean [avgY]. *)
Definition squares_step (a b c avgY : number) (ss : number * number)
    (point : DataPoint.t) : number * number :=
  let '(ssRes, ssTot) := ss in
  let predicted :=
    (a * Num.pow (Num.of_Z (DataPoint.n point)) 3
     + b * Num.pow (Num.of_Z (DataPoint.n point)) 2 + c)%num in
  ((ssRes + Num.pow (DataPoint.time point - predicted) 2)%num,
   (ssTot + Num.pow (DataPoint.time point - avgY) 2)%num).

Definition fitCubicCurve (dataPoints : list DataPoint.t) : Fit.t :=
  let n := length dataPoints in
  if (n <? 3)%nat then
    {| Fit.a := Num.zero; Fit.b := Num.zero; Fit.c := Num.zero;
       Fit.rSquared := Num.zero |}
  else
    (* Regresion simple para n^3 *)
    let '(sumN3, sumN6, sumTN3, sumT) :=
      foldl regression_step (Num.zero, Num.zero, Num.zero, Num.zero) dataPoints in
    let n := Num.of_nat n in
    let denominator := (n * sumN6 - sumN3 * sumN3)%num in
    let a :=
      if Num.neqb denominator Num.zero
      then ((n * sumTN3 - sumT * sumN3) / denominator)%num
      else Num.zero in
    let avgTime := (sumT / n)%num in
    let avgN3 := (sumN3 / n)%num in
    let c := (avgTime - a * avgN3)%num in
    let b := Num.zero in
    (* Calcular R^2 *)
    let avgY :=
      (foldl (fun sum p => sum + DataPoint.time p) Num.zero dataPoints / n)%num in
    let '(ssRes, ssTot) :=
      foldl (squares_step a b c avgY) (Num.zero, Num.zero) dataPoints in
    let rSquared :=
      if Num.gtb ssTot Num.zero
      then Num.max Num.zero (Finite 1 - ssRes / ssTot)%num
      else Num.zero in
    {| Fit.a := Num.abs a; Fit.b := Num.abs b; Fit.c := Num.abs c;
       Fit.rSquared := rSquared |}.

(** ** The sweep controller

    [runAnalysis] is an async function: between two [await]s it runs to
    completion, and at [await new Promise(...)] it gives way to other
    events until its timer fires.  It is modelled by its two segments,
    [runAnalysis] (from the click to the first [await] or to the end) and
    [resume] (from a timer firing to the next [await] or to the end),
    both through [sweep_from]; a suspended invocation is kept with its
    local variables.  The state setters act on the state at once, and a
    handler reads the state left by the events before it.  The constant
    [totalTests] of the source is computed and never used; it is left
    out. *)

Module AnalysisResult.
Record t : Type := {
  dataPoints : list DataPoint.t;
  complexity : string;
  rSquared : number;
  coefficients : Fit.t;
  theoreticalCoeff : number;
  avgGFLOPS : number;
  maxTFLOPS : number;
  totalTeraflopsSeconds : number
}.
End AnalysisResult.

(** The inputs of a sweep: the state variables [startN], [endN], [step]
    and [measurements] that the callback closes over. *)
Module Config.
Record t : Type := { startN : Z; endN : Z; step : Z; measurements : Z }.
End Config.

(** The observable state: [isRunning], [progress], [results],
    [currentTest]. *)
Module UI.
Record t : Type := {
  isRunning : bool;
  progress : number;
  results : option AnalysisResult.t;
  currentTest : string
}.
End UI.

(** A sweep suspended at [await new Promise(...)], with its local
    variables and the inputs it closed over. *)
Module Sweep.
Record t : Type := {
  cfg : Config.t;
  n : Z;
  dataPoints : list DataPoint.t;
  totalTeraflopsSeconds : number
}.
End Sweep.

Module App.
Record t : Type := {
  config : Config.t;
  ui : UI.t;
  suspended : list Sweep.t;   (* invocations of runAnalysis waiting on a timer *)
  console : list Error;       (* what console.error has logged *)
  world : World.t
}.
End App.

(** Decimal rendering of an integer inside a template string. *)
Definition show_Z (z : Z) : string := NilZero.string_of_int (Z.to_int z).

(** [Math.max(...xs)] *)
Definition max_numbers (xs : list number) : number := foldl Num.max NegInf xs.

(** [dataPoints[dataPoints.length - 1]], used only for a non-empty list. *)
Definition last_point (dataPoints : list DataPoint.t) : option DataPoint.t :=
  dataPoints !! (length dataPoints - 1)%nat.

Section SweepController.

Variable sqrt_fin : Q -> Q.

(** The [finally] block. *)
Definition finally (u : UI.t) : UI.t :=
  {| UI.isRunning := false;
     UI.currentTest := EmptyString;
     UI.progress := Num.zero;
     UI.results := UI.results u |}.

(** The statements after the loop, up to and including [setResults]. *)
Definition summarize (dataPoints : list DataPoint.t) (totalTeraflopsSeconds : number)
  : AnalysisResult.t :=
  (* Analizar complejidad *)
  let coefficients := fitCubicCurve dataPoints in
  let theoreticalCoeff :=
    if (1 <? length dataPoints)%nat then
      match last_point dataPoints with
      | Some p => (DataPoint.time p / Num.pow (Num.of_Z (DataPoint.n p)) 3)%num
      | None => NaN
      end
    else Num.zero in
  let avgGFLOPS :=
    (foldl (fun sum p => sum + DataPoint.gflops p) Num.zero dataPoints
     / Num.of_nat (length dataPoints))%num in
  let maxTFLOPS := max_numbers (map DataPoint.teraflops dataPoints) in
  let complexity :=
    if Num.gtb (Fit.rSquared coefficients) (Finite (9 # 10)) then "O(n³)"%string
    else if Num.gtb (Fit.rSquared coefficients) (Finite (7 # 10))
    then "≈ O(n³)"%string
    else "Complejo"%string in
  {| AnalysisResult.dataPoints := dataPoints;
     AnalysisResult.complexity := complexity;
     AnalysisResult.rSquared := Fit.rSquared coefficients;
     AnalysisResult.coefficients := coefficients;
     AnalysisResult.theoreticalCoeff := theoreticalCoeff;
     AnalysisResult.avgGFLOPS := avgGFLOPS;
     AnalysisResult.maxTFLOPS := maxTFLOPS;
     AnalysisResult.totalTeraflopsSeconds := totalTeraflopsSeconds |}.

(** The sweep from the loop test [n <= endN] to the next [await], or to
    the end of the function when the loop is over or a trial throws. *)
Definition sweep_from (c : Config.t) (n : Z) (dataPoints : list DataPoint.t)
    (totalTeraflopsSeconds : number) (app : App.t) : App.t :=
  let u := App.ui app in
  if n <=? Config.endN c then
    let u :=
      {| UI.isRunning := UI.isRunning u;
         UI.progress := UI.progress u;
         UI.results := UI.results u;
         UI.currentTest :=
           ("Calculando TERAFLOPS-segundos para matrices " ++ show_Z n ++ "×"
            ++ show_Z n ++ " (" ++ show_Z (Config.measurements c)
            ++ " mediciones)")%string |} in
    match measureFLOPS sqrt_fin (Z.to_nat n) (Z.to_nat (Config.measurements c))
                       (App.world app) with
    | (Ok m, w) =>
        let theoreticalOps :=
          (Num.of_Z 2 * Num.pow (Num.of_Z n) 3 - Num.pow (Num.of_Z n) 2)%num in
        let theoretical := (theoreticalOps * Finite (1 # 1000000))%num in
        let totalTeraflopsSeconds :=
          (totalTeraflopsSeconds + Measurement.teraflopsSeconds m)%num in
        let dataPoints :=
          dataPoints ++
          [{| DataPoint.n := n;
              DataPoint.time := Measurement.avgTime m;
              DataPoint.operations := Measurement.flops m;
              DataPoint.flops := Measurement.avgFLOPS m;
              DataPoint.gflops := Measurement.gflops m;
              DataPoint.teraflops := Measurement.teraflops m;
              DataPoint.teraflopsSeconds := Measurement.teraflopsSeconds m;
              DataPoint.theoretical := theoretical;
              DataPoint.standardDeviation := Measurement.stdDev m |}] in
        let currentProgress :=
          ((Num.of_Z n - Num.of_Z (Config.startN c))
           / (Num.of_Z (Config.endN c) - Num.of_Z (Config.startN c))
           * Num.of_Z 100)%num in
        let u :=
          {| UI.isRunning := UI.isRunning u;
             UI.progress := Num.min currentProgress (Num.of_Z 100);
             UI.results := UI.results u;
             UI.currentTest := UI.currentTest u |} in
        {| App.config := App.config app;
           App.ui := u;
           App.suspended :=
             App.suspended app ++
             [{| Sweep.cfg := c; Sweep.n := n; Sweep.dataPoints := dataPoints;
                 Sweep.totalTeraflopsSeconds := totalTeraflopsSeconds |}];
           App.console := App.console app;
           App.world := w |}
    | (Throw error, w) =>
        {| App.config := App.config app;
           App.ui := finally u;
           App.suspended := App.suspended app;
           App.console := App.console app ++ [error];
           App.world := w |}
    end
  else
    let u :=
      {| UI.isRunning := UI.isRunning u;
         UI.progress := UI.progress u;
         UI.results := Some (summarize dataPoints totalTeraflopsSeconds);
         UI.currentTest := UI.currentTest u |} in
    {| App.config := App.config app;
       App.ui := finally u;
       App.suspended := App.suspended app;
       App.console := App.console app;
       App.world := App.world app |}.

(** A click on the run button: [runAnalysis] up to its first [await]. *)
Definition runAnalysis (app : App.t) : App.t :=
  if UI.isRunning (App.ui app) then app
  else
    let u :=
      {| UI.isRunning := true;
         UI.progress := Num.zero;
         UI.results := None;
         UI.currentTest := EmptyString |} in
    let app :=
      {| App.config := App.config app;
         App.ui := u;
         App.suspended := App.suspended app;
         App.console := App.console app;
         App.world := App.world app |} in
    let c := App.config app in
    sweep_from c (Config.startN c) [] Num.zero app.

(** The timer of the [k]-th suspended sweep fires: the sweep goes on
    with [n += step]. *)
Definition resume (k : nat) (app : App.t) : App.t :=
  match App.suspended app !! k with
  | None => app
  | Some sw =>
      let app :=
        {| App.config := App.config app;
           App.ui := App.ui app;
           App.suspended := delete k (App.suspended app);
           App.console := App.console app;
           App.world := App.world app |} in
      sweep_from (Sweep.cfg sw) (Sweep.n sw + Config.step (Sweep.cfg sw))
                 (Sweep.dataPoints sw) (Sweep.totalTeraflopsSeconds sw) app
  end.

(** [clearResults] *)
Definition clearResults (app : App.t) : App.t :=
  {| App.config := App.config app;
     App.ui :=
       {| UI.isRunning := UI.isRunning (App.ui app);
          UI.progress := Num.zero;
          UI.results := None;
          UI.currentTest := EmptyString |};
     App.suspended := App.suspended app;
     App.console := App.console app;
     App.world := App.world app |}.

Definition set_config (c : Config.t) (app : App.t) : App.t :=
  {| App.config := c;
     App.ui := App.ui app;
     App.suspended := App.suspended app;
     App.console := App.console app;
     App.world := App.world app |}.

(** What can happen to the component: a click on the run button, a
    pending timer firing, an edit of one of the four inputs (with the
    value [Number(e.target.value)], taken to be an integer), a click on
    the clear button. *)
Inductive Event : Type :=
  | ClickRun
  | TimerFired (k : nat)
  | ChangeStartN (v : Z)
  | ChangeEndN (v : Z)
  | ChangeStep (v : Z)
  | ChangeMeasurements (v : Z)
  | ClickClear.

(** One event, handled to completion.  The handlers read the state of
    the latest render.  The inputs are disabled while [isRunning], and
    the clear button is only rendered when there are results. *)
Definition handle (ev : Event) (app : App.t) : App.t :=
  let c := App.config app in
  let editable := negb (UI.isRunning (App.ui app)) in
  match ev with
  | ClickRun => runAnalysis app
  | TimerFired k => resume k app
  | ChangeStartN v =>
      if editable then
        set_config {| Config.startN := Z.max 50 v;
                      Config.endN := Config.endN c;
                      Config.step := Config.step c;
                      Config.measurements := Config.measurements c |} app
      else app
  | ChangeEndN v =>
      if editable then
        set_config {| Config.startN := Config.startN c;
                      Config.endN := Z.max (Config.startN c) v;
                      Config.step := Config.step c;
                      Config.measurements := Config.measurements c |} app
      else app
  | ChangeStep v =>
      if editable then
        set_config {| Config.startN := Config.startN c;
                      Config.endN := Config.endN c;
                      Config.step := Z.max 25 v;
                      Config.measurements := Config.measurements c |} app
      else app
  | ChangeMeasurements v =>
      if editable then
        set_config {| Config.startN := Config.startN c;
                      Config.endN := Config.endN c;
                      Config.step := Config.step c;
                      Config.measurements := Z.max 1 (Z.min 10 v) |} app
      else app
  | ClickClear =>
      match UI.results (App.ui app) with
      | Some _ => clearResults app
      | None => app
      end
  end.

Definition run_events (evs : list Event) (app : App.t) : App.t :=
  foldl (fun app ev => handle ev app) app evs.

(** The component before any sweep, with inputs [c]. *)
Definition idle (c : Config.t) (w : World.t) : App.t :=
  {| App.config := c;
     App.ui :=
       {| UI.isRunning := false;
          UI.progress := Num.zero;
          UI.results := None;
          UI.currentTest := EmptyString |};
     App.suspended := [];
     App.console := [];
     App.world := w |}.

(** The values given to [useState]. *)
Definition initial_config : Config.t :=
  {| Config.startN := 100; Config.endN := 800; Config.step := 100;
     Config.measurements := 3 |}.

(** A whole sweep: the click, then [timers] firings of its timer. *)
Definition run_sweep (timers : nat) (app : App.t) : App.t :=
  run_events (ClickRun :: replicate timers (TimerFired 0)) app.

End SweepController.

(** ** Specification vocabulary *)

(** An [n] by [n] matrix: [n] rows of [n] entries. *)
Definition is_square (n : nat) (m : matrix) : Prop :=
  length m = n /\ Forall (fun row => length row = n) m.

(** [m[i][j]] as a value, when the entry exists. *)
Definition entry (m : matrix) (i j : nat) : option number :=
  m !! i ≫= fun row => row !! j.

(** The entry read as a number, as the arithmetic of the multiplier
    sees it. *)
Definition entry_num (m : matrix) (i j : nat) : number :=
  default NaN (entry m i j).

(** The sum of [f 0], ..., [f (n - 1)]. *)
Fixpoint sigma (f : nat -> number) (n : nat) : number :=
  match n with
  | O => Num.zero
  | S k => (sigma f k + f k)%num
  end.

(** [m] holds the [n] by [n] table [f]. *)
Definition cells (n : nat) (m : matrix) (f : nat -> nat -> number) : Prop :=
  length m = n /\
  forall i, (i < n)%nat ->
    exists row, m !! i = Some row /\ length row = n /\
                forall j, (j < n)%nat -> row !! j = Some (f i j).

(** The first [k] terms of the inner product of row [i] of [a] and
    column [j] of [b]. *)
Definition dot (a b : matrix) (k i j : nat) : number :=
  sigma (fun k' => entry_num a i k' * entry_num b k' j)%num k.

(** The table held by [result] when the loops of the multiplier are at
    [(i, j, k)]: finished entries, the entry under way, and zeros. *)
Definition table_at (a b : matrix) (n i j k : nat) (i' j' : nat) : number :=
  if (i' <? i)%nat then dot a b n i' j'
  else if (i' =? i)%nat then
    if (j' <? j)%nat then dot a b n i' j'
    else if (j' =? j)%nat then dot a b k i' j'
    else Num.zero
  else Num.zero.

(** ** Concrete inputs used in the examples *)

Definition m22 (a b c d : Z) : matrix :=
  [[Num.of_Z a; Num.of_Z b]; [Num.of_Z c; Num.of_Z d]].

(** ** Vocabulary for the cubic fit *)

(** The sum of [f p] over the points [p] of [l]. *)
Definition qsum {A} (f : A -> Q) (l : list A) : Q :=
  fold_right (fun p s => f p + s)%Q 0%Q l.

(** The number of elements as a rational. *)
Definition qlen {A} (l : list A) : Q := inject_Z (Z.of_nat (length l)).




Definition finite_times (pts : list DataPoint.t) : Prop :=
  Forall (fun p => Num.is_finite (DataPoint.time p) = true) pts.

(** A data point with the given size and time, the other fields zero. *)
Definition point (n : Z) (time : number) : DataPoint.t :=
  {| DataPoint.n := n;
     DataPoint.time := time;
     DataPoint.operations := 2 * n ^ 3;
     DataPoint.flops := Num.zero;
     DataPoint.gflops := Num.zero;
     DataPoint.teraflops := Num.zero;
     DataPoint.teraflopsSeconds := Num.zero;
     DataPoint.theoretical := Num.zero;
     DataPoint.standardDeviation := Num.zero |}.

(** Three points whose times are [2 n^3]. *)
Definition cubic_points : list DataPoint.t :=
  [point 1 (Finite 2); point 2 (Finite 16); point 3 (Finite 54)].

(** ** Vocabulary for the trial runner *)

(** The runtime never fails an allocation. *)
Definition fault_free (w : World.t) : Prop :=
  forall k, World.faults w k = false.

(** The milliseconds between the two clock readings of trial [i]
    (counting from 0) of a measurement that starts in [w]. *)
Definition elapsed_ms (w : World.t) (i : nat) : Q :=
  (World.clock w (2 * i + 1) - World.clock w (2 * i))%Q.

(** Trial [i] (counting from 0) of a measurement of size [n] that starts
    in [w], when no allocation fails. *)
Definition nth_trial (n : nat) (w : World.t) (i : nat) : Trial.t :=
  trial_metrics (2 * Z.of_nat n ^ 3)
                (Finite (World.clock w (2 * i)))
                (Finite (World.clock w (2 * i + 1))).

(** The world [steps] clock readings and allocations after [w]. *)
Definition later (steps : nat) (w w' : World.t) : Prop :=
  (forall k, World.clock w' k = World.clock w (steps + k)%nat) /\
  (forall k, World.faults w' k = World.faults w (steps + k)%nat).

(** The work of one multiplication of size [n] in units of 10^12
    operations: [2 n^3 / 1e12]. *)
Definition work_tera (n : nat) : Q :=
  (inject_Z (2 * Z.of_nat n ^ 3) / inject_Z (10 ^ 12))%Q.

(** An environment whose clock does not advance between two readings,
    and one whose clock advances by one millisecond per reading. *)
Definition frozen_world : World.t :=
  {| World.randoms := fun _ => (1 # 2)%Q;
     World.clock := fun _ => 5%Q;
     World.faults := fun _ => false |}.

Definition ticking_world : World.t :=
  {| World.randoms := fun _ => (1 # 2)%Q;
     World.clock := fun k => inject_Z (Z.of_nat k);
     World.faults := fun _ => false |}.

(** ** Vocabulary for the sweep controller *)

(** The idle observables: not running, progress 0, empty label. *)
Definition ui_idle (u : UI.t) : Prop :=
  UI.isRunning u = false /\ UI.progress u = Num.zero /\ UI.currentTest u = EmptyString.

(** The progress reported after size [n] of a sweep with inputs [c]. *)
Definition reported_progress (c : Config.t) (n : Z) : number :=
  Num.min ((Num.of_Z n - Num.of_Z (Config.startN c))
           / (Num.of_Z (Config.endN c) - Num.of_Z (Config.startN c))
           * Num.of_Z 100)%num
          (Num.of_Z 100).

(** The first [k] sizes of a sweep: [startN], [startN + step], ... *)
Definition sizes (c : Config.t) (k : nat) : list Z :=
  map (fun i => Config.startN c + Z.of_nat i * Config.step c) (seq 0 k).

(** A suspended sweep has measured the sizes up to its current [n], in
    order, and the progress on display is the one it reported for [n]. *)
Definition sweep_inv (u : UI.t) (sw : Sweep.t) : Prop :=
  exists k : nat,
    Sweep.n sw = Config.startN (Sweep.cfg sw) + Z.of_nat k * Config.step (Sweep.cfg sw) /\
    Sweep.n sw <= Config.endN (Sweep.cfg sw) /\
    map DataPoint.n (Sweep.dataPoints sw) = sizes (Sweep.cfg sw) (S k) /\
    UI.progress u = reported_progress (Sweep.cfg sw) (Sweep.n sw).

(** The invariant of the component: either no sweep is suspended and the
    observables are idle, or exactly one is, the component is running
    and no result is on display. *)
Definition app_inv (app : App.t) : Prop :=
  match App.suspended app with
  | [] => ui_idle (App.ui app)
  | [sw] =>
      UI.isRunning (App.ui app) = true /\
      UI.results (App.ui app) = None /\
      sweep_inv (App.ui app) sw
  | _ => False
  end.

(** An environment in which the third allocation fails. *)
Definition failing_world : World.t :=
  {| World.randoms := fun _ => (1 # 2)%Q;
     World.clock := fun k => inject_Z (Z.of_nat k);
     World.faults := fun k => (k =? 2)%nat |}.

Definition config (startN endN step measurements : Z) : Config.t :=
  {| Config.startN := startN; Config.endN := endN; Config.step := step;
     Config.measurements := measurements |}.

(** ** The figures of a trial and the cubic fit in binary64

    The same lines of [measureFLOPS] as [trial_metrics], and
    [fitCubicCurve], with the arithmetic of JavaScript itself: IEEE
    binary64 with rounding to nearest.  [flops] is the count as a
    number. *)

Module Binary64.

Record trial : Type := {
  elapsedMs : float;
  currentFLOPS : float;
  teraflopsSeconds : float
}.

Definition trial_metrics (flops startTime endTime : float) : trial :=
  let timeInSeconds := ((endTime - startTime) / 1000)%float in
  let currentFLOPS := (flops / timeInSeconds)%float in
  let teraflopsPerSecond := (currentFLOPS / 1e12)%float in
  let teraflopsSeconds := (timeInSeconds * teraflopsPerSecond)%float in
  {| elapsedMs := (endTime - startTime)%float;
     currentFLOPS := currentFLOPS;
     teraflopsSeconds := teraflopsSeconds |}.

(** [((n - startN) / (endN - startN)) * 100] *)
Definition currentProgress (n startN endN : float) : float :=
  ((n - startN) / (endN - startN) * 100)%float.

(** *** The cubic fit in binary64

    [fitCubicCurve] with the arithmetic of JavaScript itself, on the two
    fields of a data point that it reads.  [Math.pow] is a parameter:
    its accuracy is left to the implementation. *)

Module Point.
Record t : Type := { n : float; time : float }.
End Point.

Module Fit.
Record t : Type := { a : float; b : float; c : float; rSquared : float }.
End Fit.

(** [Math.max(x, y)]: NaN if an argument is NaN, and +0 above -0. *)
Definition Math_max (x y : float) : float :=
  if (PrimFloat.is_nan x || PrimFloat.is_nan y)%bool then nan
  else if (x <? y)%float then y
  else if (y <? x)%float then x
  else if get_sign x then y
  else x.

(** [dataPoints.length] as a number. *)
Definition of_length (k : nat) : float := of_uint63 (Uint63.of_Z (Z.of_nat k)).

Section CubicFit.

Variable Math_pow : float -> float -> float.

Definition regression_step (sums : float * float * float * float) (point : Point.t)
  : float * float * float * float :=
  let '(sumN3, sumN6, sumTN3, sumT) := sums in
  let n3 := Math_pow (Point.n point) 3 in
  ((sumN3 + n3)%float,
   (sumN6 + Math_pow n3 2)%float,
   (sumTN3 + Point.time point * n3)%float,
   (sumT + Point.time point)%float).

Definition squares_step (a b c avgY : float) (ss : float * float) (point : Point.t)
  : float * float :=
  let '(ssRes, ssTot) := ss in
  let predicted :=
    (a * Math_pow (Point.n point) 3 + b * Math_pow (Point.n point) 2 + c)%float in
  ((ssRes + Math_pow (Point.time point - predicted) 2)%float,
   (ssTot + Math_pow (Point.time point - avgY) 2)%float).

Definition fitCubicCurve (dataPoints : list Point.t) : Fit.t :=
  if (length dataPoints <? 3)%nat then
    {| Fit.a := 0; Fit.b := 0; Fit.c := 0; Fit.rSquared := 0 |}
  else
    let '(sumN3, sumN6, sumTN3, sumT) :=
      foldl regression_step (0, 0, 0, 0)%float dataPoints in
    let n := of_length (length dataPoints) in
    let denominator := (n * sumN6 - sumN3 * sumN3)%float in
    let a :=
      if negb (denominator =? 0)%float
      then ((n * sumTN3 - sumT * sumN3) / denominator)%float
      else 0%float in
    let avgTime := (sumT / n)%float in
    let avgN3 := (sumN3 / n)%float in
    let c := (avgTime - a * avgN3)%float in
    let b := 0%float in
    let avgY := (foldl (fun sum p => sum + Point.time p) 0 dataPoints / n)%float in
    let '(ssRes, ssTot) := foldl (squares_step a b c avgY) (0, 0)%float dataPoints in
    let rSquared :=
      if (0 <? ssTot)%float then Math_max 0 (1 - ssRes / ssTot)%float else 0%float in
    {| Fit.a := PrimFloat.abs a; Fit.b := PrimFloat.abs b; Fit.c := PrimFloat.abs c;
       Fit.rSquared := rSquared |}.

End CubicFit.

(** [Math.pow(x, 2)] and [Math.pow(x, 3)] as products: the value of
    [Math.pow] wherever the products are exact, infinite or NaN. *)
Definition pow_by_products (x y : float) : float :=
  if (y =? 2)%float then (x * x)%float
  else if (y =? 3)%float then (x * x * x)%float
  else nan.



Definition cubic_points : list Point.t :=
  [ {| Point.n := 1; Point.time := 2 |};
    {| Point.n := 2; Point.time := 16 |};
    {| Point.n := 3; Point.time := 54 |} ].

End Binary64.

(** ** Vocabulary for the further properties *)

(** The matrix that [generateRandomMatrix n] builds from the random
    numbers of [w]: entry (i, j) is the random number of rank
    [i * n + j], times 10. *)
Definition random_entry (w : World.t) (n i j : nat) : number :=
  Finite (World.randoms w (i * n + j)%nat * inject_Z 10).

Definition random_row (w : World.t) (n i len : nat) : list number :=
  map (random_entry w n i) (seq 0 len).

Definition random_matrix (w : World.t) (n : nat) : matrix :=
  map (fun i => random_row w n i n) (seq 0 n).

(** ** Vocabulary for the invariants of a session *)

(** The bounds the four input handlers enforce, which the initial
    values satisfy: [Math.max(50, .)], [Math.max(25, .)],
    [Math.max(1, Math.min(10, .))]. *)
Definition config_in_bounds (c : Config.t) : Prop :=
  50 <= Config.startN c /\ 25 <= Config.step c /\ 1 <= Config.measurements c <= 10.

(** The fields of a data point that are functions of other fields. *)
Definition point_consistent (p : DataPoint.t) : Prop :=
  DataPoint.operations p = 2 * DataPoint.n p ^ 3 /\
  DataPoint.gflops p = (DataPoint.flops p / e9)%num /\
  DataPoint.teraflops p = (DataPoint.flops p / e12)%num /\
  (DataPoint.theoretical p
   =~ Finite (inject_Z (2 * DataPoint.n p ^ 3 - DataPoint.n p ^ 2) * (1 # 1000000)))%num.

(** [pts] and [total] are what a sweep with inputs [c] holds after its
    first [k] sizes. *)
Definition measured (c : Config.t) (k : nat) (pts : list DataPoint.t) (total : number)
  : Prop :=
  map DataPoint.n pts = sizes c k /\
  (forall v, v ∈ sizes c k -> v <= Config.endN c) /\
  total = sum_numbers (map DataPoint.teraflopsSeconds pts) /\
  Forall point_consistent pts.

(** A result is the summary of a whole sweep: of all the sizes of some
    inputs within bounds, up to the first one beyond [endN]. *)
Definition result_complete (res : AnalysisResult.t) : Prop :=
  exists (c : Config.t) (k : nat),
    config_in_bounds c /\
    measured c k (AnalysisResult.dataPoints res) (AnalysisResult.totalTeraflopsSeconds res) /\
    Config.endN c < Config.startN c + Z.of_nat k * Config.step c /\
    res = summarize (AnalysisResult.dataPoints res)
                    (AnalysisResult.totalTeraflopsSeconds res).

Definition sweep_wf (sw : Sweep.t) : Prop :=
  config_in_bounds (Sweep.cfg sw) /\
  exists k : nat,
    Sweep.n sw = Config.startN (Sweep.cfg sw) + Z.of_nat k * Config.step (Sweep.cfg sw) /\
    measured (Sweep.cfg sw) (S k) (Sweep.dataPoints sw) (Sweep.totalTeraflopsSeconds sw).

(** The invariant of a session whose inputs start within bounds. *)
Definition session_inv (app : App.t) : Prop :=
  config_in_bounds (App.config app) /\
  (forall res, UI.results (App.ui app) = Some res -> result_complete res) /\
  (forall sw, sw ∈ App.suspended app -> Sweep.cfg sw = App.config app /\ sweep_wf sw) /\
  (forall e, e ∈ App.console app -> e = RangeError).

(** The result of a sweep over no size at all. *)
Definition empty_result : AnalysisResult.t :=
  {| AnalysisResult.dataPoints := [];
     AnalysisResult.complexity := "Complejo"%string;
     AnalysisResult.rSquared := Num.zero;
     AnalysisResult.coefficients :=
       {| Fit.a := Num.zero; Fit.b := Num.zero; Fit.c := Num.zero;
          Fit.rSquared := Num.zero |};
     AnalysisResult.theoreticalCoeff := Num.zero;
     AnalysisResult.avgGFLOPS := NaN;
     AnalysisResult.maxTFLOPS := NegInf;
     AnalysisResult.totalTeraflopsSeconds := Num.zero |}.

(** An environment in which every allocation fails. *)
Definition exhausted_world : World.t :=
  {| World.randoms := fun _ => (1 # 2)%Q;
     World.clock := fun k => inject_Z (Z.of_nat k);
     World.faults := fun _ => true |}.

(** ** Vocabulary for the identity law and for the summary *)

(** The n by n identity matrix. *)
Definition identity (n : nat) : matrix :=
  map (fun i => map (fun j => if (i =? j)%nat then Finite 1 else Finite 0) (seq 0 n))
      (seq 0 n).

(** The GFLOPS and TFLOPS of a point as rationals, when they are finite. *)
Definition gflops_q (p : DataPoint.t) : Q :=
  match DataPoint.gflops p with Finite q => q | _ => 0%Q end.

Definition teraflops_q (p : DataPoint.t) : Q :=
  match DataPoint.teraflops p with Finite q => q | _ => 0%Q end.

(** Three points with finite rates. *)
Definition rated_point (n : Z) (gflops teraflops : Q) : DataPoint.t :=
  {| DataPoint.n := n; DataPoint.time := Finite 1; DataPoint.operations := 2 * n ^ 3;
     DataPoint.flops := Finite (gflops * 1000000000);
     DataPoint.gflops := Finite gflops; DataPoint.teraflops := Finite teraflops;
     DataPoint.teraflopsSeconds := Finite 0; DataPoint.theoretical := Finite 0;
     DataPoint.standardDeviation := Finite 0 |}.

Definition rated_points : list DataPoint.t :=
  [rated_point 100 2 (1 # 500); rated_point 200 3 (3 # 1000); rated_point 300 1 (1 # 1000)].

(** ** The cubic fit under rounding

    Every arithmetic operation of binary64 returns its exact result
    rounded to a representable number, and an infinity when the rounded
    result is beyond the largest finite number.  [Rounded.fitCubicCurve]
    is [fitCubicCurve] with each operation followed by such a rounding,
    for a rounding function [rnd] and a largest finite number [largest]
    that are parameters.  [Math.pow] is a parameter too, its accuracy
    being left to the implementation; [pow] is the one that rounds the
    exact power.  No division by zero occurs in the fit, so that the
    sign of zero plays no part. *)

Module Rounded.

Section Format.

Variable rnd : Q -> Q.
Variable largest : Q.

Definition round (x : number) : number :=
  match x with
  | Finite q =>
      if Num.Qltb largest (Qabs (rnd q))
      then (if Num.Qltb 0 (rnd q) then PosInf else NegInf)
      else Finite (rnd q)
  | _ => x
  end.

Definition add (x y : number) : number := round (Num.add x y).
Definition sub (x y : number) : number := round (Num.sub x y).
Definition mul (x y : number) : number := round (Num.mul x y).
Definition div (x y : number) : number := round (Num.div x y).
Definition pow (x : number) (k : nat) : number := round (Num.pow x k).

Variable Math_pow : number -> nat -> number.

Definition regression_step (sums : number * number * number * number)
    (point : DataPoint.t) : number * number * number * number :=
  let '(sumN3, sumN6, sumTN3, sumT) := sums in
  let n3 := Math_pow (Num.of_Z (DataPoint.n point)) 3 in
  (add sumN3 n3,
   add sumN6 (Math_pow n3 2),
   add sumTN3 (mul (DataPoint.time point) n3),
   add sumT (DataPoint.time point)).

Definition squares_step (a b c avgY : number) (ss : number * number)
    (point : DataPoint.t) : number * number :=
  let '(ssRes, ssTot) := ss in
  let predicted :=
    add (add (mul a (Math_pow (Num.of_Z (DataPoint.n point)) 3))
             (mul b (Math_pow (Num.of_Z (DataPoint.n point)) 2)))
        c in
  (add ssRes (Math_pow (sub (DataPoint.time point) predicted) 2),
   add ssTot (Math_pow (sub (DataPoint.time point) avgY) 2)).

Definition fitCubicCurve (dataPoints : list DataPoint.t) : Fit.t :=
  let n := length dataPoints in
  if (n <? 3)%nat then
    {| Fit.a := Num.zero; Fit.b := Num.zero; Fit.c := Num.zero;
       Fit.rSquared := Num.zero |}
  else
    let '(sumN3, sumN6, sumTN3, sumT) :=
      foldl regression_step (Num.zero, Num.zero, Num.zero, Num.zero) dataPoints in
    let n := Num.of_nat n in
    let denominator := sub (mul n sumN6) (mul sumN3 sumN3) in
    let a :=
      if Num.neqb denominator Num.zero
      then div (sub (mul n sumTN3) (mul sumT sumN3)) denominator
      else Num.zero in
    let avgTime := div sumT n in
    let avgN3 := div sumN3 n in
    let c := sub avgTime (mul a avgN3) in
    let b := Num.zero in
    let avgY :=
      div (foldl (fun sum p => add sum (DataPoint.time p)) Num.zero dataPoints) n in
    let '(ssRes, ssTot) :=
      foldl (squares_step a b c avgY) (Num.zero, Num.zero) dataPoints in
    let rSquared :=
      if Num.gtb ssTot Num.zero
      then Num.max Num.zero (sub (Finite 1) (div ssRes ssTot))
      else Num.zero in
    {| Fit.a := Num.abs a; Fit.b := Num.abs b; Fit.c := Num.abs c;
       Fit.rSquared := rSquared |}.

End Format.

End Rounded.

(** At least zero (+Infinity included) or NaN; at most one (-Infinity
    included) or NaN; between zero and one, or NaN. *)
Definition not_below_zero (x : number) : Prop :=
  match x with
  | Finite q => (0 <= q)%Q
  | PosInf | NaN => True
  | NegInf => False
  end.

Definition not_above_one (x : number) : Prop :=
  match x with
  | Finite q => (q <= 1)%Q
  | NegInf | NaN => True
  | PosInf => False
  end.

Definition in_unit_interval_or_nan (x : number) : Prop :=
  match x with
  | Finite q => (0 <= q <= 1)%Q
  | NaN => True
  | PosInf | NegInf => False
  end.

(** Rounding to the nearest multiple of 1/16, halves upwards: a rounding
    function that is not the identity. *)
Definition to_sixteenths (q : Q) : Q :=
  (inject_Z (Qfloor (q * 16 + (1 # 2))) / 16)%Q.

(** Three points whose times are not on a cubic. *)
Definition scattered_points : list DataPoint.t :=
  [point 1 (Finite (1 # 3)); point 2 (Finite 5); point 3 (Finite (7 # 10))].

(** * Properties *)

(** ** Properties of the multiplier *)

Section Multiplier.

Local Open Scope nat_scope.

Lemma for_upto_inv {S : Type} (P : nat -> S -> Prop) (body : nat -> S -> Result S) :
  forall cnt i s,
    P i s ->
    (forall k s, i <= k < i + cnt -> P k s -> exists s', body k s = Ok s' /\ P (k + 1) s') ->
    exists s', for_upto i cnt body s = Ok s' /\ P (i + cnt) s'.
Proof.
  induction cnt as [|cnt IH]; intros i s Hs Hbody; simpl.
  - exists s. rewrite Nat.add_0_r. auto.
  - destruct (Hbody i s) as (s1 & Hb & Hs1); [lia | assumption |].
    rewrite Hb. simpl.
    destruct (IH (Datatypes.S i) s1) as (s2 & Hf & Hs2).
    + replace (Datatypes.S i) with (i + 1) by lia. assumption.
    + intros k s' Hk Hp. apply Hbody; [lia | assumption].
    + exists s2. split; [assumption |].
      replace (i + Datatypes.S cnt) with (Datatypes.S i + cnt) by lia. assumption.
Qed.

Lemma array_set_end {A} (hole : A) (arr : list A) (v : A) :
  array_set hole arr (length arr) v = arr ++ [v].
Proof.
  unfold array_set. rewrite Nat.ltb_irrefl, Nat.sub_diag. reflexivity.
Qed.

Lemma array_set_inside {A} (hole : A) (arr : list A) (i : nat) (v : A) :
  i < length arr -> array_set hole arr i v = <[i:=v]> arr.
Proof.
  intros H. unfold array_set. apply Nat.ltb_lt in H. rewrite H. reflexivity.
Qed.

(** The initialisation loops build the [n] by [n] zero matrix and never
    write beyond the end of an array. *)
Lemma init_result_spec (n : nat) :
  for_upto 0 n (fun i result =>
      let result := array_set [] result i [] in
      for_upto 0 n (fun j result => store2 result i j Num.zero) result) []
  = Ok (replicate n (replicate n Num.zero)).
Proof.
  destruct (for_upto_inv
              (fun i (result : matrix) => result = replicate i (replicate n Num.zero))
              (fun i result =>
                 let result := array_set [] result i [] in
                 for_upto 0 n (fun j result => store2 result i j Num.zero) result)
              n 0 []) as (r & Hr & ->); [reflexivity | | exact Hr].
  intros i result _ ->. cbv zeta.
  replace (array_set [] (replicate i (replicate n Num.zero)) i [])
    with (replicate i (replicate n Num.zero) ++ [replicate 0 Num.zero]).
  2:{ rewrite <- (length_replicate i (replicate n Num.zero)) at 3.
      rewrite array_set_end. reflexivity. }
  destruct (for_upto_inv
              (fun j (result : matrix) =>
                 result = replicate i (replicate n Num.zero) ++ [replicate j Num.zero])
              (fun j result => store2 result i j Num.zero)
              n 0 (replicate i (replicate n Num.zero) ++ [replicate 0 Num.zero]))
    as (r & Hr & Hr'); [reflexivity | |].
  - intros j res _ ->. unfold store2.
    rewrite list_lookup_middle by (rewrite length_replicate; reflexivity).
    eexists. split; [reflexivity |].
    rewrite <- (length_replicate j Num.zero) at 2. rewrite array_set_end.
    rewrite <- (Nat.add_0_r i) at 1.
    rewrite <- (length_replicate i (replicate n Num.zero)) at 1.
    rewrite insert_app_r. simpl.
    rewrite Nat.add_1_r, replicate_S_end. reflexivity.
  - exists r. split; [exact Hr |].
    rewrite Hr', Nat.add_1_r, replicate_S_end. reflexivity.
Qed.

Lemma cells_ext n m f g :
  cells n m f -> (forall i j, i < n -> j < n -> f i j = g i j) -> cells n m g.
Proof.
  intros [Hlen Hrows] Hfg. split; [assumption |].
  intros i Hi. destruct (Hrows i Hi) as (row & Hrow & Hl & Hcols).
  exists row. repeat split; try assumption.
  intros j Hj. rewrite <- Hfg by assumption. auto.
Qed.

Lemma cells_zero n : cells n (replicate n (replicate n Num.zero)) (fun _ _ => Num.zero).
Proof.
  split; [apply length_replicate |].
  intros i Hi. exists (replicate n Num.zero).
  split; [apply lookup_replicate_2; assumption |].
  split; [apply length_replicate |].
  intros j Hj. apply lookup_replicate_2; assumption.
Qed.

Lemma cells_entry n m f i j :
  cells n m f -> i < n -> j < n -> entry m i j = Some (f i j).
Proof.
  intros [_ Hrows] Hi Hj. destruct (Hrows i Hi) as (row & Hrow & _ & Hcols).
  unfold entry. rewrite Hrow. simpl. auto.
Qed.

Lemma load2_entry (m : matrix) i k :
  i < length m -> load2 m i k = Ok (entry_num m i k).
Proof.
  intros Hi. unfold load2, entry_num, entry.
  destruct (lookup_lt_is_Some_2 m i Hi) as [row Hrow]. rewrite Hrow. reflexivity.
Qed.

Lemma cells_store n m f i j v :
  cells n m f -> i < n -> j < n ->
  exists m', store2 m i j v = Ok m' /\
             cells n m' (fun i' j' => if (i' =? i) && (j' =? j) then v else f i' j').
Proof.
  intros [Hlen Hrows] Hi Hj.
  destruct (Hrows i Hi) as (row & Hrow & Hl & Hcols).
  unfold store2. rewrite Hrow. eexists. split; [reflexivity |].
  rewrite array_set_inside by lia.
  split; [rewrite length_insert; assumption |].
  intros i' Hi'. destruct (Nat.eqb_spec i' i) as [-> | Hne].
  - exists (<[j:=v]> row).
    split; [apply list_lookup_insert_eq; lia |].
    split; [rewrite length_insert; assumption |].
    intros j' Hj'. simpl. destruct (Nat.eqb_spec j' j) as [-> | Hnej].
    + apply list_lookup_insert_eq. lia.
    + rewrite list_lookup_insert_ne by auto. auto.
  - destruct (Hrows i' Hi') as (row' & Hrow' & Hl' & Hcols').
    exists row'. rewrite list_lookup_insert_ne by auto.
    repeat split; try assumption.
Qed.

Section Product.

Variables (a b : matrix) (n : nat).
Hypothesis rows_a : n <= length a.
Hypothesis rows_b : n <= length b.

(** One pass of the innermost loop adds one term and counts two
    operations. *)
Lemma inner_step i j k (res : matrix) (fl : Z) :
  i < n -> j < n -> k < n ->
  cells n res (table_at a b n i j k) ->
  exists res',
    (rij ← load2 res i j;
     aik ← load2 a i k;
     bkj ← load2 b k j;
     result ← store2 res i j (rij + aik * bkj)%num;
     Ok (result, (fl + 2)%Z)) = Ok (res', (fl + 2)%Z)
    /\ cells n res' (table_at a b n i j (k + 1)).
Proof.
  intros Hi Hj Hk Hres.
  rewrite (load2_entry res) by (destruct Hres as [-> _]; assumption).
  rewrite (load2_entry a), (load2_entry b) by lia. simpl.
  destruct (cells_store n res _ i j
              (entry_num res i j + entry_num a i k * entry_num b k j)%num Hres Hi Hj)
    as (res' & Hst & Hres').
  rewrite Hst. simpl. exists res'. split; [reflexivity |].
  eapply cells_ext; [exact Hres' |].
  intros i' j' Hi' Hj'. cbv beta. unfold table_at.
  destruct (Nat.eqb_spec i' i) as [-> | Hne]; simpl.
  - destruct (Nat.eqb_spec j' j) as [-> | Hnej]; [| reflexivity].
    rewrite !Nat.ltb_irrefl. rewrite Nat.add_1_r. unfold dot. simpl.
    unfold entry_num at 1. rewrite (cells_entry n res _ i j Hres Hi Hj). simpl.
    unfold table_at. rewrite !Nat.ltb_irrefl, !Nat.eqb_refl. reflexivity.
  - reflexivity.
Qed.

(** The three loops, from [(result, flops)] holding the zero table and
    the count 0. *)
Lemma product_loops :
  exists res,
    for_upto 0 n (fun i st =>
      for_upto 0 n (fun j st =>
        for_upto 0 n (fun k '(result, flops) =>
          rij ← load2 result i j;
          aik ← load2 a i k;
          bkj ← load2 b k j;
          result ← store2 result i j (rij + aik * bkj)%num;
          Ok (result, (flops + 2)%Z)) st) st)
      (replicate n (replicate n Num.zero), 0%Z)
    = Ok (res, (2 * Z.of_nat n ^ 3)%Z)
    /\ cells n res (dot a b n).
Proof.
  pose (P := fun i j k (st : matrix * Z) =>
               cells n st.1 (table_at a b n i j k) /\
               st.2 = (2 * Z.of_nat (i * n * n + j * n + k))%Z).
  match goal with
  | |- exists res, for_upto 0 n ?body ?s = _ /\ _ =>
      destruct (for_upto_inv (fun i => P i 0 0) body n 0 s) as ([res fl] & Hrun & Hres & Hfl)
  end.
  - split; [| reflexivity]. simpl.
    eapply cells_ext; [apply cells_zero |].
    intros i j _ _. unfold table_at. simpl.
    destruct (j =? 0); destruct (i =? 0); reflexivity.
  - intros i st Hi Hst.
    match goal with
    | |- exists s', for_upto 0 n ?body ?s = _ /\ _ =>
        destruct (for_upto_inv (fun j => P i j 0) body n 0 s) as (st2 & Hrun & Hres & Hfl)
    end.
    + exact Hst.
    + intros j st1 Hj Hst1.
      match goal with
      | |- exists s', for_upto 0 n ?body ?s = _ /\ _ =>
          destruct (for_upto_inv (fun k => P i j k) body n 0 s) as (st3 & Hrun & Hres & Hfl)
      end.
      * exact Hst1.
      * intros k [res fl] Hk [Hres Hfl]. simpl in Hres, Hfl.
        destruct (inner_step i j k res fl) as (res' & Hstep & Hres'); try lia; [assumption |].
        rewrite Hstep. eexists. split; [reflexivity |].
        split; [exact Hres' |]. simpl. lia.
      * exists st3. split; [exact Hrun |]. split.
        -- eapply cells_ext; [exact Hres |].
           intros i' j' Hi' Hj'. unfold table_at. simpl.
           destruct (i' <? i); [reflexivity |]. destruct (i' =? i); [| reflexivity].
           destruct (Nat.ltb_spec j' j) as [Hlt | Hge].
           ++ replace (j' <? j + 1) with true by (symmetry; apply Nat.ltb_lt; lia).
              reflexivity.
           ++ destruct (Nat.eqb_spec j' j) as [-> | Hne].
              ** replace (j <? j + 1) with true by (symmetry; apply Nat.ltb_lt; lia).
                 reflexivity.
              ** replace (j' <? j + 1) with false by (symmetry; apply Nat.ltb_ge; lia).
                 destruct (j' =? j + 1); reflexivity.
        -- rewrite Hfl. f_equal. lia.
    + exists st2. split; [exact Hrun |]. split.
      * eapply cells_ext; [exact Hres |].
        intros i' j' Hi' Hj'. unfold table_at. simpl.
        destruct (Nat.ltb_spec i' i) as [Hlt | Hge].
        -- replace (i' <? i + 1) with true by (symmetry; apply Nat.ltb_lt; lia).
           reflexivity.
        -- destruct (Nat.eqb_spec i' i) as [-> | Hne].
           ++ replace (i <? i + 1) with true by (symmetry; apply Nat.ltb_lt; lia).
              replace (j' <? n) with true by (symmetry; apply Nat.ltb_lt; lia).
              reflexivity.
           ++ replace (i' <? i + 1) with false by (symmetry; apply Nat.ltb_ge; lia).
              destruct (i' =? i + 1); [| reflexivity].
              destruct (j' =? 0); reflexivity.
      * rewrite Hfl. f_equal. lia.
  - exists res. simpl in Hres, Hfl. split.
    + rewrite Hrun, Hfl. do 2 f_equal. lia.
    + eapply cells_ext; [exact Hres |].
      intros i j Hi Hj. unfold table_at.
      replace (i <? n) with true by (symmetry; apply Nat.ltb_lt; lia).
      reflexivity.
Qed.

(** The multiplier on matrices with at least [n] rows: it does not
    throw, counts [2 n^3] operations and returns the table of inner
    products. *)
Lemma multiply_spec :
  exists res,
    multiplyMatricesWithFLOPS a b n
    = Ok {| Product.result := res; Product.flops := (2 * Z.of_nat n ^ 3)%Z |}
    /\ cells n res (dot a b n).
Proof.
  unfold multiplyMatricesWithFLOPS. cbv zeta.
  rewrite init_result_spec. simpl.
  destruct product_loops as (res & Hrun & Hres).
  rewrite Hrun. simpl. exists res. auto.
Qed.

End Product.

Lemma is_square_rows n (m : matrix) : is_square n m -> n <= length m.
Proof. intros [-> _]. reflexivity. Qed.

Lemma is_square_entry n (m : matrix) i j :
  is_square n m -> i < n -> j < n -> entry m i j = Some (entry_num m i j).
Proof.
  intros [Hlen Hrows] Hi Hj. unfold entry_num, entry.
  destruct (lookup_lt_is_Some_2 m i) as [row Hrow]; [lia |].
  rewrite Hrow. simpl.
  rewrite Forall_forall in Hrows.
  assert (Hl : length row = n).
  { apply Hrows. eapply list_elem_of_lookup_2. exact Hrow. }
  destruct (lookup_lt_is_Some_2 row j) as [x Hx]; [lia |].
  rewrite Hx. reflexivity.
Qed.

(** C1. For two n by n matrices, whatever their entries, the multiplier
    returns without throwing and its operation count is exactly 2 n^3;
    for n = 0 the count is 0 and the result matrix is empty. *)
Theorem multiply_flops_exact (n : nat) (a b : matrix) :
  is_square n a -> is_square n b ->
  (exists res,
     multiplyMatricesWithFLOPS a b n
     = Ok {| Product.result := res; Product.flops := (2 * Z.of_nat n ^ 3)%Z |})
  /\ (n = 0 ->
      multiplyMatricesWithFLOPS a b n
      = Ok {| Product.result := []; Product.flops := 0%Z |}).
Proof.
  intros Ha Hb. split.
  - destruct (multiply_spec a b n) as (res & Hrun & _);
      [apply is_square_rows; assumption .. |].
    exists res. exact Hrun.
  - intros ->. reflexivity.
Qed.

(** C2. For two n by n matrices A and B the result matrix is the
    standard product: its entry (i, j), for i, j < n, is the sum over
    k = 0 .. n-1 of A[i][k] * B[k][j]. *)
Theorem multiply_is_matrix_product (n : nat) (a b : matrix) :
  is_square n a -> is_square n b ->
  exists p,
    multiplyMatricesWithFLOPS a b n = Ok p /\
    forall i j, i < n -> j < n ->
      exists aik bkj : nat -> number,
        (forall k, k < n -> entry a i k = Some (aik k) /\ entry b k j = Some (bkj k)) /\
        entry (Product.result p) i j = Some (sigma (fun k => aik k * bkj k)%num n).
Proof.
  intros Ha Hb.
  destruct (multiply_spec a b n) as (res & Hrun & Hres);
    [apply is_square_rows; assumption .. |].
  eexists. split; [exact Hrun |].
  intros i j Hi Hj.
  exists (entry_num a i), (fun k => entry_num b k j). split.
  - intros k Hk. split; apply (is_square_entry n); assumption.
  - simpl. apply (cells_entry n res _ i j Hres Hi Hj).
Qed.

End Multiplier.

(** ** Concrete runs of the multiplier *)

Lemma m22_square a b c d : is_square 2 (m22 a b c d).
Proof. split; [reflexivity | repeat constructor]. Qed.

Example multiply_2x2 :
  multiplyMatricesWithFLOPS (m22 1 2 3 4) (m22 5 6 7 8) 2
  = Ok {| Product.result := [[Finite (19#1); Finite (22#1)]; [Finite (43#1); Finite (50#1)]];
          Product.flops := 16 |}.
Proof. vm_compute. reflexivity. Qed.

Lemma multiply_flops_exact_witness :
  is_square 2 (m22 1 2 3 4) /\ is_square 2 (m22 5 6 7 8) /\
  ((exists res,
      multiplyMatricesWithFLOPS (m22 1 2 3 4) (m22 5 6 7 8) 2
      = Ok {| Product.result := res; Product.flops := (2 * Z.of_nat 2 ^ 3)%Z |})
   /\ (2%nat = 0%nat ->
       multiplyMatricesWithFLOPS (m22 1 2 3 4) (m22 5 6 7 8) 2
       = Ok {| Product.result := []; Product.flops := 0%Z |})).
Proof.
  split; [apply m22_square |]. split; [apply m22_square |].
  apply (multiply_flops_exact 2 (m22 1 2 3 4) (m22 5 6 7 8)); apply m22_square.
Defined.

Lemma multiply_is_matrix_product_witness :
  is_square 2 (m22 1 2 3 4) /\ is_square 2 (m22 5 6 7 8) /\
  exists p,
    multiplyMatricesWithFLOPS (m22 1 2 3 4) (m22 5 6 7 8) 2 = Ok p /\
    forall i j, (i < 2)%nat -> (j < 2)%nat ->
      exists aik bkj : nat -> number,
        (forall k, (k < 2)%nat ->
           entry (m22 1 2 3 4) i k = Some (aik k) /\
           entry (m22 5 6 7 8) k j = Some (bkj k)) /\
        entry (Product.result p) i j = Some (sigma (fun k => aik k * bkj k)%num 2).
Proof.
  split; [apply m22_square |]. split; [apply m22_square |].
  apply (multiply_is_matrix_product 2 (m22 1 2 3 4) (m22 5 6 7 8)); apply m22_square.
Defined.

(** ** Sums of rationals *)

Lemma Qsq_nonneg (a : Q) : (0 <= a * a)%Q.
Proof. nra. Qed.


Section Sums.

Local Open Scope Q_scope.

Context {A : Type}.
Implicit Types (f g : A -> Q) (l : list A).

Lemma qlen_cons (x : A) l : qlen (x :: l) == qlen l + 1.
Proof.
  unfold qlen. simpl length. rewrite Nat2Z.inj_succ, <- Z.add_1_r, inject_Z_plus.
  reflexivity.
Qed.

Lemma qlen_nonneg l : 0 <= qlen l.
Proof.
  unfold qlen. change 0 with (inject_Z 0). rewrite <- Zle_Qle. lia.
Qed.

Lemma qlen_pos l : l <> [] -> 0 < qlen l.
Proof.
  intros Hl. unfold qlen. change 0 with (inject_Z 0). rewrite <- Zlt_Qlt.
  destruct l; [congruence | simpl length; lia].
Qed.










End Sums.

(** ** Properties of the cubic fit *)

Section Fit.

Local Open Scope Q_scope.



Lemma Qeq_bool_false (a b : Q) : ~ a == b -> Qeq_bool a b = false.
Proof.
  intros H. destruct (Qeq_bool a b) eqn:E; [| reflexivity].
  exfalso. apply H. apply Qeq_bool_iff. exact E.
Qed.

Lemma Qltb_true (a b : Q) : a < b -> Num.Qltb a b = true.
Proof.
  intros H. unfold Num.Qltb. destruct (Qle_bool b a) eqn:E; [| reflexivity].
  apply Qle_bool_iff in E. lra.
Qed.

Lemma Qltb_false (a b : Q) : b <= a -> Num.Qltb a b = false.
Proof.
  intros H. unfold Num.Qltb. apply Qle_bool_iff in H. rewrite H. reflexivity.
Qed.







(** With fewer than three points the fit is the zero record. *)
Lemma fit_few_points (pts : list DataPoint.t) :
  (length pts < 3)%nat ->
  fitCubicCurve pts
  = {| Fit.a := Num.zero; Fit.b := Num.zero; Fit.c := Num.zero;
       Fit.rSquared := Num.zero |}.
Proof.
  intros H. unfold fitCubicCurve.
  replace (length pts <? 3)%nat with true by (symmetry; apply Nat.ltb_lt; exact H).
  reflexivity.
Qed.


(** C6. For every input with fewer than three points the fit returns
    a = 0, b = 0, c = 0 and rSquared = 0. *)
Theorem fit_requires_three_points (pts : list DataPoint.t) :
  (length pts < 3)%nat ->
  Fit.a (fitCubicCurve pts) = Finite 0 /\
  Fit.b (fitCubicCurve pts) = Finite 0 /\
  Fit.c (fitCubicCurve pts) = Finite 0 /\
  Fit.rSquared (fitCubicCurve pts) = Finite 0.
Proof.
  intros H. rewrite (fit_few_points pts H). repeat split.
Qed.

Lemma fit_requires_three_points_witness :
  (length [point 100 (Finite 7); point 200 (Finite 9)] < 3)%nat /\
  (Fit.a (fitCubicCurve [point 100 (Finite 7); point 200 (Finite 9)]) = Finite 0 /\
   Fit.b (fitCubicCurve [point 100 (Finite 7); point 200 (Finite 9)]) = Finite 0 /\
   Fit.c (fitCubicCurve [point 100 (Finite 7); point 200 (Finite 9)]) = Finite 0 /\
   Fit.rSquared (fitCubicCurve [point 100 (Finite 7); point 200 (Finite 9)]) = Finite 0).
Proof.
  split; [simpl; lia |].
  apply (fit_requires_three_points [point 100 (Finite 7); point 200 (Finite 9)]).
  simpl. lia.
Defined.

Lemma cubic_points_finite : finite_times cubic_points.
Proof. repeat constructor. Qed.

End Fit.

(** ** Properties of the matrix generator and of the trial runner *)

Section Trials.

Local Open Scope nat_scope.

Lemma for_upto_eff_inv {S : Type} (P : nat -> S -> World.t -> Prop)
    (body : nat -> S -> Eff S) :
  forall cnt i s w,
    P i s w ->
    (forall k s w, i <= k < i + cnt -> P k s w ->
       exists s' w', body k s w = (Ok s', w') /\ P (k + 1) s' w') ->
    exists s' w', for_upto_eff i cnt body s w = (Ok s', w') /\ P (i + cnt) s' w'.
Proof.
  induction cnt as [|cnt IH]; intros i s w Hs Hbody; simpl.
  - exists s, w. rewrite Nat.add_0_r. auto.
  - destruct (Hbody i s w) as (s1 & w1 & Hb & Hs1); [lia | assumption |].
    unfold mbind, Eff_bind. rewrite Hb.
    destruct (IH (Datatypes.S i) s1 w1) as (s2 & w2 & Hf & Hs2).
    + replace (Datatypes.S i) with (i + 1) by lia. assumption.
    + intros k s' w' Hk Hp. apply Hbody; [lia | assumption].
    + exists s2, w2. split; [assumption |].
      replace (i + Datatypes.S cnt) with (Datatypes.S i + cnt) by lia. assumption.
Qed.

Lemma store2_last (done : matrix) (row : list number) (v : number) :
  store2 (done ++ [row]) (length done) (length row) v = Ok (done ++ [row ++ [v]]).
Proof.
  unfold store2. rewrite list_lookup_middle by reflexivity.
  rewrite array_set_end.
  rewrite <- (Nat.add_0_r (length done)) at 1. rewrite insert_app_r. reflexivity.
Qed.

(** A successful allocation yields an [n] by [n] matrix; the clock is
    not read and one allocation is used up. *)
Lemma generateRandomMatrix_spec (n : nat) (w : World.t) :
  World.faults w 0 = false ->
  exists m w',
    generateRandomMatrix n w = (Ok m, w') /\ is_square n m /\
    World.clock w' = World.clock w /\
    World.faults w' = stream_tl (World.faults w).
Proof.
  intros Hok. unfold generateRandomMatrix, mbind, Eff_bind, allocate. rewrite Hok.
  match goal with
  | |- exists m w', for_upto_eff 0 n ?body ?s ?w1 = _ /\ _ =>
      destruct (for_upto_eff_inv
                  (fun i (m : matrix) w' =>
                     length m = i /\ Forall (fun row => length row = n) m /\
                     World.clock w' = World.clock w /\
                     World.faults w' = stream_tl (World.faults w))
                  body n 0 s w1)
        as (m & w' & Hrun & Hlen & Hrows & Hc & Hf)
  end.
  - repeat split. constructor.
  - intros i m wi _ (Hlen & Hrows & Hc & Hf). cbv zeta.
    subst i. rewrite array_set_end.
    match goal with
    | |- exists s' w', for_upto_eff 0 n ?body ?s ?w1 = _ /\ _ =>
        destruct (for_upto_eff_inv
                    (fun j (m' : matrix) w' =>
                       (exists row, m' = m ++ [row] /\ length row = j) /\
                       World.clock w' = World.clock w /\
                       World.faults w' = stream_tl (World.faults w))
                    body n 0 s w1)
          as (m' & w' & Hrun & (row & -> & Hrow) & Hc' & Hf')
    end.
    + split; [exists []; split; reflexivity | split; assumption].
    + intros j m' wj _ ((row & -> & Hrow) & Hc' & Hf').
      unfold mbind, Eff_bind, Math_random, lift. simpl.
      subst j. rewrite store2_last.
      eexists _, _. split; [reflexivity |].
      split; [| split; assumption].
      eexists. split; [reflexivity |]. rewrite length_app. simpl. lia.
    + exists (m ++ [row]), w'. split; [exact Hrun |].
      split; [rewrite length_app; simpl; lia |].
      split; [| split; assumption].
      apply Forall_app. split; [assumption |]. constructor; [exact Hrow | constructor].
  - exists m, w'. split; [exact Hrun |]. split; [| split; assumption].
    split; [exact Hlen | exact Hrows].
Qed.

(** One trial without allocation failure: both matrices are generated,
    the product is computed, and the figures are those of [nth_trial]. *)
Lemma measureFLOPS_trial_spec (n : nat) (w : World.t) :
  World.faults w 0 = false -> World.faults w 1 = false ->
  exists w',
    measureFLOPS_trial n w = (Ok (nth_trial n w 0), w') /\ later 2 w w'.
Proof.
  intros Hf0 Hf1. unfold measureFLOPS_trial, mbind, Eff_bind.
  destruct (generateRandomMatrix_spec n w Hf0) as (mA & w1 & HA & HsqA & Hc1 & Hfl1).
  rewrite HA.
  destruct (generateRandomMatrix_spec n w1) as (mB & w2 & HB & HsqB & Hc2 & Hfl2).
  { rewrite Hfl1. exact Hf1. }
  rewrite HB. unfold performance_now at 1. unfold lift.
  destruct (multiply_spec mA mB n) as (res & Hmul & _);
    [apply is_square_rows; assumption .. |].
  rewrite Hmul. unfold performance_now, mret, Eff_ret. simpl.
  eexists. split.
  - rewrite Hc2, Hc1. unfold nth_trial, stream_tl. reflexivity.
  - split; intros k; simpl.
    + reflexivity.
    + rewrite Hfl2, Hfl1. reflexivity.
Qed.

Lemma later_0 (w : World.t) : later 0 w w.
Proof. split; intros k; reflexivity. Qed.

Lemma later_trans (a b : nat) (w1 w2 w3 : World.t) :
  later a w1 w2 -> later b w2 w3 -> later (a + b) w1 w3.
Proof.
  intros [Hc1 Hf1] [Hc2 Hf2]. split; intros k.
  - rewrite Hc2, Hc1. f_equal. lia.
  - rewrite Hf2, Hf1. f_equal. lia.
Qed.

Lemma later_fault_free (k : nat) (w w' : World.t) :
  fault_free w -> later k w w' -> fault_free w'.
Proof. intros Hw [_ Hf] i. rewrite Hf. apply Hw. Qed.

Lemma nth_trial_later (n i : nat) (w w' : World.t) :
  later (2 * i) w w' -> nth_trial n w' 0 = nth_trial n w i.
Proof.
  intros [Hc _]. unfold nth_trial. rewrite !Hc. repeat f_equal; lia.
Qed.

Section Measure.

Variable sqrt_fin : Q -> Q.

(** A measurement of [T] trials without allocation failure: the lists
    hold the figures of the trials in order, and [2 T] clock readings and
    allocations are used up. *)
Lemma measureFLOPS_spec (n T : nat) (w : World.t) :
  (forall k, k < 2 * T -> World.faults w k = false) ->
  exists w',
    measureFLOPS sqrt_fin n T w
    = (Ok (aggregate sqrt_fin
             (map (fun i => Trial.elapsedMs (nth_trial n w i)) (seq 0 T))
             (map (fun i => Trial.currentFLOPS (nth_trial n w i)) (seq 0 T))
             (map (fun i => Trial.teraflopsSeconds (nth_trial n w i)) (seq 0 T))
             (if (T =? 0)%nat then 0%Z else (2 * Z.of_nat n ^ 3)%Z)), w')
    /\ later (2 * T) w w'.
Proof.
  intros Hok. unfold measureFLOPS, mbind, Eff_bind. cbv zeta.
  match goal with
  | |- exists w', match for_upto_eff 0 T ?body ?s w with _ => _ end = _ /\ _ =>
      destruct (for_upto_eff_inv
                  (fun i (st : list number * list number * list number * Z) w' =>
                     st = (map (fun i => Trial.elapsedMs (nth_trial n w i)) (seq 0 i),
                           map (fun i => Trial.currentFLOPS (nth_trial n w i)) (seq 0 i),
                           map (fun i => Trial.teraflopsSeconds (nth_trial n w i)) (seq 0 i),
                           (if (i =? 0)%nat then 0%Z else (2 * Z.of_nat n ^ 3)%Z))
                     /\ later (2 * i) w w')
                  body T 0 s w)
        as (st & w' & Hrun & -> & Hlater)
  end.
  - split; [reflexivity | apply later_0].
  - intros i st wi Hi [-> Hlater].
    destruct (measureFLOPS_trial_spec n wi) as (w2 & Htrial & Hl2).
    { destruct Hlater as [_ Hf]. rewrite Hf. apply Hok. lia. }
    { destruct Hlater as [_ Hf]. rewrite Hf. apply Hok. lia. }
    rewrite Htrial. unfold mret, Eff_ret.
    eexists _, _. split; [reflexivity |]. split.
    + rewrite (nth_trial_later n i w wi Hlater).
      replace (i + 1) with (Datatypes.S i) by lia.
      rewrite seq_S, !map_app. simpl. reflexivity.
    + replace (2 * (i + 1)) with (2 * i + 2) by lia.
      eapply later_trans; eassumption.
  - rewrite Hrun. unfold mret, Eff_ret. exists w'. split; [reflexivity | exact Hlater].
Qed.

End Measure.

Section TrialFigures.

Local Open Scope Q_scope.

(** The figures of a trial that counts [f >= 0] operations between the
    clock readings [c0] and [c1]. *)
Variables (f : Z) (c0 c1 : Q).
Hypothesis f_nonneg : (0 <= f)%Z.

Let F : Q := inject_Z f.
Let s : Q := (c1 + - c0) / inject_Z 1000.

Lemma seconds_zero_iff : s == 0 <-> c1 - c0 == 0.
Proof.
  unfold s. change (inject_Z 1000) with 1000.
  split; intros H.
  - assert (E : c1 + - c0 == 1000 * ((c1 + - c0) / 1000)) by (field; lra).
    rewrite H in E. lra.
  - assert (E : c1 + - c0 == 0) by lra.
    rewrite E. field.
Qed.

Lemma seconds_pos : 0 < c1 - c0 -> 0 < s.
Proof.
  unfold s. change (inject_Z 1000) with 1000. intros H.
  apply Qlt_shift_div_l; lra.
Qed.

(** With a nonzero elapsed time every figure of the trial is finite. *)
Lemma trial_metrics_nonzero :
  ~ c1 - c0 == 0 ->
  trial_metrics f (Finite c0) (Finite c1)
  = {| Trial.elapsedMs := Finite (c1 + - c0);
       Trial.currentFLOPS := Finite (F / s);
       Trial.teraflopsSeconds := Finite (s * (F / s / inject_Z (10 ^ 12)));
       Trial.flops := f |}.
Proof.
  intros He. assert (Hs : ~ s == 0) by (rewrite seconds_zero_iff; exact He).
  unfold trial_metrics, e12, Num.of_Z. simpl Num.sub.
  change (Finite (c1 + - c0) / Finite (inject_Z 1000))%num with (Finite s).
  simpl Num.div. fold F. rewrite (Qeq_bool_false s 0 Hs). reflexivity.
Qed.

(** With a zero elapsed time the rate is not finite and the work figure
    is NaN. *)
Lemma trial_metrics_zero :
  c1 - c0 == 0 ->
  Num.is_finite (Trial.currentFLOPS (trial_metrics f (Finite c0) (Finite c1))) = false /\
  Trial.teraflopsSeconds (trial_metrics f (Finite c0) (Finite c1)) = NaN.
Proof.
  intros He. assert (Hs : s == 0) by (rewrite seconds_zero_iff; exact He).
  assert (Hb : Qeq_bool s 0 = true) by (apply Qeq_bool_iff; exact Hs).
  unfold trial_metrics, e12, Num.of_Z. simpl Num.sub.
  change (Finite (c1 + - c0) / Finite (inject_Z 1000))%num with (Finite s).
  simpl Trial.currentFLOPS. simpl Trial.teraflopsSeconds.
  simpl Num.div. fold F. rewrite Hb.
  destruct (Qeq_bool F 0) eqn:EF; [split; reflexivity |].
  assert (HF : 0 < F).
  { assert (0 <= F) by (unfold F; change 0 with (inject_Z 0); rewrite <- Zle_Qle; exact f_nonneg).
    assert (~ F == 0) by (intros E; apply Qeq_bool_iff in E; congruence).
    lra. }
  rewrite (Qltb_true 0 F HF). simpl. unfold Num.signed_inf. rewrite Hb.
  split; reflexivity.
Qed.

(** The work figure of a trial with a nonzero elapsed time is its
    operation count over 10^12, whatever the elapsed time. *)
Lemma trial_work_identity :
  ~ c1 - c0 == 0 ->
  (Trial.teraflopsSeconds (trial_metrics f (Finite c0) (Finite c1))
   =~ Finite (F / inject_Z (10 ^ 12)))%num.
Proof.
  intros He. rewrite (trial_metrics_nonzero He). simpl.
  assert (Hs : ~ s == 0) by (rewrite seconds_zero_iff; exact He).
  field. split; [discriminate | exact Hs].
Qed.

(** The rate of a trial with a positive elapsed time is finite and at
    least zero. *)
Lemma trial_rate_nonneg :
  0 < c1 - c0 ->
  Num.nonneg (Trial.currentFLOPS (trial_metrics f (Finite c0) (Finite c1))).
Proof.
  intros He. rewrite trial_metrics_nonzero by lra. simpl.
  pose proof (seconds_pos He) as Hs.
  assert (0 <= F) by (unfold F; change 0 with (inject_Z 0); rewrite <- Zle_Qle; exact f_nonneg).
  apply Qle_shift_div_l; lra.
Qed.

End TrialFigures.

Section Means.

Local Open Scope Q_scope.

Lemma sum_of_equal (v : Q) (xs : list number) :
  (forall x, x ∈ xs -> (x =~ Finite v)%num) ->
  forall a : Q, exists s : Q,
    foldl Num.add (Finite a) xs = Finite s /\ s == a + qlen xs * v.
Proof.
  induction xs as [|x xs IH]; intros H a.
  - exists a. split; [reflexivity |]. unfold qlen. simpl. ring.
  - assert (Hx : (x =~ Finite v)%num) by (apply H; left).
    destruct x as [q | | |]; simpl in Hx; try contradiction.
    destruct (IH (fun y Hy => H y (list_elem_of_further _ _ _ Hy)) (a + q)) as (s & Hs & E).
    exists s. split; [exact Hs |]. rewrite E, qlen_cons, Hx. ring.
Qed.

Lemma sum_of_nonneg (xs : list number) :
  (forall x, x ∈ xs -> Num.nonneg x) ->
  forall a : Q, 0 <= a -> exists s : Q,
    foldl Num.add (Finite a) xs = Finite s /\ 0 <= s.
Proof.
  induction xs as [|x xs IH]; intros H a Ha.
  - exists a. split; [reflexivity | exact Ha].
  - assert (Hx : Num.nonneg x) by (apply H; left).
    destruct x as [q | | |]; simpl in Hx; try contradiction.
    apply (IH (fun y Hy => H y (list_elem_of_further _ _ _ Hy)) (a + q)). lra.
Qed.

(** The mean of a non-empty list of values all equal to [v] is [v]. *)
Lemma mean_of_equal (v : Q) (xs : list number) :
  xs <> [] ->
  (forall x, x ∈ xs -> (x =~ Finite v)%num) ->
  (sum_numbers xs / Num.of_nat (length xs) =~ Finite v)%num.
Proof.
  intros Hne H. destruct (sum_of_equal v xs H 0) as (s & Hs & E).
  unfold sum_numbers, Num.zero. rewrite Hs.
  change (Num.of_nat (length xs)) with (Finite (qlen xs)).
  pose proof (qlen_pos xs Hne) as HN.
  simpl. rewrite Qeq_bool_false by lra. simpl. rewrite E. field. lra.
Qed.

(** The mean of a non-empty list of finite non-negative values is finite
    and non-negative. *)
Lemma mean_of_nonneg (xs : list number) :
  xs <> [] ->
  (forall x, x ∈ xs -> Num.nonneg x) ->
  Num.nonneg (sum_numbers xs / Num.of_nat (length xs))%num.
Proof.
  intros Hne H. destruct (sum_of_nonneg xs H 0) as (s & Hs & E); [lra |].
  unfold sum_numbers, Num.zero. rewrite Hs.
  change (Num.of_nat (length xs)) with (Finite (qlen xs)).
  pose proof (qlen_pos xs Hne) as HN.
  simpl. rewrite Qeq_bool_false by lra. simpl.
  apply Qle_shift_div_l; lra.
Qed.

Lemma nonneg_div_pos (x : number) (d : Q) :
  0 < d -> Num.nonneg x -> Num.nonneg (x / Finite d)%num.
Proof.
  intros Hd Hx. destruct x as [q | | |]; simpl in Hx; try contradiction.
  simpl. rewrite Qeq_bool_false by lra. simpl.
  apply Qle_shift_div_l; lra.
Qed.

Lemma nonneg_of_eq (x : number) (v : Q) :
  (x =~ Finite v)%num -> 0 <= v -> Num.nonneg x.
Proof.
  intros Hx Hv. destruct x as [q | | |]; simpl in Hx; try contradiction.
  simpl. rewrite Hx. exact Hv.
Qed.

Lemma work_tera_nonneg (n : nat) : 0 <= work_tera n.
Proof.
  unfold work_tera. apply Qle_shift_div_l; [reflexivity |].
  rewrite Qmult_0_l. change 0 with (inject_Z 0). rewrite <- Zle_Qle.
  assert (0 <= Z.of_nat n ^ 3)%Z by (apply Z.pow_nonneg; lia). lia.
Qed.

End Means.

Lemma elem_of_map_seq {A} (f : nat -> A) (T : nat) (x : A) :
  x ∈ map f (seq 0 T) -> exists i, i < T /\ x = f i.
Proof.
  intros H. apply list_elem_of_In, in_map_iff in H as (i & <- & Hi).
  apply in_seq in Hi. exists i. split; [lia | reflexivity].
Qed.

Lemma map_seq_nonempty {A} (f : nat -> A) (T : nat) :
  1 <= T -> map f (seq 0 T) <> [].
Proof. destruct T; [lia | discriminate]. Qed.

Lemma flops_nonneg (n : nat) : (0 <= 2 * Z.of_nat n ^ 3)%Z.
Proof. assert (0 <= Z.of_nat n ^ 3)%Z by (apply Z.pow_nonneg; lia). lia. Qed.

Section MeasureFigures.

Variable sqrt_fin : Q -> Q.

(** C4, as the code has it. When no allocation fails and the two clock
    readings of every trial differ, each trial's teraflopsSeconds, though
    computed as elapsedSeconds * (flops / elapsedSeconds / 1e12), equals
    2 n^3 / 1e12, and so does the averaged teraflopsSeconds of the record
    returned by measureFLOPS (in exact arithmetic, for at least one
    trial). *)
Theorem teraflops_seconds_is_work (n T : nat) (w : World.t) :
  1 <= T ->
  fault_free w ->
  (forall i, i < T -> ~ (elapsed_ms w i == 0)%Q) ->
  exists (t : Trial.t) (w1 : World.t) (m : Measurement.t) (w' : World.t),
    measureFLOPS_trial n w = (Ok t, w1) /\
    Trial.flops t = (2 * Z.of_nat n ^ 3)%Z /\
    (Trial.teraflopsSeconds t =~ Finite (work_tera n))%num /\
    measureFLOPS sqrt_fin n T w = (Ok m, w') /\
    (Measurement.teraflopsSeconds m =~ Finite (work_tera n))%num.
Proof.
  intros HT Hff He.
  destruct (measureFLOPS_trial_spec n w (Hff 0) (Hff 1)) as (w1 & Htrial & _).
  destruct (measureFLOPS_spec sqrt_fin n T w (fun k _ => Hff k)) as (w' & Hrun & _).
  assert (Hwork : forall i, i < T ->
            (Trial.teraflopsSeconds (nth_trial n w i) =~ Finite (work_tera n))%num).
  { intros i Hi. unfold nth_trial, work_tera. apply trial_work_identity. apply (He i Hi). }
  eexists _, w1, _, w'. split; [exact Htrial |].
  split; [reflexivity |].
  split; [apply Hwork; lia |].
  split; [exact Hrun |].
  unfold aggregate. cbn [Measurement.teraflopsSeconds].
  apply mean_of_equal; [apply map_seq_nonempty; exact HT |].
  intros x Hx. apply elem_of_map_seq in Hx as (i & Hi & ->). apply Hwork. exact Hi.
Qed.

(** C10. When no allocation fails and every trial's elapsed time is
    strictly positive, the record returned by measureFLOPS (for at least
    one trial) has finite non-negative avgFLOPS, gflops and teraflops,
    and a finite non-negative teraflopsSeconds: no division by the
    elapsed time yields Infinity or NaN. *)
Theorem rates_finite_for_positive_times (n T : nat) (w : World.t) :
  1 <= T ->
  fault_free w ->
  (forall i, i < T -> (0 < elapsed_ms w i)%Q) ->
  exists (m : Measurement.t) (w' : World.t),
    measureFLOPS sqrt_fin n T w = (Ok m, w') /\
    Num.nonneg (Measurement.avgFLOPS m) /\
    Num.nonneg (Measurement.gflops m) /\
    Num.nonneg (Measurement.teraflops m) /\
    Num.nonneg (Measurement.teraflopsSeconds m).
Proof.
  intros HT Hff He.
  destruct (measureFLOPS_spec sqrt_fin n T w (fun k _ => Hff k)) as (w' & Hrun & _).
  eexists _, w'. split; [exact Hrun |].
  unfold aggregate.
  cbn [Measurement.avgFLOPS Measurement.gflops Measurement.teraflops
       Measurement.teraflopsSeconds].
  assert (Havg : Num.nonneg
            (sum_numbers (map (fun i => Trial.currentFLOPS (nth_trial n w i)) (seq 0 T))
             / Num.of_nat (length (map (fun i => Trial.currentFLOPS (nth_trial n w i))
                                       (seq 0 T))))%num).
  { apply mean_of_nonneg; [apply map_seq_nonempty; exact HT |].
    intros x Hx. apply elem_of_map_seq in Hx as (i & Hi & ->).
    unfold nth_trial. apply trial_rate_nonneg; [apply flops_nonneg | apply (He i Hi)]. }
  split; [exact Havg |].
  split; [apply nonneg_div_pos; [reflexivity | exact Havg] |].
  split; [apply nonneg_div_pos; [reflexivity | exact Havg] |].
  assert (Hw : (sum_numbers (map (fun i => Trial.teraflopsSeconds (nth_trial n w i)) (seq 0 T))
                / Num.of_nat (length (map (fun i => Trial.teraflopsSeconds (nth_trial n w i))
                                          (seq 0 T)))
                =~ Finite (work_tera n))%num).
  { apply mean_of_equal; [apply map_seq_nonempty; exact HT |].
    intros x Hx. apply elem_of_map_seq in Hx as (i & Hi & ->).
    unfold nth_trial, work_tera. apply trial_work_identity.
    specialize (He i Hi). unfold elapsed_ms in He. lra. }
  apply (nonneg_of_eq _ _ Hw). apply work_tera_nonneg.
Qed.

(** A trial whose two clock readings coincide makes the averaged rate
    infinite or NaN: the elapsed time is the only guard of that
    division. *)
Lemma zero_elapsed_trial_not_finite (n : nat) (w : World.t) (i : nat) :
  (elapsed_ms w i == 0)%Q ->
  Num.is_finite (Trial.currentFLOPS (nth_trial n w i)) = false /\
  Trial.teraflopsSeconds (nth_trial n w i) = NaN.
Proof.
  intros He. unfold nth_trial. apply trial_metrics_zero; [apply flops_nonneg | exact He].
Qed.

End MeasureFigures.

End Trials.

(** ** Concrete runs of the trial runner *)

Lemma ticking_world_fault_free : fault_free ticking_world.
Proof. intros k. reflexivity. Qed.

Lemma ticking_world_elapsed (i : nat) : (elapsed_ms ticking_world i == 1)%Q.
Proof.
  unfold elapsed_ms, ticking_world. cbn [World.clock].
  rewrite Nat2Z.inj_add, inject_Z_plus. change (inject_Z (Z.of_nat 1)) with 1%Q. ring.
Qed.

Lemma teraflops_seconds_is_work_witness :
  fault_free ticking_world /\
  (forall i, (i < 2)%nat -> ~ (elapsed_ms ticking_world i == 0)%Q) /\
  exists (t : Trial.t) (w1 : World.t) (m : Measurement.t) (w' : World.t),
    measureFLOPS_trial 2 ticking_world = (Ok t, w1) /\
    Trial.flops t = (2 * Z.of_nat 2 ^ 3)%Z /\
    (Trial.teraflopsSeconds t =~ Finite (work_tera 2))%num /\
    measureFLOPS (fun q => q) 2 2 ticking_world = (Ok m, w') /\
    (Measurement.teraflopsSeconds m =~ Finite (work_tera 2))%num.
Proof.
  assert (He : forall i, (i < 2)%nat -> ~ (elapsed_ms ticking_world i == 0)%Q).
  { intros i _. rewrite ticking_world_elapsed. discriminate. }
  split; [exact ticking_world_fault_free |]. split; [exact He |].
  apply (teraflops_seconds_is_work (fun q => q) 2 2 ticking_world);
    [lia | exact ticking_world_fault_free | exact He].
Defined.

(** C4 as stated fails when the two clock readings of a trial coincide:
    the rate is Infinity and the work figure 0 * Infinity is NaN. *)
Lemma teraflops_seconds_zero_elapsed_counterexample :
  fst (measureFLOPS_trial 2 frozen_world)
  = Ok {| Trial.elapsedMs := Finite 0;
          Trial.currentFLOPS := PosInf;
          Trial.teraflopsSeconds := NaN;
          Trial.flops := 16 |}
  /\ Measurement.teraflopsSeconds <$> fst (measureFLOPS (fun q => q) 2 1 frozen_world)
     = Ok NaN
  /\ ~ (NaN =~ Finite (work_tera 2))%num.
Proof.
  split; [vm_compute; reflexivity |].
  split; [vm_compute; reflexivity |].
  intros H. exact H.
Qed.

Lemma rates_finite_for_positive_times_witness :
  fault_free ticking_world /\
  (forall i, (i < 2)%nat -> (0 < elapsed_ms ticking_world i)%Q) /\
  exists (m : Measurement.t) (w' : World.t),
    measureFLOPS (fun q => q) 2 2 ticking_world = (Ok m, w') /\
    Num.nonneg (Measurement.avgFLOPS m) /\
    Num.nonneg (Measurement.gflops m) /\
    Num.nonneg (Measurement.teraflops m) /\
    Num.nonneg (Measurement.teraflopsSeconds m).
Proof.
  assert (He : forall i, (i < 2)%nat -> (0 < elapsed_ms ticking_world i)%Q).
  { intros i _. rewrite ticking_world_elapsed. reflexivity. }
  split; [exact ticking_world_fault_free |]. split; [exact He |].
  apply (rates_finite_for_positive_times (fun q => q) 2 2 ticking_world);
    [lia | exact ticking_world_fault_free | exact He].
Defined.

Example measure_ticking :
  Measurement.avgFLOPS <$> fst (measureFLOPS (fun q => q) 2 2 ticking_world)
  = Ok (Finite (32000 # 2)).
Proof. vm_compute. reflexivity. Qed.

(** ** Properties of the sweep controller *)

Section Sweeps.

Variable sqrt_fin : Q -> Q.


Lemma sizes_S (c : Config.t) (k : nat) :
  sizes c (S k) = sizes c k ++ [Config.startN c + Z.of_nat k * Config.step c].
Proof. unfold sizes. rewrite seq_S, map_app. reflexivity. Qed.

(** What [sweep_from] does to a component that is running without a
    result on display and with no other sweep suspended. *)
Lemma sweep_from_inv (c : Config.t) (n : Z) (k : nat)
    (dataPoints : list DataPoint.t) (total : number) (app : App.t) :
  App.suspended app = [] ->
  UI.isRunning (App.ui app) = true ->
  UI.results (App.ui app) = None ->
  n = Config.startN c + Z.of_nat k * Config.step c ->
  map DataPoint.n dataPoints = sizes c k ->
  app_inv (sweep_from sqrt_fin c n dataPoints total app).
Proof.
  intros Hsus Hrun Hres Hn Hdps. unfold sweep_from, app_inv.
  destruct (n <=? Config.endN c) eqn:Hle.
  - destruct (measureFLOPS sqrt_fin (Z.to_nat n) (Z.to_nat (Config.measurements c))
                           (App.world app)) as [[m | e] w'].
    + cbn [App.suspended App.ui UI.isRunning UI.results]. rewrite Hsus. cbn [Datatypes.app].
      split; [exact Hrun |]. split; [exact Hres |].
      exists k. cbn [Sweep.n Sweep.cfg Sweep.dataPoints UI.progress].
      split; [exact Hn |]. split; [apply Z.leb_le; exact Hle |].
      split; [| reflexivity].
      rewrite map_app, Hdps, sizes_S. simpl. rewrite Hn. reflexivity.
    + cbn [App.suspended App.ui]. rewrite Hsus. repeat split.
  - cbn [App.suspended App.ui]. rewrite Hsus. repeat split.
Qed.

(** Every event preserves the invariant. *)
Lemma handle_inv (ev : Event) (app : App.t) :
  app_inv app -> app_inv (handle sqrt_fin ev app).
Proof.
  intros Hinv. unfold app_inv in Hinv.
  destruct (App.suspended app) as [|sw [|sw' rest]] eqn:Hsus; [| | contradiction].
  - (* idle *)
    destruct Hinv as (Hrun & Hprog & Hlabel).
    destruct ev; simpl; unfold resume; rewrite ?Hrun, ?Hsus; simpl;
      try (unfold app_inv; simpl; rewrite Hsus; repeat split; assumption).
    + unfold runAnalysis. rewrite Hrun.
      apply (sweep_from_inv _ _ 0); simpl; try reflexivity; try assumption. lia.
    + destruct (UI.results (App.ui app));
        unfold app_inv; simpl; rewrite Hsus; repeat split; assumption.
  - (* one sweep suspended *)
    destruct Hinv as (Hrun & Hres & (k & Hn & Hle & Hdps & Hprog)).
    assert (Hsame : app_inv app).
    { unfold app_inv. rewrite Hsus. repeat split; try assumption. exists k. auto. }
    destruct ev; simpl; rewrite ?Hrun, ?Hres; simpl; try exact Hsame.
    + unfold runAnalysis. rewrite Hrun. exact Hsame.
    + unfold resume. rewrite Hsus. destruct k0 as [|k0]; simpl; [| exact Hsame].
      apply (sweep_from_inv _ _ (S k)); simpl; try assumption; try reflexivity.
      rewrite Hn. lia.
Qed.

Lemma idle_inv (c : Config.t) (w : World.t) : app_inv (idle c w).
Proof. repeat split. Qed.

Lemma run_events_inv (evs : list Event) (app : App.t) :
  app_inv app -> app_inv (run_events sqrt_fin evs app).
Proof.
  revert app. induction evs as [|ev evs IH]; intros app Hinv; simpl; [exact Hinv |].
  apply IH. apply handle_inv. exact Hinv.
Qed.

(** A size within range, in an environment without allocation failure:
    the sweep measures it, reports progress and suspends. *)
Lemma sweep_from_step (c : Config.t) (n : Z) (dataPoints : list DataPoint.t)
    (total : number) (app : App.t) :
  n <= Config.endN c ->
  fault_free (App.world app) ->
  exists (label : string) (dp : DataPoint.t) (total' : number) (w' : World.t),
    DataPoint.n dp = n /\ fault_free w' /\
    sweep_from sqrt_fin c n dataPoints total app
    = {| App.config := App.config app;
         App.ui :=
           {| UI.isRunning := UI.isRunning (App.ui app);
              UI.progress := reported_progress c n;
              UI.results := UI.results (App.ui app);
              UI.currentTest := label |};
         App.suspended :=
           App.suspended app ++
           [{| Sweep.cfg := c; Sweep.n := n; Sweep.dataPoints := dataPoints ++ [dp];
               Sweep.totalTeraflopsSeconds := total' |}];
         App.console := App.console app;
         App.world := w' |}.
Proof.
  intros Hle Hff. unfold sweep_from.
  replace (n <=? Config.endN c) with true by (symmetry; apply Z.leb_le; exact Hle).
  destruct (measureFLOPS_spec sqrt_fin (Z.to_nat n) (Z.to_nat (Config.measurements c))
                              (App.world app) (fun k _ => Hff k)) as (w' & Hrun & Hlater).
  rewrite Hrun. eexists _, _, _, w'.
  split; [| split; [exact (later_fault_free _ _ _ Hff Hlater) | reflexivity]].
  reflexivity.
Qed.

(** A size beyond [endN]: the sweep publishes its summary and resets the
    observables. *)
Lemma sweep_from_done (c : Config.t) (n : Z) (dataPoints : list DataPoint.t)
    (total : number) (app : App.t) :
  Config.endN c < n ->
  sweep_from sqrt_fin c n dataPoints total app
  = {| App.config := App.config app;
       App.ui :=
         {| UI.isRunning := false;
            UI.currentTest := EmptyString;
            UI.progress := Num.zero;
            UI.results := Some (summarize dataPoints total) |};
       App.suspended := App.suspended app;
       App.console := App.console app;
       App.world := App.world app |}.
Proof.
  intros Hlt. unfold sweep_from.
  replace (n <=? Config.endN c) with false by (symmetry; apply Z.leb_gt; exact Hlt).
  reflexivity.
Qed.

(** A trial that throws: the error is logged, nothing is published and
    the observables are reset. *)
Lemma sweep_from_throw (c : Config.t) (n : Z) (dataPoints : list DataPoint.t)
    (total : number) (app : App.t) (e : Error) (w' : World.t) :
  n <= Config.endN c ->
  measureFLOPS sqrt_fin (Z.to_nat n) (Z.to_nat (Config.measurements c)) (App.world app)
  = (Throw e, w') ->
  sweep_from sqrt_fin c n dataPoints total app
  = {| App.config := App.config app;
       App.ui :=
         {| UI.isRunning := false;
            UI.currentTest := EmptyString;
            UI.progress := Num.zero;
            UI.results := UI.results (App.ui app) |};
       App.suspended := App.suspended app;
       App.console := App.console app ++ [e];
       App.world := w' |}.
Proof.
  intros Hle Hthrow. unfold sweep_from.
  replace (n <=? Config.endN c) with true by (symmetry; apply Z.leb_le; exact Hle).
  rewrite Hthrow. reflexivity.
Qed.

(** Either [sweep_from] logs nothing, or it logs one error, publishes
    nothing and leaves the observables idle. *)
Lemma sweep_from_console (c : Config.t) (n : Z) (dataPoints : list DataPoint.t)
    (total : number) (app : App.t) :
  UI.results (App.ui app) = None ->
  App.suspended app = [] ->
  App.console (sweep_from sqrt_fin c n dataPoints total app) = App.console app \/
  (exists e, App.console (sweep_from sqrt_fin c n dataPoints total app) = App.console app ++ [e]) /\
  UI.results (App.ui (sweep_from sqrt_fin c n dataPoints total app)) = None /\
  ui_idle (App.ui (sweep_from sqrt_fin c n dataPoints total app)) /\
  App.suspended (sweep_from sqrt_fin c n dataPoints total app) = [].
Proof.
  intros Hres Hsus. unfold sweep_from.
  destruct (n <=? Config.endN c).
  - destruct (measureFLOPS sqrt_fin (Z.to_nat n) (Z.to_nat (Config.measurements c))
                           (App.world app)) as [[m | e] w'].
    + left. reflexivity.
    + right. simpl. split; [exists e; reflexivity |]. repeat split; assumption.
  - left. reflexivity.
Qed.

Lemma handle_console (ev : Event) (app : App.t) :
  app_inv app ->
  App.console (handle sqrt_fin ev app) = App.console app \/
  (exists e, App.console (handle sqrt_fin ev app) = App.console app ++ [e]) /\
  UI.results (App.ui (handle sqrt_fin ev app)) = None /\
  ui_idle (App.ui (handle sqrt_fin ev app)) /\
  App.suspended (handle sqrt_fin ev app) = [].
Proof.
  intros Hinv. unfold app_inv in Hinv.
  destruct ev; simpl;
    try (destruct (negb (UI.isRunning (App.ui app))); left; reflexivity).
  - unfold runAnalysis. destruct (UI.isRunning (App.ui app)) eqn:Hrun; [left; reflexivity |].
    destruct (App.suspended app) as [|sw [|sw' rest]] eqn:Hsus; [| | contradiction].
    + apply (sweep_from_console _ _ _ _
               {| App.config := App.config app;
                  App.ui := {| UI.isRunning := true; UI.progress := Num.zero;
                               UI.results := None; UI.currentTest := EmptyString |};
                  App.suspended := [];
                  App.console := App.console app;
                  App.world := App.world app |}); reflexivity.
    + destruct Hinv as (Hrun' & _). congruence.
  - unfold resume.
    destruct (App.suspended app) as [|sw [|sw' rest]] eqn:Hsus; [| | contradiction].
    + left. reflexivity.
    + destruct k as [|k]; simpl; [| left; reflexivity].
      destruct Hinv as (_ & Hres & _).
      apply (sweep_from_console _ _ _ _
               {| App.config := App.config app;
                  App.ui := App.ui app;
                  App.suspended := [];
                  App.console := App.console app;
                  App.world := App.world app |}); [exact Hres | reflexivity].
  - destruct (UI.results (App.ui app)); left; reflexivity.
Qed.

Lemma app_inv_idle_when_stopped (app : App.t) :
  app_inv app -> UI.isRunning (App.ui app) = false -> ui_idle (App.ui app).
Proof.
  unfold app_inv. intros Hinv Hstop.
  destruct (App.suspended app) as [|sw [|sw' rest]]; [exact Hinv | | contradiction].
  destruct Hinv as (Hrun & _). congruence.
Qed.

Lemma app_inv_one_sweep (app : App.t) :
  app_inv app ->
  (length (App.suspended app) <= 1)%nat /\
  (UI.isRunning (App.ui app) = true <-> App.suspended app <> []).
Proof.
  unfold app_inv. intros Hinv.
  destruct (App.suspended app) as [|sw [|sw' rest]]; [| | contradiction].
  - destruct Hinv as (Hrun & _). split; [simpl; lia |].
    split; [congruence | intros H; contradiction H; reflexivity].
  - destruct Hinv as (Hrun & _). split; [simpl; lia |].
    split; [discriminate | intros _; exact Hrun].
Qed.

(** C8. In every state the component can reach, at most one sweep is
    active, the component is running exactly when one is, and a run
    request made while it is running changes nothing: no second sweep
    starts and the state is the same. *)
Theorem second_run_request_is_noop (c : Config.t) (w : World.t) (evs : list Event) :
  (length (App.suspended (run_events sqrt_fin evs (idle c w))) <= 1)%nat /\
  (UI.isRunning (App.ui (run_events sqrt_fin evs (idle c w))) = true
   <-> App.suspended (run_events sqrt_fin evs (idle c w)) <> []) /\
  (UI.isRunning (App.ui (run_events sqrt_fin evs (idle c w))) = true ->
   handle sqrt_fin ClickRun (run_events sqrt_fin evs (idle c w)) = run_events sqrt_fin evs (idle c w)).
Proof.
  pose proof (run_events_inv evs (idle c w) (idle_inv c w)) as Hinv.
  destruct (app_inv_one_sweep _ Hinv) as [Hlen Hiff].
  split; [exact Hlen |]. split; [exact Hiff |].
  intros Hrun. simpl. unfold runAnalysis. rewrite Hrun. reflexivity.
Qed.

Lemma reported_progress_value (c : Config.t) (n : Z) :
  Config.startN c < Config.endN c ->
  Config.startN c <= n <= Config.endN c ->
  exists q : Q,
    reported_progress c n = Finite q /\
    (q == inject_Z (n - Config.startN c) / inject_Z (Config.endN c - Config.startN c)
          * 100)%Q /\
    (0 <= q <= 100)%Q.
Proof.
  intros Hlt [Hlo Hhi]. unfold reported_progress, Num.of_Z. simpl Num.sub.
  set (a := (inject_Z n + - inject_Z (Config.startN c))%Q).
  set (b := (inject_Z (Config.endN c) + - inject_Z (Config.startN c))%Q).
  assert (Ha : (a == inject_Z (n - Config.startN c))%Q).
  { unfold a, Z.sub. rewrite inject_Z_plus, inject_Z_opp. reflexivity. }
  assert (Hb : (b == inject_Z (Config.endN c - Config.startN c))%Q).
  { unfold b, Z.sub. rewrite inject_Z_plus, inject_Z_opp. reflexivity. }
  assert (Hbpos : (0 < b)%Q).
  { rewrite Hb. change 0%Q with (inject_Z 0). rewrite <- Zlt_Qlt. lia. }
  assert (Ha0 : (0 <= a)%Q).
  { rewrite Ha. change 0%Q with (inject_Z 0). rewrite <- Zle_Qle. lia. }
  assert (Hab : (a <= b)%Q).
  { rewrite Ha, Hb. rewrite <- Zle_Qle. lia. }
  assert (Hfrac : (0 <= a / b <= 1)%Q).
  { split; [apply Qle_shift_div_l | apply Qle_shift_div_r]; lra. }
  simpl Num.div. rewrite (Qeq_bool_false b 0) by lra.
  simpl Num.mul. change (inject_Z 100) with 100%Q.
  unfold Num.min, Num.ltb. rewrite Qltb_false by lra.
  exists (a / b * 100)%Q. split; [reflexivity |].
  split; [rewrite Ha, Hb; reflexivity | lra].
Qed.

(** C7, as the code has it. In every state the component can reach, for
    the sweep that has just processed size n and is waiting, if its
    inputs have startN < endN (and step >= 0), the progress on display
    is (n - startN) / (endN - startN) as a percentage and lies in
    [0, 100]. *)
Theorem progress_after_each_size
    (c : Config.t) (w : World.t) (evs : list Event) (sw : Sweep.t) :
  sw ∈ App.suspended (run_events sqrt_fin evs (idle c w)) ->
  Config.startN (Sweep.cfg sw) < Config.endN (Sweep.cfg sw) ->
  0 <= Config.step (Sweep.cfg sw) ->
  exists q : Q,
    UI.progress (App.ui (run_events sqrt_fin evs (idle c w))) = Finite q /\
    (q == inject_Z (Sweep.n sw - Config.startN (Sweep.cfg sw))
          / inject_Z (Config.endN (Sweep.cfg sw) - Config.startN (Sweep.cfg sw))
          * 100)%Q /\
    (0 <= q <= 100)%Q.
Proof.
  intros Hin Hlt Hstep.
  pose proof (run_events_inv evs (idle c w) (idle_inv c w)) as Hinv.
  unfold app_inv in Hinv.
  destruct (App.suspended (run_events sqrt_fin evs (idle c w))) as [|sw0 [|sw1 rest]];
    [inversion Hin | | contradiction].
  apply elem_of_cons in Hin as [-> | Hin]; [| inversion Hin].
  destruct Hinv as (_ & _ & (k & Hn & Hle & _ & Hprog)).
  rewrite Hprog. apply reported_progress_value; [exact Hlt |].
  split; [rewrite Hn; nia | exact Hle].
Qed.

(** The inputs of a sweep in an environment without allocation failure:
    the first size is measured and the reported progress is the
    expression of the source at [n = startN]. *)
Lemma first_size_progress (c : Config.t) (w : World.t) :
  Config.startN c <= Config.endN c ->
  fault_free w ->
  exists sw,
    App.suspended (handle sqrt_fin ClickRun (idle c w)) = [sw] /\
    Sweep.n sw = Config.startN c /\
    UI.progress (App.ui (handle sqrt_fin ClickRun (idle c w)))
    = reported_progress c (Config.startN c).
Proof.
  intros Hle Hff.
  pose (app := {| App.config := c;
                  App.ui := {| UI.isRunning := true; UI.progress := Num.zero;
                               UI.results := None; UI.currentTest := EmptyString |};
                  App.suspended := [];
                  App.console := [];
                  App.world := w |}).
  change (handle sqrt_fin ClickRun (idle c w))
    with (sweep_from sqrt_fin c (Config.startN c) [] Num.zero app).
  destruct (sweep_from_step c (Config.startN c) [] Num.zero app Hle Hff)
    as (label & dp & tot & w' & _ & _ & Hstep).
  rewrite Hstep. simpl. eexists. repeat split.
Qed.

Lemma run_events_cons (ev : Event) (evs : list Event) (app : App.t) :
  run_events sqrt_fin (ev :: evs) app = run_events sqrt_fin evs (handle sqrt_fin ev app).
Proof. reflexivity. Qed.

(** The timer of the only suspended sweep fires. *)
Lemma resume_only (app : App.t) (sw : Sweep.t) :
  App.suspended app = [sw] ->
  handle sqrt_fin (TimerFired 0) app
  = sweep_from sqrt_fin (Sweep.cfg sw) (Sweep.n sw + Config.step (Sweep.cfg sw))
      (Sweep.dataPoints sw) (Sweep.totalTeraflopsSeconds sw)
      {| App.config := App.config app;
         App.ui := App.ui app;
         App.suspended := [];
         App.console := App.console app;
         App.world := App.world app |}.
Proof.
  intros Hsus. simpl. unfold resume. rewrite Hsus. reflexivity.
Qed.

(** From a suspended sweep with [r] sizes still in range, [r + 1] timer
    firings complete the sweep and publish the sizes in order. *)
Lemma run_timers (r : nat) :
  forall (app : App.t) (sw : Sweep.t),
    App.suspended app = [sw] ->
    fault_free (App.world app) ->
    0 < Config.step (Sweep.cfg sw) ->
    Sweep.n sw <= Config.endN (Sweep.cfg sw) ->
    Z.of_nat r = (Config.endN (Sweep.cfg sw) - Sweep.n sw) / Config.step (Sweep.cfg sw) ->
    exists res,
      UI.results (App.ui (run_events sqrt_fin (replicate (S r) (TimerFired 0)) app))
      = Some res /\
      UI.isRunning (App.ui (run_events sqrt_fin (replicate (S r) (TimerFired 0)) app))
      = false /\
      map DataPoint.n (AnalysisResult.dataPoints res)
      = map DataPoint.n (Sweep.dataPoints sw)
        ++ map (fun i => Sweep.n sw + Z.of_nat i * Config.step (Sweep.cfg sw)) (seq 1 r).
Proof.
  induction r as [|r IH]; intros app sw Hsus Hff Hstep Hle Hr.
  - change (replicate 1 (TimerFired 0)) with [TimerFired 0].
    rewrite run_events_cons, (resume_only app sw Hsus), sweep_from_done.
    + simpl. eexists. split; [reflexivity |]. split; [reflexivity |].
      rewrite app_nil_r. reflexivity.
    + symmetry in Hr. apply Z.div_small_iff in Hr; lia.
  - assert (Hroom : Sweep.n sw + Config.step (Sweep.cfg sw) <= Config.endN (Sweep.cfg sw)).
    { pose proof (Z.mul_div_le (Config.endN (Sweep.cfg sw) - Sweep.n sw)
                               (Config.step (Sweep.cfg sw)) Hstep) as Hm.
      rewrite <- Hr in Hm. nia. }
    change (replicate (S (S r)) (TimerFired 0))
      with (TimerFired 0 :: replicate (S r) (TimerFired 0)).
    rewrite run_events_cons, (resume_only app sw Hsus).
    destruct (sweep_from_step (Sweep.cfg sw) (Sweep.n sw + Config.step (Sweep.cfg sw))
                (Sweep.dataPoints sw) (Sweep.totalTeraflopsSeconds sw)
                {| App.config := App.config app;
                   App.ui := App.ui app;
                   App.suspended := [];
                   App.console := App.console app;
                   App.world := App.world app |} Hroom Hff)
      as (label & dp & tot' & w' & Hdp & Hff' & Hnext).
    rewrite Hnext. cbn [Datatypes.app App.suspended].
    match goal with
    | |- context [run_events sqrt_fin _ ?a] =>
        destruct (IH a {| Sweep.cfg := Sweep.cfg sw;
                          Sweep.n := Sweep.n sw + Config.step (Sweep.cfg sw);
                          Sweep.dataPoints := Sweep.dataPoints sw ++ [dp];
                          Sweep.totalTeraflopsSeconds := tot' |})
          as (res & Hres & Hidle & Hns)
    end; try reflexivity; try assumption.
    { cbn [Sweep.cfg Sweep.n].
      replace (Config.endN (Sweep.cfg sw) - (Sweep.n sw + Config.step (Sweep.cfg sw)))
        with (Config.endN (Sweep.cfg sw) - Sweep.n sw + (-1) * Config.step (Sweep.cfg sw))
        by ring.
      rewrite Z.div_add by lia. lia. }
    exists res. split; [exact Hres |]. split; [exact Hidle |].
    rewrite Hns. cbn [Sweep.cfg Sweep.n Sweep.dataPoints].
    rewrite map_app, <- app_assoc. f_equal. simpl map at 1. rewrite Hdp.
    change (seq 1 (S r)) with (1 :: seq 2 r)%nat. simpl map at 2.
    rewrite <- (seq_shift r 1), map_map.
    cbn [Datatypes.app]. f_equal; [lia |]. apply map_ext. intros i. lia.
Qed.

(** C9. In every state the component can reach: a trial that throws,
    in the first size of a new sweep or in the next size of the waiting
    one, is caught by the controller, which logs the error, publishes no
    result, leaves no sweep behind and resets the observables; more
    generally, whenever handling an event logs an error there is no
    result on display afterwards; and whenever the component is not
    running after an event, normal or abnormal completion included, the
    observables are idle: running flag cleared, progress 0, label
    empty. *)
Theorem failure_publishes_nothing_and_resets
    (c : Config.t) (w : World.t) (evs : list Event) (ev : Event) :
  (forall e w',
     UI.isRunning (App.ui (run_events sqrt_fin evs (idle c w))) = false ->
     Config.startN (App.config (run_events sqrt_fin evs (idle c w)))
     <= Config.endN (App.config (run_events sqrt_fin evs (idle c w))) ->
     measureFLOPS sqrt_fin
       (Z.to_nat (Config.startN (App.config (run_events sqrt_fin evs (idle c w)))))
       (Z.to_nat (Config.measurements (App.config (run_events sqrt_fin evs (idle c w)))))
       (App.world (run_events sqrt_fin evs (idle c w))) = (Throw e, w') ->
     App.console (handle sqrt_fin ClickRun (run_events sqrt_fin evs (idle c w)))
     = App.console (run_events sqrt_fin evs (idle c w)) ++ [e] /\
     UI.results (App.ui (handle sqrt_fin ClickRun (run_events sqrt_fin evs (idle c w))))
     = None /\
     ui_idle (App.ui (handle sqrt_fin ClickRun (run_events sqrt_fin evs (idle c w)))) /\
     App.suspended (handle sqrt_fin ClickRun (run_events sqrt_fin evs (idle c w))) = []) /\
  (forall sw e w',
     App.suspended (run_events sqrt_fin evs (idle c w)) = [sw] ->
     Sweep.n sw + Config.step (Sweep.cfg sw) <= Config.endN (Sweep.cfg sw) ->
     measureFLOPS sqrt_fin
       (Z.to_nat (Sweep.n sw + Config.step (Sweep.cfg sw)))
       (Z.to_nat (Config.measurements (Sweep.cfg sw)))
       (App.world (run_events sqrt_fin evs (idle c w))) = (Throw e, w') ->
     App.console (handle sqrt_fin (TimerFired 0) (run_events sqrt_fin evs (idle c w)))
     = App.console (run_events sqrt_fin evs (idle c w)) ++ [e] /\
     UI.results (App.ui (handle sqrt_fin (TimerFired 0) (run_events sqrt_fin evs (idle c w))))
     = None /\
     ui_idle (App.ui (handle sqrt_fin (TimerFired 0) (run_events sqrt_fin evs (idle c w)))) /\
     App.suspended (handle sqrt_fin (TimerFired 0) (run_events sqrt_fin evs (idle c w)))
     = []) /\
  (App.console (handle sqrt_fin ev (run_events sqrt_fin evs (idle c w)))
   <> App.console (run_events sqrt_fin evs (idle c w)) ->
   UI.results (App.ui (handle sqrt_fin ev (run_events sqrt_fin evs (idle c w)))) = None /\
   ui_idle (App.ui (handle sqrt_fin ev (run_events sqrt_fin evs (idle c w)))) /\
   App.suspended (handle sqrt_fin ev (run_events sqrt_fin evs (idle c w))) = []) /\
  (UI.isRunning (App.ui (handle sqrt_fin ev (run_events sqrt_fin evs (idle c w)))) = false ->
   ui_idle (App.ui (handle sqrt_fin ev (run_events sqrt_fin evs (idle c w))))).
Proof.
  pose proof (run_events_inv evs (idle c w) (idle_inv c w)) as Hinv.
  set (app := run_events sqrt_fin evs (idle c w)) in *.
  split; [| split; [| split]].
  - intros e w' Hstop Hle Hthrow.
    pose proof (app_inv_one_sweep app Hinv) as [_ Hiff].
    assert (Hsus : App.suspended app = []).
    { destruct (App.suspended app) as [|sw l]; [reflexivity |].
      assert (UI.isRunning (App.ui app) = true) by (apply Hiff; discriminate). congruence. }
    simpl. unfold runAnalysis. rewrite Hstop.
    rewrite (sweep_from_throw _ _ _ _ _ e w'); [| exact Hle | exact Hthrow].
    simpl. rewrite Hsus. repeat split.
  - intros sw e w' Hsus Hle Hthrow.
    rewrite (resume_only app sw Hsus).
    rewrite (sweep_from_throw _ _ _ _ _ e w'); [| exact Hle | exact Hthrow].
    unfold app_inv in Hinv. rewrite Hsus in Hinv. destruct Hinv as (_ & Hres & _).
    simpl. rewrite Hres. repeat split.
  - intros Hlog. destruct (handle_console ev _ Hinv) as [Hsame | (_ & Hfail)];
      [contradiction | exact Hfail].
  - apply app_inv_idle_when_stopped. apply handle_inv. exact Hinv.
Qed.

Lemma sizes_length (c : Config.t) (k : nat) : length (sizes c k) = k.
Proof. unfold sizes. rewrite length_map, length_seq. reflexivity. Qed.

Lemma sizes_lookup (c : Config.t) (k i : nat) (x : Z) :
  sizes c k !! i = Some x <-> (i < k)%nat /\ x = Config.startN c + Z.of_nat i * Config.step c.
Proof.
  induction k as [|k IH].
  - split; [discriminate | lia].
  - rewrite sizes_S. destruct (Nat.lt_trichotomy i k) as [Hlt | [-> | Hgt]].
    + rewrite lookup_app_l by (rewrite sizes_length; exact Hlt).
      rewrite IH. split; intros [_ ->]; split; (lia || reflexivity).
    + rewrite list_lookup_middle by (rewrite sizes_length; reflexivity).
      split; [intros [= <-]; split; [lia | reflexivity] | intros [_ ->]; reflexivity].
    + rewrite lookup_ge_None_2 by (rewrite length_app, sizes_length; simpl; lia).
      split; [discriminate | lia].
Qed.

Lemma sizes_increasing (c : Config.t) (k i j : nat) (x y : Z) :
  0 < Config.step c -> (i < j)%nat ->
  sizes c k !! i = Some x -> sizes c k !! j = Some y -> x < y.
Proof.
  intros Hstep Hij Hx Hy.
  apply sizes_lookup in Hx as [_ ->]. apply sizes_lookup in Hy as [_ ->]. nia.
Qed.

(** The sizes of a complete sweep are the terms of the progression that
    do not exceed [endN]. *)
Lemma sizes_complete (c : Config.t) (v : Z) :
  Config.startN c <= Config.endN c -> 0 < Config.step c ->
  v ∈ sizes c (Z.to_nat ((Config.endN c - Config.startN c) / Config.step c + 1))
  <-> exists i : nat,
        v = Config.startN c + Z.of_nat i * Config.step c /\ v <= Config.endN c.
Proof.
  intros Hle Hstep.
  set (d := Config.endN c - Config.startN c).
  assert (Hq : 0 <= d / Config.step c) by (apply Z.div_pos; lia).
  pose proof (Z.mul_div_le d (Config.step c) Hstep) as Hlow.
  pose proof (Z.mul_succ_div_gt d (Config.step c) Hstep) as Hup.
  split.
  - intros Hin. apply list_elem_of_lookup_1 in Hin as [i Hi].
    apply sizes_lookup in Hi as [Hi ->]. exists i. split; [reflexivity |].
    assert (Z.of_nat i <= d / Config.step c) by lia. nia.
  - intros (i & -> & Hv). apply (list_elem_of_lookup_2 _ i).
    apply sizes_lookup. split; [| reflexivity].
    assert (Z.of_nat i <= d / Config.step c); [| lia].
    apply Z.div_le_lower_bound; lia.
Qed.

(** C3. For inputs with startN <= endN and step > 0, in an environment
    without allocation failure, the click and the timer firings of one
    sweep end with a published result whose points number
    floor((endN - startN) / step) + 1, have strictly increasing sizes,
    and whose sizes are exactly startN, startN + step, ... up to the last
    value not above endN. *)
Theorem sweep_measures_each_size_once (c : Config.t) (w : World.t) :
  Config.startN c <= Config.endN c ->
  0 < Config.step c ->
  fault_free w ->
  exists res : AnalysisResult.t,
    UI.results
      (App.ui (run_sweep sqrt_fin
                 (Z.to_nat ((Config.endN c - Config.startN c) / Config.step c + 1))
                 (idle c w))) = Some res /\
    length (AnalysisResult.dataPoints res)
    = Z.to_nat ((Config.endN c - Config.startN c) / Config.step c + 1) /\
    map DataPoint.n (AnalysisResult.dataPoints res)
    = sizes c (Z.to_nat ((Config.endN c - Config.startN c) / Config.step c + 1)) /\
    (forall i j x y, (i < j)%nat ->
       map DataPoint.n (AnalysisResult.dataPoints res) !! i = Some x ->
       map DataPoint.n (AnalysisResult.dataPoints res) !! j = Some y -> x < y) /\
    (forall v, v ∈ map DataPoint.n (AnalysisResult.dataPoints res)
               <-> exists i : nat,
                     v = Config.startN c + Z.of_nat i * Config.step c /\
                     v <= Config.endN c).
Proof.
  intros Hle Hstep Hff.
  assert (Hq : 0 <= (Config.endN c - Config.startN c) / Config.step c)
    by (apply Z.div_pos; lia).
  set (r := Z.to_nat ((Config.endN c - Config.startN c) / Config.step c)).
  assert (Hcount : Z.to_nat ((Config.endN c - Config.startN c) / Config.step c + 1) = S r)
    by (unfold r; lia).
  unfold run_sweep. rewrite run_events_cons.
  pose (app := {| App.config := c;
                  App.ui := {| UI.isRunning := true; UI.progress := Num.zero;
                               UI.results := None; UI.currentTest := EmptyString |};
                  App.suspended := [];
                  App.console := [];
                  App.world := w |}).
  change (handle sqrt_fin ClickRun (idle c w))
    with (sweep_from sqrt_fin c (Config.startN c) [] Num.zero app).
  destruct (sweep_from_step c (Config.startN c) [] Num.zero app Hle Hff)
    as (label & dp & tot & w' & Hdp & Hff' & Hfirst).
  rewrite Hfirst, Hcount. cbn [Datatypes.app App.suspended app].
  match goal with
  | |- context [run_events sqrt_fin _ ?a] =>
      destruct (run_timers r a
                  {| Sweep.cfg := c; Sweep.n := Config.startN c;
                     Sweep.dataPoints := [dp]; Sweep.totalTeraflopsSeconds := tot |})
        as (res & Hres & _ & Hns)
  end; try reflexivity; try assumption.
  { cbn [Sweep.cfg Sweep.n]. unfold r. lia. }
  assert (Hsizes : map DataPoint.n (AnalysisResult.dataPoints res) = sizes c (S r)).
  { rewrite Hns. cbn [Sweep.cfg Sweep.n Sweep.dataPoints]. simpl map at 1. rewrite Hdp.
    unfold sizes. change (seq 0 (S r)) with (0 :: seq 1 r)%nat. simpl map at 2.
    cbn [Datatypes.app]. f_equal. lia. }
  exists res. split; [exact Hres |].
  split; [rewrite <- (length_map DataPoint.n), Hsizes; apply sizes_length |].
  split; [exact Hsizes |].
  rewrite Hsizes. split.
  - intros i j x y. apply sizes_increasing. exact Hstep.
  - intros v. rewrite <- Hcount. apply sizes_complete; assumption.
Qed.

End Sweeps.

(** ** Concrete runs of the sweep controller *)

Lemma sweep_measures_each_size_once_witness :
  Config.startN (config 100 300 100 1) <= Config.endN (config 100 300 100 1) /\
  0 < Config.step (config 100 300 100 1) /\
  fault_free ticking_world /\
  exists res : AnalysisResult.t,
    UI.results
      (App.ui (run_sweep (fun q => q)
                 (Z.to_nat ((300 - 100) / 100 + 1))
                 (idle (config 100 300 100 1) ticking_world))) = Some res /\
    length (AnalysisResult.dataPoints res) = Z.to_nat ((300 - 100) / 100 + 1) /\
    map DataPoint.n (AnalysisResult.dataPoints res)
    = sizes (config 100 300 100 1) (Z.to_nat ((300 - 100) / 100 + 1)) /\
    (forall i j x y, (i < j)%nat ->
       map DataPoint.n (AnalysisResult.dataPoints res) !! i = Some x ->
       map DataPoint.n (AnalysisResult.dataPoints res) !! j = Some y -> x < y) /\
    (forall v, v ∈ map DataPoint.n (AnalysisResult.dataPoints res)
               <-> exists i : nat, v = 100 + Z.of_nat i * 100 /\ v <= 300).
Proof.
  split; [simpl; lia |]. split; [simpl; lia |].
  split; [exact ticking_world_fault_free |].
  apply (sweep_measures_each_size_once (fun q => q) (config 100 300 100 1) ticking_world);
    [simpl; lia | simpl; lia | exact ticking_world_fault_free].
Defined.

Example sizes_100_300 : sizes (config 100 300 100 1) 3 = [100; 200; 300].
Proof. reflexivity. Qed.

(** A small sweep, run to the end. *)
Example small_sweep_sizes :
  (fun r => map DataPoint.n (AnalysisResult.dataPoints r))
    <$> UI.results (App.ui (run_sweep (fun q => q) 3 (idle (config 1 3 1 1) ticking_world)))
  = Some [1; 2; 3].
Proof. vm_compute. reflexivity. Qed.

Example small_sweep_operations :
  (fun r => map DataPoint.operations (AnalysisResult.dataPoints r))
    <$> UI.results (App.ui (run_sweep (fun q => q) 3 (idle (config 1 3 1 1) ticking_world)))
  = Some [2; 16; 54].
Proof. vm_compute. reflexivity. Qed.

Lemma progress_after_each_size_witness :
  exists sw : Sweep.t,
    sw ∈ App.suspended (run_events (fun q => q) [ClickRun; TimerFired 0]
                          (idle (config 1 3 1 1) ticking_world)) /\
    Config.startN (Sweep.cfg sw) < Config.endN (Sweep.cfg sw) /\
    0 <= Config.step (Sweep.cfg sw) /\
    exists q : Q,
      UI.progress (App.ui (run_events (fun q => q) [ClickRun; TimerFired 0]
                             (idle (config 1 3 1 1) ticking_world))) = Finite q /\
      (q == inject_Z (Sweep.n sw - Config.startN (Sweep.cfg sw))
            / inject_Z (Config.endN (Sweep.cfg sw) - Config.startN (Sweep.cfg sw))
            * 100)%Q /\
      (0 <= q <= 100)%Q.
Proof.
  assert (E : exists sw,
             App.suspended (run_events (fun q => q) [ClickRun; TimerFired 0]
                              (idle (config 1 3 1 1) ticking_world)) = [sw] /\
             Sweep.cfg sw = config 1 3 1 1).
  { vm_compute. eexists. split; reflexivity. }
  destruct E as (sw & E & Hc). exists sw.
  assert (Hin : sw ∈ App.suspended (run_events (fun q => q) [ClickRun; TimerFired 0]
                                      (idle (config 1 3 1 1) ticking_world)))
    by (rewrite E; left).
  assert (Hlt : Config.startN (Sweep.cfg sw) < Config.endN (Sweep.cfg sw))
    by (rewrite Hc; simpl; lia).
  assert (Hstep : 0 <= Config.step (Sweep.cfg sw)) by (rewrite Hc; simpl; lia).
  split; [exact Hin |]. split; [exact Hlt |]. split; [exact Hstep |].
  exact (progress_after_each_size (fun q => q) (config 1 3 1 1) ticking_world
           [ClickRun; TimerFired 0] sw Hin Hlt Hstep).
Defined.

Example progress_halfway :
  UI.progress (App.ui (run_events (fun q => q) [ClickRun; TimerFired 0]
                         (idle (config 1 3 1 1) ticking_world)))
  = Finite (100 # 2).
Proof. vm_compute. reflexivity. Qed.

(** C7 as stated fails for a sweep of a single size, startN = endN: the
    size is processed and the progress reported for it is 0/0 * 100,
    which is NaN and which Math.min leaves NaN. *)
Lemma progress_single_size_counterexample :
  Config.startN (config 100 100 100 3) <= Config.endN (config 100 100 100 3) /\
  (exists sw,
     App.suspended (handle (fun q => q) ClickRun (idle (config 100 100 100 3) ticking_world))
     = [sw] /\ Sweep.n sw = 100) /\
  UI.progress (App.ui (handle (fun q => q) ClickRun
                         (idle (config 100 100 100 3) ticking_world))) = NaN /\
  ~ (exists q : Q,
       UI.progress (App.ui (handle (fun q => q) ClickRun
                              (idle (config 100 100 100 3) ticking_world))) = Finite q /\
       (0 <= q <= 100)%Q).
Proof.
  destruct (first_size_progress (fun q => q) (config 100 100 100 3) ticking_world)
    as (sw & Hsus & Hn & Hp); [simpl; lia | exact ticking_world_fault_free |].
  split; [simpl; lia |].
  split; [exists sw; split; [exact Hsus | exact Hn] |].
  assert (Hnan : UI.progress (App.ui (handle (fun q => q) ClickRun
                                        (idle (config 100 100 100 3) ticking_world))) = NaN).
  { rewrite Hp. vm_compute. reflexivity. }
  split; [exact Hnan |].
  intros (q & Hq & _). rewrite Hnan in Hq. discriminate.
Qed.

Example progress_single_size_small :
  UI.progress (App.ui (handle (fun q => q) ClickRun (idle (config 2 2 1 1) ticking_world)))
  = NaN.
Proof. vm_compute. reflexivity. Qed.

(** A second click while the sweep waits for its timer changes nothing. *)
Example second_click_ignored :
  App.suspended (run_events (fun q => q) [ClickRun; ClickRun]
                   (idle (config 1 3 1 1) ticking_world))
  = App.suspended (run_events (fun q => q) [ClickRun]
                     (idle (config 1 3 1 1) ticking_world))
  /\ length (App.suspended (run_events (fun q => q) [ClickRun; ClickRun]
                              (idle (config 1 3 1 1) ticking_world))) = 1%nat.
Proof. vm_compute. split; reflexivity. Qed.

(** The allocation of the second size fails: the first size had been
    measured, and yet nothing is published. *)
Example failed_sweep_publishes_nothing :
  let app := run_events (fun q => q) [ClickRun; TimerFired 0]
               (idle (config 1 3 1 1) failing_world) in
  App.console app = [RangeError] /\
  App.ui app = {| UI.isRunning := false; UI.progress := Finite 0;
                  UI.results := None; UI.currentTest := EmptyString |} /\
  App.suspended app = [] /\
  length (App.suspended (run_events (fun q => q) [ClickRun]
                           (idle (config 1 3 1 1) failing_world))) = 1%nat.
Proof. vm_compute. repeat split. Qed.

(** ** The special cases and the rounding of binary64

    The cases in which the model above returns Infinity or NaN are those
    of IEEE arithmetic; and the work figure of a trial, exact in the
    model, is only correct up to rounding in binary64. *)

Example binary64_zero_elapsed :
  Binary64.currentFLOPS (Binary64.trial_metrics 2000000 100 100) = infinity /\
  PrimFloat.is_nan (Binary64.teraflopsSeconds (Binary64.trial_metrics 2000000 100 100))
  = true.
Proof. vm_compute. split; reflexivity. Qed.

Example binary64_single_size_progress :
  PrimFloat.is_nan (Binary64.currentProgress 100 100 100) = true.
Proof. vm_compute. reflexivity. Qed.

(** Size 100 measured in 7 ms: the product of the time and the rate is
    one unit in the last place above 2e6 / 1e12. *)
Example binary64_work_is_rounded :
  Binary64.teraflopsSeconds (Binary64.trial_metrics 2000000 100 107)
  = 0x1.0c6f7a0b5ed8ep-19%float /\
  (2000000 / 1e12)%float = 0x1.0c6f7a0b5ed8dp-19%float /\
  PrimFloat.eqb (Binary64.teraflopsSeconds (Binary64.trial_metrics 2000000 100 107))
                (2000000 / 1e12) = false.
Proof. vm_compute. repeat split. Qed.

(** * Further properties *)

(** ** The multiplier on other inputs *)

Section MultiplierEdges.

Local Open Scope nat_scope.

Lemma for_upto_throw {S : Type} (P : nat -> S -> Prop) (body : nat -> S -> Result S)
    (e : Error) (k : nat) :
  forall cnt i s,
    i <= k < i + cnt ->
    P i s ->
    (forall j s, i <= j < k -> P j s -> exists s', body j s = Ok s' /\ P (j + 1) s') ->
    (forall s, P k s -> body k s = Throw e) ->
    for_upto i cnt body s = Throw e.
Proof.
  induction cnt as [|cnt IH]; intros i s Hk Hs Hok Hfail; [lia |].
  simpl. destruct (Nat.eq_dec i k) as [-> | Hne].
  - rewrite (Hfail s Hs). reflexivity.
  - destruct (Hok i s) as (s1 & Hb & Hs1); [lia | assumption |].
    rewrite Hb. simpl. apply IH.
    + lia.
    + replace (Datatypes.S i) with (i + 1) by lia. assumption.
    + intros j s' Hj Hp. apply Hok; [lia | assumption].
    + assumption.
Qed.

Lemma load2_missing (m : matrix) i k :
  length m <= i -> load2 m i k = Throw TypeError.
Proof. intros H. unfold load2. rewrite lookup_ge_None_2 by exact H. reflexivity. Qed.

Lemma cells_unique n (m m' : matrix) f : cells n m f -> cells n m' f -> m = m'.
Proof.
  intros [Hlen Hrows] [Hlen' Hrows']. apply list_eq. intros i.
  destruct (Nat.lt_ge_cases i n) as [Hi | Hi].
  - destruct (Hrows i Hi) as (row & -> & Hl & Hc).
    destruct (Hrows' i Hi) as (row' & -> & Hl' & Hc').
    f_equal. apply list_eq. intros j.
    destruct (Nat.lt_ge_cases j n) as [Hj | Hj].
    + rewrite Hc, Hc' by assumption. reflexivity.
    + rewrite !lookup_ge_None_2 by lia. reflexivity.
  - rewrite !lookup_ge_None_2 by lia. reflexivity.
Qed.

Lemma cells_square n (m : matrix) f : cells n m f -> is_square n m.
Proof.
  intros [Hlen Hrows]. split; [exact Hlen |].
  apply Forall_forall. intros row Hrow.
  apply list_elem_of_lookup_1 in Hrow as [i Hi].
  assert (i < n) by (rewrite <- Hlen; eapply lookup_lt_Some; exact Hi).
  destruct (Hrows i) as (row' & Hrow' & Hl & _); [assumption |]. congruence.
Qed.

Lemma sigma_ext (f g : nat -> number) (n : nat) :
  (forall k, k < n -> f k = g k) -> sigma f n = sigma g n.
Proof.
  induction n as [|n IH]; intros H; [reflexivity |].
  simpl. rewrite IH, (H n) by (intros; try apply H; lia). reflexivity.
Qed.

(** X1. The result is an n by n matrix that depends only on the leading n by
    n blocks of the arguments: rows and entries beyond n are never read,
    and rows may be ragged (a missing entry counts as NaN). *)
Theorem multiply_reads_leading_block (n : nat) (a b a' b' : matrix) :
  n <= length a -> n <= length b -> n <= length a' -> n <= length b' ->
  (forall i k, i < n -> k < n -> entry_num a i k = entry_num a' i k) ->
  (forall k j, k < n -> j < n -> entry_num b k j = entry_num b' k j) ->
  exists res,
    multiplyMatricesWithFLOPS a b n
    = Ok {| Product.result := res; Product.flops := (2 * Z.of_nat n ^ 3)%Z |} /\
    multiplyMatricesWithFLOPS a' b' n
    = Ok {| Product.result := res; Product.flops := (2 * Z.of_nat n ^ 3)%Z |} /\
    is_square n res.
Proof.
  intros Ha Hb Ha' Hb' Hea Heb.
  destruct (multiply_spec a b n Ha Hb) as (res & Hrun & Hres).
  destruct (multiply_spec a' b' n Ha' Hb') as (res' & Hrun' & Hres').
  assert (res' = res).
  { apply (cells_unique n _ _ (dot a b n)); [| exact Hres].
    eapply cells_ext; [exact Hres' |].
    intros i j Hi Hj. unfold dot. apply sigma_ext. intros k Hk.
    rewrite Hea, Heb by assumption. reflexivity. }
  subst res'. exists res. split; [exact Hrun |]. split; [exact Hrun' |].
  exact (cells_square n res _ Hres).
Qed.

Section Throw.

Variables (a b : matrix) (n : nat).

(** The innermost pass at a place where both operands' rows exist. *)
Lemma inner_step_rows i j k (res : matrix) (fl : Z) :
  i < n -> j < n -> k < n -> i < length a -> k < length b ->
  cells n res (table_at a b n i j k) ->
  exists res',
    (rij ← load2 res i j;
     aik ← load2 a i k;
     bkj ← load2 b k j;
     result ← store2 res i j (rij + aik * bkj)%num;
     Ok (result, (fl + 2)%Z)) = Ok (res', (fl + 2)%Z)
    /\ cells n res' (table_at a b n i j (k + 1)).
Proof.
  intros Hi Hj Hk Hia Hkb Hres.
  rewrite (load2_entry res) by (destruct Hres as [-> _]; assumption).
  rewrite (load2_entry a), (load2_entry b) by lia. simpl.
  destruct (cells_store n res _ i j
              (entry_num res i j + entry_num a i k * entry_num b k j)%num Hres Hi Hj)
    as (res' & Hst & Hres').
  rewrite Hst. simpl. exists res'. split; [reflexivity |].
  eapply cells_ext; [exact Hres' |].
  intros i' j' Hi' Hj'. cbv beta. unfold table_at.
  destruct (Nat.eqb_spec i' i) as [-> | Hne]; simpl.
  - destruct (Nat.eqb_spec j' j) as [-> | Hnej]; [| reflexivity].
    rewrite !Nat.ltb_irrefl. rewrite Nat.add_1_r. unfold dot. simpl.
    unfold entry_num at 1. rewrite (cells_entry n res _ i j Hres Hi Hj). simpl.
    unfold table_at. rewrite !Nat.ltb_irrefl, !Nat.eqb_refl. reflexivity.
  - reflexivity.
Qed.

Lemma table_at_next_column i j i' j' :
  table_at a b n i j n i' j' = table_at a b n i (j + 1) 0 i' j'.
Proof.
  unfold table_at. simpl.
  destruct (i' <? i); [reflexivity |]. destruct (i' =? i); [| reflexivity].
  destruct (Nat.ltb_spec j' j) as [Hlt | Hge].
  - replace (j' <? j + 1) with true by (symmetry; apply Nat.ltb_lt; lia). reflexivity.
  - destruct (Nat.eqb_spec j' j) as [-> | Hne].
    + replace (j <? j + 1) with true by (symmetry; apply Nat.ltb_lt; lia). reflexivity.
    + replace (j' <? j + 1) with false by (symmetry; apply Nat.ltb_ge; lia).
      destruct (j' =? j + 1); reflexivity.
Qed.

Lemma table_at_next_row i i' j' :
  j' < n -> table_at a b n i n 0 i' j' = table_at a b n (i + 1) 0 0 i' j'.
Proof.
  intros Hj'. unfold table_at. simpl.
  destruct (Nat.ltb_spec i' i) as [Hlt | Hge].
  - replace (i' <? i + 1) with true by (symmetry; apply Nat.ltb_lt; lia). reflexivity.
  - destruct (Nat.eqb_spec i' i) as [-> | Hne].
    + replace (i <? i + 1) with true by (symmetry; apply Nat.ltb_lt; lia).
      replace (j' <? n) with true by (symmetry; apply Nat.ltb_lt; lia). reflexivity.
    + replace (i' <? i + 1) with false by (symmetry; apply Nat.ltb_ge; lia).
      destruct (i' =? i + 1); [| reflexivity]. destruct (j' =? 0); reflexivity.
Qed.

(** One row of the product, when row [i] of [a] and the first [n] rows of
    [b] exist. *)
Lemma row_ok i (st : matrix * Z) :
  i < n -> i < length a -> n <= length b ->
  cells n st.1 (table_at a b n i 0 0) ->
  exists st',
    for_upto 0 n (fun j st =>
      for_upto 0 n (fun k '(result, flops) =>
        rij ← load2 result i j;
        aik ← load2 a i k;
        bkj ← load2 b k j;
        result ← store2 result i j (rij + aik * bkj)%num;
        Ok (result, (flops + 2)%Z)) st) st = Ok st'
    /\ cells n st'.1 (table_at a b n (i + 1) 0 0).
Proof.
  intros Hi Hia Hb Hst.
  match goal with
  | |- exists s', for_upto 0 n ?body ?s = _ /\ _ =>
      destruct (for_upto_inv (fun j (st : matrix * Z) => cells n st.1 (table_at a b n i j 0))
                  body n 0 s) as (st2 & Hrun & Hres)
  end.
  - exact Hst.
  - intros j st1 Hj Hst1.
    match goal with
    | |- exists s', for_upto 0 n ?body ?s = _ /\ _ =>
        destruct (for_upto_inv
                    (fun k (st : matrix * Z) => cells n st.1 (table_at a b n i j k))
                    body n 0 s) as (st3 & Hrun & Hres)
    end.
    + exact Hst1.
    + intros k [res fl] Hk Hres. simpl in Hres.
      destruct (inner_step_rows i j k res fl) as (res' & Hstep & Hres');
        try lia; [assumption |].
      rewrite Hstep. eexists. split; [reflexivity | exact Hres'].
    + exists st3. split; [exact Hrun |].
      eapply cells_ext; [exact Hres |].
      intros i' j' _ _. apply table_at_next_column.
  - exists st2. split; [exact Hrun |].
    eapply cells_ext; [exact Hres |].
    intros i' j' _ Hj'. apply table_at_next_row. exact Hj'.
Qed.

(** A missing row of [a] or of [b] among the first [n] is a TypeError:
    the multiplier reads [a[i][k]] and [b[k][j]] for all i, j, k < n. *)
Lemma product_loops_throw :
  length a < n \/ length b < n ->
  for_upto 0 n (fun i st =>
    for_upto 0 n (fun j st =>
      for_upto 0 n (fun k '(result, flops) =>
        rij ← load2 result i j;
        aik ← load2 a i k;
        bkj ← load2 b k j;
        result ← store2 result i j (rij + aik * bkj)%num;
        Ok (result, (flops + 2)%Z)) st) st)
    (replicate n (replicate n Num.zero), 0%Z)
  = Throw TypeError.
Proof.
  intros Hshort.
  assert (Hzero : cells n (replicate n (replicate n Num.zero)) (table_at a b n 0 0 0)).
  { eapply cells_ext; [apply cells_zero |].
    intros i j _ _. unfold table_at. simpl.
    destruct (j =? 0); destruct (i =? 0); reflexivity. }
  destruct (Nat.lt_ge_cases (length b) n) as [Hb | Hb].
  - (* a row of b is missing: the first entry of the product fails *)
    apply (for_upto_throw (fun i (st : matrix * Z) => cells n st.1 (table_at a b n i 0 0))
             _ TypeError 0); [lia | exact Hzero | intros; lia |].
    intros st Hst.
    apply (for_upto_throw (fun j (st : matrix * Z) => cells n st.1 (table_at a b n 0 j 0))
             _ TypeError 0); [lia | exact Hst | intros; lia |].
    clear st Hst. intros st Hst.
    destruct (Nat.eq_dec (length a) 0) as [Ha0 | Ha0].
    + apply (for_upto_throw (fun k (st : matrix * Z) => cells n st.1 (table_at a b n 0 0 k))
               _ TypeError 0); [lia | exact Hst | intros; lia |].
      intros [res fl] Hres. simpl in Hres.
      rewrite (load2_entry res) by (destruct Hres as [-> _]; lia). simpl.
      rewrite (load2_missing a) by lia. reflexivity.
    + apply (for_upto_throw (fun k (st : matrix * Z) => cells n st.1 (table_at a b n 0 0 k))
               _ TypeError (length b)); [lia | exact Hst | |].
      * intros k [res fl] Hk Hres. simpl in Hres.
        destruct (inner_step_rows 0 0 k res fl) as (res' & Hstep & Hres'); try lia;
          [assumption |].
        rewrite Hstep. eexists. split; [reflexivity | exact Hres'].
      * intros [res fl] Hres. simpl in Hres.
        rewrite (load2_entry res) by (destruct Hres as [-> _]; lia). simpl.
        rewrite (load2_entry a) by lia. simpl.
        rewrite (load2_missing b) by lia. reflexivity.
  - (* the rows of b are there, row [length a] of a is missing *)
    assert (Ha : length a < n) by (destruct Hshort; lia).
    apply (for_upto_throw (fun i (st : matrix * Z) => cells n st.1 (table_at a b n i 0 0))
             _ TypeError (length a)); [lia | exact Hzero | |].
    + intros i st Hi Hst. apply row_ok; try lia. exact Hst.
    + intros st Hst.
      apply (for_upto_throw
               (fun j (st : matrix * Z) => cells n st.1 (table_at a b n (length a) j 0))
               _ TypeError 0); [lia | exact Hst | intros; lia |].
      clear st Hst. intros st Hst.
      apply (for_upto_throw
               (fun k (st : matrix * Z) => cells n st.1 (table_at a b n (length a) 0 k))
               _ TypeError 0); [lia | exact Hst | intros; lia |].
      intros [res fl] Hres. simpl in Hres.
      rewrite (load2_entry res) by (destruct Hres as [-> _]; lia). simpl.
      rewrite (load2_missing a) by lia. reflexivity.
Qed.

End Throw.

(** X2. With fewer than n rows in one argument the multiplier throws a
    TypeError and returns neither a matrix nor a count. *)
Theorem multiply_missing_row_throws (n : nat) (a b : matrix) :
  length a < n \/ length b < n ->
  multiplyMatricesWithFLOPS a b n = Throw TypeError.
Proof.
  intros Hshort. unfold multiplyMatricesWithFLOPS. cbv zeta.
  rewrite init_result_spec. simpl.
  rewrite (product_loops_throw a b n Hshort). reflexivity.
Qed.

End MultiplierEdges.

Lemma multiply_reads_leading_block_witness :
  exists res,
    multiplyMatricesWithFLOPS [[Finite 1; Finite 2; Finite 9]; [Finite 3]; [Finite 7]]
                              (m22 5 6 7 8) 2
    = Ok {| Product.result := res; Product.flops := (2 * Z.of_nat 2 ^ 3)%Z |} /\
    multiplyMatricesWithFLOPS [[Finite 1; Finite 2]; [Finite 3; NaN]] (m22 5 6 7 8) 2
    = Ok {| Product.result := res; Product.flops := (2 * Z.of_nat 2 ^ 3)%Z |} /\
    is_square 2 res.
Proof.
  apply (multiply_reads_leading_block 2
           [[Finite 1; Finite 2; Finite 9]; [Finite 3]; [Finite 7]] (m22 5 6 7 8)
           [[Finite 1; Finite 2]; [Finite 3; NaN]] (m22 5 6 7 8));
    try (simpl; lia).
  - intros [|[|i]] [|[|k]] Hi Hk; try reflexivity; lia.
  - intros; reflexivity.
Defined.

Lemma multiply_missing_row_throws_witness :
  ((length (m22 1 2 3 4) < 3)%nat \/ (length (m22 5 6 7 8) < 3)%nat) /\
  multiplyMatricesWithFLOPS (m22 1 2 3 4) (m22 5 6 7 8) 3 = Throw TypeError.
Proof.
  split; [left; simpl; lia |].
  apply (multiply_missing_row_throws 3 (m22 1 2 3 4) (m22 5 6 7 8)). left. simpl. lia.
Defined.

(** ** The matrix generator *)

Section Generator.

Local Open Scope nat_scope.

Lemma lookup_map_seq {A} (f : nat -> A) (len i : nat) :
  i < len -> map f (seq 0 len) !! i = Some (f i).
Proof.
  induction len as [|len IH]; intros Hi; [lia |].
  rewrite seq_S, map_app. simpl. destruct (Nat.eq_dec i len) as [-> | Hne].
  - rewrite list_lookup_middle by (rewrite length_map, length_seq; reflexivity).
    reflexivity.
  - rewrite lookup_app_l by (rewrite length_map, length_seq; lia). apply IH. lia.
Qed.

Lemma random_matrix_entry (w : World.t) (n i j : nat) :
  i < n -> j < n -> entry (random_matrix w n) i j = Some (random_entry w n i j).
Proof.
  intros Hi Hj. unfold entry, random_matrix, random_row.
  rewrite lookup_map_seq by exact Hi. simpl.
  rewrite lookup_map_seq by exact Hj. reflexivity.
Qed.

Lemma random_matrix_square (w : World.t) (n : nat) : is_square n (random_matrix w n).
Proof.
  unfold random_matrix, random_row. split.
  - rewrite length_map, length_seq. reflexivity.
  - apply Forall_forall. intros row Hrow.
    apply list_elem_of_In, in_map_iff in Hrow as (i & <- & _).
    rewrite length_map, length_seq. reflexivity.
Qed.

Lemma array_set_at_length {A} (hole : A) (arr : list A) (i : nat) (v : A) :
  length arr = i -> array_set hole arr i v = arr ++ [v].
Proof. intros <-. apply array_set_end. Qed.

Lemma store2_at_end (done : matrix) (row : list number) (i j : nat) (v : number) :
  length done = i -> length row = j ->
  store2 (done ++ [row]) i j v = Ok (done ++ [row ++ [v]]).
Proof. intros <- <-. apply store2_last. Qed.

(** The generator fills the matrix row by row with the successive random
    numbers, each times 10, and reads nothing else. *)
Lemma generateRandomMatrix_exact (n : nat) (w : World.t) :
  World.faults w 0 = false ->
  exists w',
    generateRandomMatrix n w = (Ok (random_matrix w n), w') /\
    (forall k, World.randoms w' k = World.randoms w (n * n + k)) /\
    World.clock w' = World.clock w.
Proof.
  intros Hok. unfold generateRandomMatrix, mbind, Eff_bind, allocate. rewrite Hok.
  match goal with
  | |- exists w', for_upto_eff 0 n ?body ?s ?w1 = _ /\ _ =>
      destruct (for_upto_eff_inv
                  (fun i (m : matrix) w' =>
                     m = map (fun i => random_row w n i n) (seq 0 i) /\
                     (forall k, World.randoms w' k = World.randoms w (i * n + k)) /\
                     World.clock w' = World.clock w)
                  body n 0 s w1)
        as (m & w' & Hrun & -> & Hr & Hc)
  end.
  - repeat split.
  - intros i m wi _ (-> & Hr & Hc). cbv zeta.
    rewrite (array_set_at_length _ _ i)
      by (rewrite length_map, length_seq; reflexivity).
    change [[]] with [random_row w n i 0].
    match goal with
    | |- exists s' w', for_upto_eff 0 n ?body ?s ?w1 = _ /\ _ =>
        destruct (for_upto_eff_inv
                    (fun j (m' : matrix) w' =>
                       m' = map (fun i => random_row w n i n) (seq 0 i)
                            ++ [random_row w n i j] /\
                       (forall k, World.randoms w' k = World.randoms w (i * n + j + k)) /\
                       World.clock w' = World.clock w)
                    body n 0 s w1)
          as (m' & w' & Hrun & -> & Hr' & Hc')
    end.
    + split; [reflexivity |]. split; [| exact Hc].
      intros k. rewrite Hr. f_equal. lia.
    + intros j m' wj _ (-> & Hr' & Hc').
      unfold mbind, Eff_bind, Math_random, lift.
      assert (Hst : store2 (map (fun i => random_row w n i n) (seq 0 i)
                            ++ [random_row w n i j]) i j
                      (Finite (World.randoms wj 0) * Num.of_Z 10)%num
                    = Ok (map (fun i => random_row w n i n) (seq 0 i)
                          ++ [random_row w n i (j + 1)])).
      { rewrite store2_at_end
          by (unfold random_row; rewrite length_map, length_seq; reflexivity).
        do 2 f_equal. unfold random_row. rewrite Nat.add_1_r, seq_S, map_app.
        simpl. unfold random_entry. rewrite Hr', Nat.add_0_r. reflexivity. }
      rewrite Hst. eexists _, _. split; [reflexivity |].
      split; [reflexivity |]. split; [| exact Hc'].
      intros k. cbn [World.randoms]. unfold stream_tl. rewrite Hr'. f_equal. lia.
    + exists (map (fun i => random_row w n i n) (seq 0 i) ++ [random_row w n i n]), w'.
      split; [exact Hrun |]. split.
      * rewrite Nat.add_1_r, seq_S, map_app. reflexivity.
      * split; [| exact Hc']. intros k. rewrite Hr'. f_equal. lia.
  - exists w'. split; [exact Hrun |]. split; [| exact Hc].
    intros k. rewrite Hr. f_equal.
Qed.

(** X4. Every entry of a generated matrix lies in [0, 10) when [Math.random]
    returns values in [0, 1); the matrix is n by n and uses up exactly
    n * n random numbers. *)
Theorem generateRandomMatrix_entries_in_range (n : nat) (w : World.t) :
  World.faults w 0 = false ->
  (forall k, (0 <= World.randoms w k < 1)%Q) ->
  exists m w',
    generateRandomMatrix n w = (Ok m, w') /\
    is_square n m /\
    (forall i j, i < n -> j < n ->
       exists q : Q,
         entry m i j = Some (Finite q) /\
         (q == World.randoms w (i * n + j) * 10)%Q /\ (0 <= q < 10)%Q) /\
    (forall k, World.randoms w' k = World.randoms w (n * n + k)).
Proof.
  intros Hok Hrange.
  destruct (generateRandomMatrix_exact n w Hok) as (w' & Hrun & Hr & _).
  exists (random_matrix w n), w'. split; [exact Hrun |].
  split; [apply random_matrix_square |]. split; [| exact Hr].
  intros i j Hi Hj. eexists. split; [apply random_matrix_entry; assumption |].
  change (inject_Z 10) with 10%Q. split; [reflexivity |].
  specialize (Hrange (i * n + j)). lra.
Qed.

End Generator.

Lemma frozen_world_randoms (k : nat) : (0 <= World.randoms frozen_world k < 1)%Q.
Proof. simpl. lra. Qed.

Lemma generateRandomMatrix_entries_in_range_witness :
  World.faults frozen_world 0 = false /\
  exists m w',
    generateRandomMatrix 3 frozen_world = (Ok m, w') /\
    is_square 3 m /\
    (forall i j, (i < 3)%nat -> (j < 3)%nat ->
       exists q : Q,
         entry m i j = Some (Finite q) /\
         (q == World.randoms frozen_world (i * 3 + j) * 10)%Q /\ (0 <= q < 10)%Q) /\
    (forall k, World.randoms w' k = World.randoms frozen_world (3 * 3 + k)).
Proof.
  split; [reflexivity |].
  apply (generateRandomMatrix_entries_in_range 3 frozen_world);
    [reflexivity | exact frozen_world_randoms].
Defined.

(** ** The trial runner: failures *)

Section TrialFailures.

Local Open Scope nat_scope.

Lemma for_upto_eff_throw {S : Type} (P : nat -> S -> World.t -> Prop)
    (body : nat -> S -> Eff S) (e : Error) (k : nat) :
  forall cnt i s w,
    i <= k < i + cnt ->
    P i s w ->
    (forall j s w, i <= j < k -> P j s w ->
       exists s' w', body j s w = (Ok s', w') /\ P (j + 1) s' w') ->
    (forall s w, P k s w -> exists w', body k s w = (Throw e, w')) ->
    exists w', for_upto_eff i cnt body s w = (Throw e, w').
Proof.
  induction cnt as [|cnt IH]; intros i s w Hk Hs Hok Hfail; [lia |].
  simpl. unfold mbind, Eff_bind. destruct (Nat.eq_dec i k) as [-> | Hne].
  - destruct (Hfail s w Hs) as (w' & Hb). rewrite Hb. exists w'. reflexivity.
  - destruct (Hok i s w) as (s1 & w1 & Hb & Hs1); [lia | assumption |].
    rewrite Hb. apply IH.
    + lia.
    + replace (Datatypes.S i) with (i + 1) by lia. assumption.
    + intros j s' w' Hj Hp. apply Hok; [lia | assumption].
    + assumption.
Qed.

(** Among the first [N] values of a stream of booleans, either none is
    true or there is a first one. *)
Lemma first_true (f : nat -> bool) (N : nat) :
  (forall k, k < N -> f k = false) \/
  (exists k, k < N /\ f k = true /\ forall j, j < k -> f j = false).
Proof.
  induction N as [|N [IH | (k & Hk & Hfk & Hmin)]].
  - left. intros k Hk. lia.
  - destruct (f N) eqn:E.
    + right. exists N. split; [lia |]. split; [exact E | exact IH].
    + left. intros k Hk. destruct (Nat.eq_dec k N) as [-> | Hne]; [exact E | apply IH; lia].
  - right. exists k. split; [lia |]. split; assumption.
Qed.

Lemma generateRandomMatrix_fails (n : nat) (w : World.t) :
  World.faults w 0 = true ->
  exists w', generateRandomMatrix n w = (Throw RangeError, w').
Proof.
  intros Hf. unfold generateRandomMatrix, mbind, Eff_bind, allocate. rewrite Hf.
  eexists. reflexivity.
Qed.

(** A trial in which one of the two allocations fails throws. *)
Lemma measureFLOPS_trial_fails (n : nat) (w : World.t) :
  World.faults w 0 = true \/ World.faults w 1 = true ->
  exists w', measureFLOPS_trial n w = (Throw RangeError, w').
Proof.
  intros Hf. unfold measureFLOPS_trial, mbind, Eff_bind.
  destruct (World.faults w 0) eqn:E0.
  - destruct (generateRandomMatrix_fails n w E0) as (w' & ->). exists w'. reflexivity.
  - destruct Hf as [Hf | Hf]; [discriminate |].
    destruct (generateRandomMatrix_spec n w E0) as (mA & w1 & -> & _ & _ & Hfl1).
    destruct (generateRandomMatrix_fails n w1) as (w' & ->).
    { rewrite Hfl1. exact Hf. }
    exists w'. reflexivity.
Qed.

Section Measure.

Variable sqrt_fin : Q -> Q.

Lemma measureFLOPS_fault_throws (n T : nat) (w : World.t) :
  (exists k, k < 2 * T /\ World.faults w k = true) ->
  exists w', measureFLOPS sqrt_fin n T w = (Throw RangeError, w').
Proof.
  intros (k0 & Hk0 & Hf0).
  destruct (first_true (World.faults w) (2 * T)) as [Hnone | (k & Hk & Hfk & Hmin)].
  { rewrite Hnone in Hf0 by exact Hk0. discriminate. }
  unfold measureFLOPS, mbind, Eff_bind. cbv zeta.
  match goal with
  | |- exists w', match for_upto_eff 0 T ?body ?s w with _ => _ end = _ =>
      destruct (for_upto_eff_throw
                  (fun i (st : list number * list number * list number * Z) w' =>
                     later (2 * i) w w')
                  body RangeError (k / 2) T 0 s w) as (w' & Hrun)
  end.
  - split; [lia |]. apply Nat.Div0.div_lt_upper_bound. lia.
  - apply later_0.
  - intros i st wi Hi Hlater.
    assert (Hlt : 2 * i + 1 < k).
    { assert (i + 1 <= k / 2) by lia.
      pose proof (Nat.Div0.mul_div_le k 2). lia. }
    destruct (measureFLOPS_trial_spec n wi) as (w2 & Htrial & Hl2).
    { destruct Hlater as [_ Hf]. rewrite Hf. apply Hmin. lia. }
    { destruct Hlater as [_ Hf]. rewrite Hf. apply Hmin. lia. }
    destruct st as [[[ts fs] tfs] tot]. rewrite Htrial. unfold mret, Eff_ret.
    eexists _, _. split; [reflexivity |].
    replace (2 * (i + 1)) with (2 * i + 2) by lia.
    eapply later_trans; eassumption.
  - intros st wi Hlater.
    destruct (measureFLOPS_trial_fails n wi) as (w' & Htrial).
    { destruct Hlater as [_ Hf]. rewrite !Hf.
      pose proof (Nat.div_mod_eq k 2) as Hdm.
      pose proof (Nat.mod_upper_bound k 2) as Hm.
      destruct (Nat.eq_dec (k mod 2) 0) as [E | E].
      - left. replace (2 * (k / 2) + 0) with k by lia. exact Hfk.
      - right. replace (2 * (k / 2) + 1) with k by lia. exact Hfk. }
    destruct st as [[[ts fs] tfs] tot]. rewrite Htrial. exists w'. reflexivity.
  - rewrite Hrun. exists w'. reflexivity.
Qed.

End Measure.

End TrialFailures.

(** ** Invariants of a session *)

Section Sessions.

Variable sqrt_fin : Q -> Q.

Lemma sum_numbers_snoc (xs : list number) (x : number) :
  sum_numbers (xs ++ [x]) = (sum_numbers xs + x)%num.
Proof. unfold sum_numbers. rewrite foldl_app. reflexivity. Qed.

(** A measurement either returns a record, whose derived fields are as
    computed from the others, or throws the RangeError of a failed
    allocation. *)
Lemma measureFLOPS_outcome (n T : nat) (w : World.t) :
  (exists m w', measureFLOPS sqrt_fin n T w = (Ok m, w') /\
     ((1 <= T)%nat -> Measurement.flops m = 2 * Z.of_nat n ^ 3) /\
     Measurement.gflops m = (Measurement.avgFLOPS m / e9)%num /\
     Measurement.teraflops m = (Measurement.avgFLOPS m / e12)%num)
  \/ (exists w', measureFLOPS sqrt_fin n T w = (Throw RangeError, w')).
Proof.
  destruct (first_true (World.faults w) (2 * T)) as [Hnone | (k & Hk & Hfk & _)].
  - left. destruct (measureFLOPS_spec sqrt_fin n T w Hnone) as (w' & Hrun & _).
    eexists _, w'. split; [exact Hrun |].
    split; [| split; reflexivity].
    intros HT. unfold aggregate. cbn [Measurement.flops].
    destruct T; [lia | reflexivity].
  - right. apply measureFLOPS_fault_throws. exists k. split; assumption.
Qed.

Lemma theoretical_value (n : Z) :
  ((Num.of_Z 2 * Num.pow (Num.of_Z n) 3 - Num.pow (Num.of_Z n) 2) * Finite (1 # 1000000)
   =~ Finite (inject_Z (2 * n ^ 3 - n ^ 2) * (1 # 1000000)))%num.
Proof.
  simpl.
  replace (2 * n ^ 3 - n ^ 2) with (2 * (n * (n * n)) - n * n) by ring.
  unfold Zminus. rewrite inject_Z_plus, inject_Z_opp, !inject_Z_mult. ring.
Qed.

Lemma sweep_from_session (c : Config.t) (n : Z) (k : nat)
    (pts : list DataPoint.t) (total : number) (app : App.t) :
  config_in_bounds c ->
  App.config app = c ->
  App.suspended app = [] ->
  UI.results (App.ui app) = None ->
  (forall e, e ∈ App.console app -> e = RangeError) ->
  n = Config.startN c + Z.of_nat k * Config.step c ->
  measured c k pts total ->
  session_inv (sweep_from sqrt_fin c n pts total app).
Proof.
  intros Hc Hcfg Hsus Hres Hlog Hn (Hsizes & Hle & Htotal & Hpts).
  destruct (Z_le_gt_dec n (Config.endN c)) as [E | E].
  - destruct (measureFLOPS_outcome (Z.to_nat n) (Z.to_nat (Config.measurements c))
                                   (App.world app))
      as [(m & w' & Hrun & Hflops & Hg & Ht) | (w' & Hrun)].
    + unfold sweep_from. rewrite (Zle_imp_le_bool _ _ E), Hrun.
      unfold session_inv. cbn [App.config App.ui App.suspended App.console UI.results].
      split; [rewrite Hcfg; exact Hc |]. split; [rewrite Hres; discriminate |].
      split; [| exact Hlog].
      intros sw Hsw. rewrite Hsus in Hsw. apply list_elem_of_singleton in Hsw. subst sw.
      cbn [Sweep.cfg]. split; [symmetry; exact Hcfg |].
      split; [exact Hc |]. exists k.
      cbn [Sweep.cfg Sweep.n Sweep.dataPoints Sweep.totalTeraflopsSeconds].
      split; [exact Hn |].
      split; [rewrite map_app, Hsizes, sizes_S; simpl; rewrite Hn; reflexivity |].
      split.
      { intros v Hv. rewrite sizes_S in Hv. apply elem_of_app in Hv as [Hv | Hv];
          [apply Hle; exact Hv | apply list_elem_of_singleton in Hv; lia]. }
      split; [rewrite map_app; cbn [map]; rewrite sum_numbers_snoc, Htotal; reflexivity |].
      apply Forall_app. split; [exact Hpts |]. constructor; [| constructor].
      unfold point_consistent.
      cbn [DataPoint.operations DataPoint.n DataPoint.gflops DataPoint.flops
           DataPoint.teraflops DataPoint.theoretical].
      destruct Hc as (Hs & Hst & Hm1 & Hm2).
      assert (0 <= n) by nia.
      split; [rewrite Hflops by lia; rewrite Z2Nat.id by assumption; reflexivity |].
      split; [exact Hg |]. split; [exact Ht |]. apply theoretical_value.
    + rewrite (sweep_from_throw sqrt_fin c n pts total app RangeError w' E Hrun).
      unfold session_inv. cbn [App.config App.ui App.suspended App.console UI.results].
      split; [rewrite Hcfg; exact Hc |]. split; [rewrite Hres; discriminate |].
      split; [rewrite Hsus; intros sw Hsw; inversion Hsw |].
      intros e He. apply elem_of_app in He as [He | He];
        [apply Hlog; exact He | apply list_elem_of_singleton in He; exact He].
  - rewrite (sweep_from_done sqrt_fin c n pts total app) by lia.
    unfold session_inv. cbn [App.config App.ui App.suspended App.console UI.results].
    split; [rewrite Hcfg; exact Hc |].
    split; [| split; [rewrite Hsus; intros sw Hsw; inversion Hsw | exact Hlog]].
    intros res Hr. injection Hr as <-. exists c, k.
    split; [exact Hc |].
    split; [repeat split; assumption |].
    split; [lia | reflexivity].
Qed.

Lemma idle_session (c : Config.t) (w : World.t) :
  config_in_bounds c -> session_inv (idle c w).
Proof.
  intros Hc. unfold session_inv, idle. simpl.
  split; [exact Hc |]. split; [discriminate |].
  split; intros x Hx; inversion Hx.
Qed.

Lemma set_config_session (c : Config.t) (app : App.t) :
  config_in_bounds c -> App.suspended app = [] ->
  session_inv app -> session_inv (set_config c app).
Proof.
  intros Hc Hsus (_ & Hres & _ & Hlog). unfold session_inv, set_config. simpl.
  split; [exact Hc |]. split; [exact Hres |].
  split; [rewrite Hsus; intros x Hx; inversion Hx | exact Hlog].
Qed.

Lemma stopped_not_suspended (app : App.t) :
  app_inv app -> UI.isRunning (App.ui app) = false -> App.suspended app = [].
Proof.
  intros Hinv Hrun. destruct (app_inv_one_sweep app Hinv) as [_ Hiff].
  destruct (App.suspended app) as [|sw l]; [reflexivity |].
  assert (UI.isRunning (App.ui app) = true) by (apply Hiff; discriminate).
  congruence.
Qed.

Lemma running_no_results (app : App.t) :
  app_inv app -> UI.isRunning (App.ui app) = true ->
  UI.results (App.ui app) = None /\ exists sw, App.suspended app = [sw].
Proof.
  intros Hinv Hrun. unfold app_inv in Hinv.
  destruct (App.suspended app) as [|sw [|sw2 l]].
  - destruct Hinv as (Hstop & _). congruence.
  - destruct Hinv as (_ & Hres & _). split; [exact Hres | exists sw; reflexivity].
  - contradiction.
Qed.

Lemma handle_session (ev : Event) (app : App.t) :
  app_inv app -> session_inv app -> session_inv (handle sqrt_fin ev app).
Proof.
  intros Hinv Hs. pose proof Hs as (Hc & Hres & Hsus & Hlog).
  destruct (UI.isRunning (App.ui app)) eqn:Hrun.
  - destruct (running_no_results app Hinv Hrun) as (Hnone & sw & Hsw).
    destruct ev; unfold handle; rewrite ?Hrun; simpl negb; cbv iota; try exact Hs.
    + unfold runAnalysis. rewrite Hrun. exact Hs.
    + destruct k as [|k].
      * fold (handle sqrt_fin (TimerFired 0) app). rewrite (resume_only sqrt_fin app sw Hsw).
        destruct (Hsus sw) as (Hcfg & Hbounds & j & Hn & Hsizes & Hle & Htot & Hpts);
          [rewrite Hsw; left |].
        apply (sweep_from_session (Sweep.cfg sw) _ (S j)); simpl; try assumption.
        -- symmetry; exact Hcfg.
        -- reflexivity.
        -- rewrite Hn. lia.
        -- repeat split; assumption.
      * unfold resume. rewrite Hsw. simpl. exact Hs.
    + rewrite Hnone. exact Hs.
  - pose proof (stopped_not_suspended app Hinv Hrun) as Hnil.
    destruct Hc as (Hc1 & Hc2 & Hc3 & Hc4).
    destruct ev; unfold handle; rewrite ?Hrun; simpl negb; cbv iota.
    + unfold runAnalysis. rewrite Hrun.
      apply (sweep_from_session (App.config app) _ 0%nat); simpl; try assumption;
        try reflexivity.
      * repeat split; assumption.
      * lia.
      * split; [reflexivity |]. split; [intros v Hv; inversion Hv |].
        split; [reflexivity | constructor].
    + unfold resume. rewrite Hnil. simpl. exact Hs.
    + apply set_config_session; [| exact Hnil | exact Hs].
      unfold config_in_bounds; simpl; lia.
    + apply set_config_session; [| exact Hnil | exact Hs].
      unfold config_in_bounds; simpl; lia.
    + apply set_config_session; [| exact Hnil | exact Hs].
      unfold config_in_bounds; simpl; lia.
    + apply set_config_session; [| exact Hnil | exact Hs].
      unfold config_in_bounds; simpl; lia.
    + destruct (UI.results (App.ui app)); [| exact Hs].
      unfold session_inv, clearResults. simpl.
      split; [repeat split; assumption |]. split; [discriminate |].
      split; assumption.
Qed.

Lemma run_events_session (evs : list Event) :
  forall app, app_inv app -> session_inv app ->
              app_inv (run_events sqrt_fin evs app) /\
              session_inv (run_events sqrt_fin evs app).
Proof.
  induction evs as [|ev evs IH]; intros app Hinv Hs.
  - split; assumption.
  - rewrite run_events_cons. apply IH.
    + apply handle_inv. exact Hinv.
    + apply handle_session; assumption.
Qed.

(** X13. In a session that starts with inputs within bounds, the inputs stay
    within bounds, a suspended sweep runs on the inputs on display, and
    while a sweep is running only its timer changes the state: the
    inputs are disabled, the run button returns at once and there is
    nothing to clear. *)
Theorem inputs_stay_in_bounds (c : Config.t) (w : World.t) (evs : list Event) :
  config_in_bounds c ->
  config_in_bounds (App.config (run_events sqrt_fin evs (idle c w))) /\
  (forall sw, sw ∈ App.suspended (run_events sqrt_fin evs (idle c w)) ->
              Sweep.cfg sw = App.config (run_events sqrt_fin evs (idle c w))) /\
  (UI.isRunning (App.ui (run_events sqrt_fin evs (idle c w))) = true ->
   forall ev, (forall k, ev <> TimerFired k) ->
              handle sqrt_fin ev (run_events sqrt_fin evs (idle c w))
              = run_events sqrt_fin evs (idle c w)).
Proof.
  intros Hc.
  destruct (run_events_session evs (idle c w) (idle_inv c w) (idle_session c w Hc))
    as (Hinv & Hb & _ & Hsus & _).
  split; [exact Hb |]. split; [intros sw Hsw; apply Hsus; exact Hsw |].
  intros Hrun ev Hev.
  destruct (running_no_results _ Hinv Hrun) as (Hnone & _).
  destruct ev; unfold handle; rewrite ?Hrun; simpl negb; cbv iota; try reflexivity.
  - unfold runAnalysis. rewrite Hrun. reflexivity.
  - exfalso. apply (Hev k). reflexivity.
  - rewrite Hnone. reflexivity.
Qed.

(** X14. Whatever is on display as the result of a session is the summary of
    a whole sweep: its sizes are startN, startN + step, ... of some
    inputs within bounds, all of them at most endN and the next one
    beyond it; the GFLOPS and TFLOPS of each point are its FLOPS over
    1e9 and 1e12; and the total is the running sum of the points'
    TERAFLOPS-seconds.  (The typed values of a session are integers
    here; nothing in this statement depends on it.) *)
Theorem published_result_is_complete
    (c : Config.t) (w : World.t) (evs : list Event) (res : AnalysisResult.t) :
  config_in_bounds c ->
  UI.results (App.ui (run_events sqrt_fin evs (idle c w))) = Some res ->
  exists (cfg : Config.t) (k : nat),
    config_in_bounds cfg /\
    map DataPoint.n (AnalysisResult.dataPoints res) = sizes cfg k /\
    (forall v, v ∈ sizes cfg k -> v <= Config.endN cfg) /\
    Config.endN cfg < Config.startN cfg + Z.of_nat k * Config.step cfg /\
    AnalysisResult.totalTeraflopsSeconds res
    = sum_numbers (map DataPoint.teraflopsSeconds (AnalysisResult.dataPoints res)) /\
    Forall (fun p => DataPoint.gflops p = (DataPoint.flops p / e9)%num /\
                     DataPoint.teraflops p = (DataPoint.flops p / e12)%num)
           (AnalysisResult.dataPoints res) /\
    res = summarize (AnalysisResult.dataPoints res)
                    (AnalysisResult.totalTeraflopsSeconds res).
Proof.
  intros Hc Hres.
  destruct (run_events_session evs (idle c w) (idle_inv c w) (idle_session c w Hc))
    as (_ & _ & Hpub & _).
  destruct (Hpub res Hres) as (cfg & k & Hb & (Hsizes & Hle & Htot & Hpts) & Hend & Hsum).
  exists cfg, k.
  split; [exact Hb |]. split; [exact Hsizes |]. split; [exact Hle |].
  split; [exact Hend |]. split; [exact Htot |]. split; [| exact Hsum].
  eapply Forall_impl; [exact Hpts |].
  intros p (_ & Hg & Ht & _). split; assumption.
Qed.

(** X15. The only error a session ever logs is the RangeError of a failed
    allocation: the multiplier is only called on square matrices of the
    size it is given, so its TypeError does not occur. *)
Theorem only_allocation_failures_are_logged
    (c : Config.t) (w : World.t) (evs : list Event) (e : Error) :
  config_in_bounds c ->
  e ∈ App.console (run_events sqrt_fin evs (idle c w)) ->
  e = RangeError.
Proof.
  intros Hc He.
  destruct (run_events_session evs (idle c w) (idle_inv c w) (idle_session c w Hc))
    as (_ & _ & _ & _ & Hlog).
  apply Hlog. exact He.
Qed.

(** X17. A click on the run button with endN below startN measures nothing
    and publishes at once the summary of no points: average GFLOPS NaN
    (0 / 0), maximum TFLOPS -Infinity ([Math.max()]), fit and R^2 zero,
    label "Complejo".  The environment is not touched. *)
Theorem empty_range_publishes_empty_result (app : App.t) :
  UI.isRunning (App.ui app) = false ->
  Config.endN (App.config app) < Config.startN (App.config app) ->
  handle sqrt_fin ClickRun app
  = {| App.config := App.config app;
       App.ui := {| UI.isRunning := false;
                    UI.progress := Num.zero;
                    UI.results := Some empty_result;
                    UI.currentTest := EmptyString |};
       App.suspended := App.suspended app;
       App.console := App.console app;
       App.world := App.world app |}.
Proof.
  intros Hrun Hlt. unfold handle, runAnalysis. rewrite Hrun.
  rewrite sweep_from_done by (simpl; lia). reflexivity.
Qed.

Lemma sweep_from_ok (c : Config.t) (n : Z) (pts : list DataPoint.t) (total : number)
    (app : App.t) (m : Measurement.t) (w' : World.t) :
  n <= Config.endN c ->
  measureFLOPS sqrt_fin (Z.to_nat n) (Z.to_nat (Config.measurements c)) (App.world app)
  = (Ok m, w') ->
  exists sw,
    Sweep.cfg sw = c /\ Sweep.n sw = n /\
    App.suspended (sweep_from sqrt_fin c n pts total app) = App.suspended app ++ [sw] /\
    UI.results (App.ui (sweep_from sqrt_fin c n pts total app)) = UI.results (App.ui app) /\
    App.console (sweep_from sqrt_fin c n pts total app) = App.console app.
Proof.
  intros Hle Hrun. unfold sweep_from. rewrite (Zle_imp_le_bool _ _ Hle), Hrun.
  eexists. cbn [App.suspended App.ui App.console UI.results].
  split; [| split; [| split; [reflexivity | split; reflexivity]]]; reflexivity.
Qed.

Lemma run_events_nil (app : App.t) : run_events sqrt_fin [] app = app.
Proof. reflexivity. Qed.

(** The timers of a suspended sweep bring it to its end. *)
Lemma timers_end (fuel : nat) :
  forall (app : App.t) (sw : Sweep.t),
    App.suspended app = [sw] ->
    UI.results (App.ui app) = None ->
    0 < Config.step (Sweep.cfg sw) ->
    (Z.to_nat (Config.endN (Sweep.cfg sw) - Sweep.n sw) < fuel)%nat ->
    exists r : nat,
      UI.isRunning (App.ui (run_events sqrt_fin (replicate r (TimerFired 0)) app)) = false /\
      App.suspended (run_events sqrt_fin (replicate r (TimerFired 0)) app) = [] /\
      ((exists res,
          UI.results (App.ui (run_events sqrt_fin (replicate r (TimerFired 0)) app))
          = Some res /\
          App.console (run_events sqrt_fin (replicate r (TimerFired 0)) app)
          = App.console app) \/
       (UI.results (App.ui (run_events sqrt_fin (replicate r (TimerFired 0)) app)) = None /\
        App.console (run_events sqrt_fin (replicate r (TimerFired 0)) app)
        = App.console app ++ [RangeError])).
Proof.
  induction fuel as [|fuel IH]; intros app sw Hsw Hnone Hstep Hfuel; [lia |].
  pose proof (resume_only sqrt_fin app sw Hsw) as Hresume.
  set (app0 := {| App.config := App.config app; App.ui := App.ui app;
                  App.suspended := []; App.console := App.console app;
                  App.world := App.world app |}) in Hresume.
  destruct (Z_le_gt_dec (Sweep.n sw + Config.step (Sweep.cfg sw)) (Config.endN (Sweep.cfg sw)))
    as [Hle | Hgt].
  - destruct (measureFLOPS_outcome
                (Z.to_nat (Sweep.n sw + Config.step (Sweep.cfg sw)))
                (Z.to_nat (Config.measurements (Sweep.cfg sw))) (App.world app0))
      as [(m & w' & Hrun & _) | (w' & Hrun)].
    + destruct (sweep_from_ok (Sweep.cfg sw) _ (Sweep.dataPoints sw)
                              (Sweep.totalTeraflopsSeconds sw) app0 m w' Hle Hrun)
        as (sw' & Hcfg & Hn & Hsus & Hres & Hcons).
      rewrite <- Hresume in Hsus, Hres, Hcons.
      destruct (IH (handle sqrt_fin (TimerFired 0) app) sw') as (r & Hr).
      * exact Hsus.
      * rewrite Hres. exact Hnone.
      * rewrite Hcfg. exact Hstep.
      * rewrite Hcfg, Hn. lia.
      * exists (S r). cbn [replicate]. rewrite run_events_cons.
        rewrite Hcons in Hr. exact Hr.
    + exists 1%nat. cbn [replicate]. rewrite run_events_cons, run_events_nil, Hresume.
      rewrite (sweep_from_throw sqrt_fin _ _ _ _ app0 RangeError w' Hle Hrun).
      cbn [App.ui App.suspended App.console UI.isRunning UI.results app0].
      split; [reflexivity |]. split; [reflexivity |]. right.
      split; [exact Hnone | reflexivity].
  - exists 1%nat. cbn [replicate]. rewrite run_events_cons, run_events_nil, Hresume.
    rewrite sweep_from_done by lia.
    cbn [App.ui App.suspended App.console UI.isRunning UI.results app0].
    split; [reflexivity |]. split; [reflexivity |]. left.
    eexists. split; reflexivity.
Qed.

(** X16. Every sweep ends, whatever the clock, the random numbers and the
    allocations do: after the click and finitely many timers the
    component is idle again with nothing pending, and either a result
    is on display and nothing was logged, or one RangeError was logged
    and no result is on display. *)
Theorem sweep_always_ends (c : Config.t) (w : World.t) :
  config_in_bounds c ->
  exists timers : nat,
    UI.isRunning (App.ui (run_sweep sqrt_fin timers (idle c w))) = false /\
    App.suspended (run_sweep sqrt_fin timers (idle c w)) = [] /\
    ((exists res,
        UI.results (App.ui (run_sweep sqrt_fin timers (idle c w))) = Some res /\
        App.console (run_sweep sqrt_fin timers (idle c w)) = []) \/
     (UI.results (App.ui (run_sweep sqrt_fin timers (idle c w))) = None /\
      App.console (run_sweep sqrt_fin timers (idle c w)) = [RangeError])).
Proof.
  intros (Hs & Hst & Hm). unfold run_sweep.
  set (app0 := {| App.config := c;
                  App.ui := {| UI.isRunning := true; UI.progress := Num.zero;
                               UI.results := None; UI.currentTest := EmptyString |};
                  App.suspended := []; App.console := []; App.world := w |}).
  assert (Hclick : handle sqrt_fin ClickRun (idle c w)
                   = sweep_from sqrt_fin c (Config.startN c) [] Num.zero app0)
    by reflexivity.
  destruct (Z_le_gt_dec (Config.startN c) (Config.endN c)) as [Hle | Hgt].
  - destruct (measureFLOPS_outcome (Z.to_nat (Config.startN c))
                (Z.to_nat (Config.measurements c)) (App.world app0))
      as [(m & w' & Hrun & _) | (w' & Hrun)].
    + destruct (sweep_from_ok c _ [] Num.zero app0 m w' Hle Hrun)
        as (sw' & Hcfg & Hn & Hsus & Hres & Hcons).
      rewrite <- Hclick in Hsus, Hres, Hcons.
      destruct (timers_end (S (Z.to_nat (Config.endN c - Config.startN c)))
                           (handle sqrt_fin ClickRun (idle c w)) sw') as (r & Hr).
      * exact Hsus.
      * rewrite Hres. reflexivity.
      * rewrite Hcfg. lia.
      * rewrite Hcfg, Hn. lia.
      * exists r. rewrite run_events_cons. rewrite Hcons in Hr. exact Hr.
    + exists 0%nat. cbn [replicate]. rewrite run_events_cons, run_events_nil, Hclick.
      rewrite (sweep_from_throw sqrt_fin _ _ _ _ app0 RangeError w' Hle Hrun).
      cbn [App.ui App.suspended App.console UI.isRunning UI.results app0].
      split; [reflexivity |]. split; [reflexivity |]. right. split; reflexivity.
  - exists 0%nat. cbn [replicate]. rewrite run_events_cons, run_events_nil, Hclick.
    rewrite sweep_from_done by lia.
    cbn [App.ui App.suspended App.console UI.isRunning UI.results app0].
    split; [reflexivity |]. split; [reflexivity |]. left.
    eexists. split; reflexivity.
Qed.

End Sessions.

Lemma initial_config_in_bounds : config_in_bounds initial_config.
Proof. unfold config_in_bounds. simpl. lia. Qed.

Lemma inputs_stay_in_bounds_witness :
  config_in_bounds initial_config /\
  config_in_bounds
    (App.config (run_events (fun q => q) [ChangeStartN 10; ChangeMeasurements 50; ClickRun]
                            (idle initial_config frozen_world))).
Proof.
  split; [exact initial_config_in_bounds |].
  apply (inputs_stay_in_bounds (fun q => q) initial_config frozen_world
           [ChangeStartN 10; ChangeMeasurements 50; ClickRun]).
  exact initial_config_in_bounds.
Defined.

Lemma small_config_in_bounds : config_in_bounds (config 50 50 25 1).
Proof. unfold config_in_bounds. simpl. lia. Qed.

Lemma published_result_is_complete_witness :
  config_in_bounds (config 50 50 25 1) /\
  exists res,
    UI.results (App.ui (run_events (fun q => q) [ClickRun; TimerFired 0]
                          (idle (config 50 50 25 1) ticking_world))) = Some res /\
    exists (cfg : Config.t) (k : nat),
      config_in_bounds cfg /\
      map DataPoint.n (AnalysisResult.dataPoints res) = sizes cfg k /\
      (forall v, v ∈ sizes cfg k -> v <= Config.endN cfg) /\
      Config.endN cfg < Config.startN cfg + Z.of_nat k * Config.step cfg /\
      AnalysisResult.totalTeraflopsSeconds res
      = sum_numbers (map DataPoint.teraflopsSeconds (AnalysisResult.dataPoints res)) /\
      Forall (fun p => DataPoint.gflops p = (DataPoint.flops p / e9)%num /\
                       DataPoint.teraflops p = (DataPoint.flops p / e12)%num)
             (AnalysisResult.dataPoints res) /\
      res = summarize (AnalysisResult.dataPoints res)
                      (AnalysisResult.totalTeraflopsSeconds res).
Proof.
  split; [exact small_config_in_bounds |].
  eexists. split; [vm_compute; reflexivity |].
  apply (published_result_is_complete (fun q => q) (config 50 50 25 1) ticking_world
           [ClickRun; TimerFired 0]);
    [exact small_config_in_bounds | vm_compute; reflexivity].
Defined.

Lemma only_allocation_failures_are_logged_witness :
  config_in_bounds (config 50 50 25 1) /\
  RangeError ∈ App.console (run_events (fun q => q) [ClickRun]
                              (idle (config 50 50 25 1) exhausted_world)) /\
  RangeError = RangeError.
Proof.
  split; [exact small_config_in_bounds |].
  assert (H : RangeError ∈ App.console (run_events (fun q => q) [ClickRun]
                                          (idle (config 50 50 25 1) exhausted_world))).
  { vm_compute. left. }
  split; [exact H |].
  apply (only_allocation_failures_are_logged (fun q => q) (config 50 50 25 1)
           exhausted_world [ClickRun] RangeError);
    [exact small_config_in_bounds | exact H].
Defined.

Lemma sweep_always_ends_witness :
  config_in_bounds initial_config /\
  exists timers : nat,
    UI.isRunning (App.ui (run_sweep (fun q => q) timers (idle initial_config failing_world)))
    = false /\
    App.suspended (run_sweep (fun q => q) timers (idle initial_config failing_world)) = [] /\
    ((exists res,
        UI.results (App.ui (run_sweep (fun q => q) timers
                              (idle initial_config failing_world))) = Some res /\
        App.console (run_sweep (fun q => q) timers (idle initial_config failing_world))
        = []) \/
     (UI.results (App.ui (run_sweep (fun q => q) timers
                            (idle initial_config failing_world))) = None /\
      App.console (run_sweep (fun q => q) timers (idle initial_config failing_world))
      = [RangeError])).
Proof.
  split; [exact initial_config_in_bounds |].
  apply (sweep_always_ends (fun q => q) initial_config failing_world).
  exact initial_config_in_bounds.
Defined.

Lemma empty_range_publishes_empty_result_witness :
  UI.isRunning (App.ui (run_events (fun q => q) [ChangeStartN 1000]
                          (idle initial_config frozen_world))) = false /\
  Config.endN (App.config (run_events (fun q => q) [ChangeStartN 1000]
                             (idle initial_config frozen_world)))
  < Config.startN (App.config (run_events (fun q => q) [ChangeStartN 1000]
                                 (idle initial_config frozen_world))) /\
  UI.results (App.ui (handle (fun q => q) ClickRun
                        (run_events (fun q => q) [ChangeStartN 1000]
                           (idle initial_config frozen_world)))) = Some empty_result.
Proof.
  split; [reflexivity |]. split; [simpl; lia |].
  rewrite (empty_range_publishes_empty_result (fun q => q)
             (run_events (fun q => q) [ChangeStartN 1000]
                (idle initial_config frozen_world)));
    [reflexivity | reflexivity | simpl; lia].
Defined.

(** ** A trial of zero duration *)

Section ZeroElapsed.

Variable sqrt_fin : Q -> Q.

Lemma sum_with_nan (xs : list number) :
  forall acc, acc = NaN \/ NaN ∈ xs -> foldl Num.add acc xs = NaN.
Proof.
  induction xs as [|x xs IH]; intros acc [H | H].
  - exact H.
  - inversion H.
  - simpl. apply IH. left. subst. reflexivity.
  - simpl. apply IH. apply elem_of_cons in H as [<- | H];
      [left; destruct acc; reflexivity | right; exact H].
Qed.

Lemma sum_with_posinf (xs : list number) :
  Forall (fun x => x = PosInf \/ exists q, x = Finite q) xs ->
  forall acc, (acc = PosInf \/ exists q, acc = Finite q) ->
              acc = PosInf \/ PosInf ∈ xs -> foldl Num.add acc xs = PosInf.
Proof.
  induction 1 as [|x xs Hx Hxs IH]; intros acc Hacc Hinf.
  - destruct Hinf as [H | H]; [exact H | inversion H].
  - simpl. apply IH.
    + destruct Hacc as [-> | (a & ->)], Hx as [-> | (b & ->)]; simpl; eauto.
    + destruct Hinf as [-> | H].
      * left. destruct Hx as [-> | (b & ->)]; reflexivity.
      * apply elem_of_cons in H as [<- | H]; [| right; exact H].
        left. destruct Hacc as [-> | (a & ->)]; reflexivity.
Qed.

Lemma trial_rate_infinite (f : Z) (c0 c1 : Q) :
  0 < f -> (c1 - c0 == 0)%Q ->
  Trial.currentFLOPS (trial_metrics f (Finite c0) (Finite c1)) = PosInf.
Proof.
  intros Hf He.
  assert (Hb : Qeq_bool ((c1 + - c0) / inject_Z 1000) 0 = true).
  { apply Qeq_bool_iff. apply (seconds_zero_iff c0 c1). exact He. }
  unfold trial_metrics, Num.of_Z. simpl Num.sub.
  change (Finite (c1 + - c0) / Finite (inject_Z 1000))%num
    with (Finite ((c1 + - c0) / inject_Z 1000)).
  simpl Trial.currentFLOPS. simpl Num.div. rewrite Hb.
  assert (HF : (0 < inject_Z f)%Q) by (change 0%Q with (inject_Z 0); rewrite <- Zlt_Qlt; exact Hf).
  rewrite Qeq_bool_false by lra. rewrite (Qltb_true 0 _ HF). reflexivity.
Qed.

(** X7. One trial whose two clock readings coincide spoils the record of its
    size: the measured rates are Infinity and the TERAFLOPS-seconds are
    NaN, whatever the other trials measured. *)
Theorem zero_elapsed_trial_spoils_measurement (n T i : nat) (w : World.t) :
  (forall k, (k < 2 * T)%nat -> World.faults w k = false) ->
  (0 < n)%nat -> (i < T)%nat ->
  (elapsed_ms w i == 0)%Q ->
  exists m w',
    measureFLOPS sqrt_fin n T w = (Ok m, w') /\
    Measurement.avgFLOPS m = PosInf /\
    Measurement.gflops m = PosInf /\
    Measurement.teraflops m = PosInf /\
    Measurement.teraflopsSeconds m = NaN.
Proof.
  intros Hok Hn Hi He.
  destruct (measureFLOPS_spec sqrt_fin n T w Hok) as (w' & Hrun & _).
  eexists _, w'. split; [exact Hrun |].
  assert (Hf : 0 < 2 * Z.of_nat n ^ 3).
  { assert (0 < Z.of_nat n ^ 3) by (apply Z.pow_pos_nonneg; lia). lia. }
  assert (Havg : Measurement.avgFLOPS
                   (aggregate sqrt_fin
                      (map (fun i => Trial.elapsedMs (nth_trial n w i)) (seq 0 T))
                      (map (fun i => Trial.currentFLOPS (nth_trial n w i)) (seq 0 T))
                      (map (fun i => Trial.teraflopsSeconds (nth_trial n w i)) (seq 0 T))
                      (if (T =? 0)%nat then 0 else 2 * Z.of_nat n ^ 3)) = PosInf).
  { unfold aggregate. cbn [Measurement.avgFLOPS]. unfold sum_numbers.
    rewrite sum_with_posinf.
    - rewrite length_map, length_seq. unfold Num.of_nat. simpl.
      replace (Qle_bool 0 (inject_Z (Z.of_nat T))) with true; [reflexivity |].
      symmetry. apply Qle_bool_iff. change 0%Q with (inject_Z 0). rewrite <- Zle_Qle. lia.
    - apply Forall_forall. intros x Hx.
      apply elem_of_map_seq in Hx as (j & _ & ->).
      destruct (Qeq_dec (elapsed_ms w j) 0) as [E | E].
      + left. apply trial_rate_infinite; assumption.
      + right. unfold nth_trial.
        rewrite (trial_metrics_nonzero _ _ _ E). eexists. reflexivity.
    - right. eauto.
    - right. apply (list_elem_of_lookup_2 _ i). rewrite lookup_map_seq by exact Hi.
      f_equal. apply trial_rate_infinite; assumption. }
  split; [exact Havg |].
  split; [change (Measurement.gflops ?m) with (Measurement.avgFLOPS m / e9)%num;
          rewrite Havg; reflexivity |].
  split; [change (Measurement.teraflops ?m) with (Measurement.avgFLOPS m / e12)%num;
          rewrite Havg; reflexivity |].
  unfold aggregate. cbn [Measurement.teraflopsSeconds]. unfold sum_numbers.
  rewrite sum_with_nan; [reflexivity |].
  right. apply (list_elem_of_lookup_2 _ i). rewrite lookup_map_seq by exact Hi.
  f_equal. apply zero_elapsed_trial_not_finite. exact He.
Qed.

End ZeroElapsed.

Lemma zero_elapsed_trial_spoils_measurement_witness :
  (forall k, (k < 2 * 2)%nat -> World.faults frozen_world k = false) /\
  (elapsed_ms frozen_world 1 == 0)%Q /\
  exists m w',
    measureFLOPS (fun q => q) 3 2 frozen_world = (Ok m, w') /\
    Measurement.avgFLOPS m = PosInf /\
    Measurement.gflops m = PosInf /\
    Measurement.teraflops m = PosInf /\
    Measurement.teraflopsSeconds m = NaN.
Proof.
  split; [intros k _; reflexivity |]. split; [reflexivity |].
  apply (zero_elapsed_trial_spoils_measurement (fun q => q) 3 2 1 frozen_world);
    [intros k _; reflexivity | lia | lia | reflexivity].
Defined.

(** ** The identity matrix *)

Section Identity.

Local Open Scope nat_scope.

Lemma identity_square (n : nat) : is_square n (identity n).
Proof.
  unfold is_square, identity. rewrite length_map, length_seq. split; [reflexivity |].
  apply Forall_forall. intros row Hrow.
  apply elem_of_map_seq in Hrow as (i & _ & ->).
  rewrite length_map, length_seq. reflexivity.
Qed.

Lemma identity_entry (n i j : nat) :
  i < n -> j < n ->
  entry_num (identity n) i j = if i =? j then Finite 1 else Finite 0.
Proof.
  intros Hi Hj. unfold entry_num, entry, identity.
  rewrite (lookup_map_seq _ n i Hi). simpl.
  rewrite (lookup_map_seq _ n j Hj). reflexivity.
Qed.

(** A sum whose terms are zero except the one at [d]. *)
Lemma sigma_pick (f : nat -> number) (g : nat -> Q) (d : nat) (v : Q) (m : nat) :
  (forall k, k < m -> f k = Finite (g k)) ->
  (forall k, k < m -> k <> d -> (g k == 0)%Q) ->
  (d < m -> (g d == v)%Q) ->
  exists s : Q, sigma f m = Finite s /\ (s == if d <? m then v else 0)%Q.
Proof.
  induction m as [|m IH]; intros Hf Hz Hd.
  - exists 0%Q. split; reflexivity.
  - destruct IH as (s & Hs & Es); [intros; apply Hf; lia | intros; apply Hz; lia
                                   | intros; apply Hd; lia |].
    simpl. rewrite Hs, (Hf m) by lia. simpl. eexists. split; [reflexivity |].
    rewrite Es. destruct (Nat.eq_dec m d) as [-> | Hne].
    + replace (d <? d) with false by (symmetry; apply Nat.ltb_ge; lia).
      replace (d <? S d) with true by (symmetry; apply Nat.ltb_lt; lia).
      rewrite Hd by lia. ring.
    + rewrite (Hz m) by (lia || assumption).
      destruct (Nat.ltb_spec d m), (Nat.ltb_spec d (S m)); try lia; ring.
Qed.

(** X3. The identity matrix is a unit of the multiplier on matrices of
    finite entries, on both sides. *)
Theorem multiply_identity (n : nat) (a : matrix) :
  is_square n a ->
  (forall i j, i < n -> j < n -> Num.is_finite (entry_num a i j) = true) ->
  exists p p',
    multiplyMatricesWithFLOPS a (identity n) n = Ok p /\
    multiplyMatricesWithFLOPS (identity n) a n = Ok p' /\
    forall i j, i < n -> j < n ->
      (entry_num (Product.result p) i j =~ entry_num a i j)%num /\
      (entry_num (Product.result p') i j =~ entry_num a i j)%num.
Proof.
  intros Ha Hfin.
  destruct (multiply_spec a (identity n) n) as (res & Hrun & Hres);
    [apply is_square_rows; assumption | apply is_square_rows; apply identity_square |].
  destruct (multiply_spec (identity n) a n) as (res' & Hrun' & Hres');
    [apply is_square_rows; apply identity_square | apply is_square_rows; assumption |].
  eexists _, _. split; [exact Hrun |]. split; [exact Hrun' |].
  intros i j Hi Hj. cbn [Product.result]. unfold entry_num at 1 3.
  rewrite (cells_entry n res _ i j Hres Hi Hj), (cells_entry n res' _ i j Hres' Hi Hj).
  simpl. unfold dot.
  assert (Hq : forall i j, i < n -> j < n ->
                 exists q, entry_num a i j = Finite q).
  { intros i' j' Hi' Hj'. specialize (Hfin i' j' Hi' Hj').
    destruct (entry_num a i' j'); try discriminate. eauto. }
  destruct (Hq i j Hi Hj) as (q & Eq).
  split.
  - destruct (sigma_pick
                (fun k => entry_num a i k * entry_num (identity n) k j)%num
                (fun k => match entry_num a i k with Finite x => x | _ => 0 end
                          * (if k =? j then 1 else 0))%Q
                j q n) as (s & Hs & Es).
    + intros k Hk. rewrite identity_entry by assumption.
      destruct (Hq i k Hi Hk) as (x & ->). destruct (k =? j); reflexivity.
    + intros k Hk Hne. apply Nat.eqb_neq in Hne. rewrite Hne. ring.
    + intros _. rewrite Eq, Nat.eqb_refl. ring.
    + rewrite Hs, Eq. simpl. rewrite Es.
      replace (j <? n) with true by (symmetry; apply Nat.ltb_lt; exact Hj). reflexivity.
  - destruct (sigma_pick
                (fun k => entry_num (identity n) i k * entry_num a k j)%num
                (fun k => (if i =? k then 1 else 0)
                          * match entry_num a k j with Finite x => x | _ => 0 end)%Q
                i q n) as (s & Hs & Es).
    + intros k Hk. rewrite identity_entry by assumption.
      destruct (Hq k j Hk Hj) as (x & ->). destruct (i =? k); reflexivity.
    + intros k Hk Hne. replace (i =? k) with false by (symmetry; apply Nat.eqb_neq; lia).
      ring.
    + intros _. rewrite Eq, Nat.eqb_refl. ring.
    + rewrite Hs, Eq. simpl. rewrite Es.
      replace (i <? n) with true by (symmetry; apply Nat.ltb_lt; exact Hi). reflexivity.
Qed.

End Identity.

Lemma multiply_identity_witness :
  is_square 2 (m22 1 2 3 4) /\
  exists p p',
    multiplyMatricesWithFLOPS (m22 1 2 3 4) (identity 2) 2 = Ok p /\
    multiplyMatricesWithFLOPS (identity 2) (m22 1 2 3 4) 2 = Ok p' /\
    forall i j, (i < 2)%nat -> (j < 2)%nat ->
      (entry_num (Product.result p) i j =~ entry_num (m22 1 2 3 4) i j)%num /\
      (entry_num (Product.result p') i j =~ entry_num (m22 1 2 3 4) i j)%num.
Proof.
  assert (Hsq : is_square 2 (m22 1 2 3 4)) by (split; [reflexivity | repeat constructor]).
  split; [exact Hsq |].
  apply (multiply_identity 2 (m22 1 2 3 4) Hsq).
  intros [|[|i]] [|[|j]] Hi Hj; try lia; reflexivity.
Defined.

(** ** The summary of a sweep *)

Section Summary.

Local Open Scope Q_scope.

Lemma max_finite (xs : list Q) :
  forall a : Q, exists m : Q,
    foldl Num.max (Finite a) (map Finite xs) = Finite m /\
    (m = a \/ m ∈ xs) /\ a <= m /\ forall x, x ∈ xs -> x <= m.
Proof.
  induction xs as [|x xs IH]; intros a.
  - exists a. split; [reflexivity |]. split; [left; reflexivity |].
    split; [lra | intros x Hx; inversion Hx].
  - simpl. unfold Num.ltb.
    destruct (Qlt_le_dec a x) as [Hlt | Hge].
    + rewrite (Qltb_true a x Hlt). destruct (IH x) as (m & Hm & Hin & Hle & Hall).
      exists m. split; [exact Hm |].
      split; [right; destruct Hin as [-> | Hin]; [left | right; exact Hin] |].
      split; [lra |].
      intros y Hy. apply elem_of_cons in Hy as [-> | Hy]; [exact Hle | apply Hall; exact Hy].
    + rewrite (Qltb_false a x Hge). destruct (IH a) as (m & Hm & Hin & Hle & Hall).
      exists m. split; [exact Hm |].
      split; [destruct Hin as [-> | Hin]; [left; reflexivity | right; right; exact Hin] |].
      split; [exact Hle |].
      intros y Hy. apply elem_of_cons in Hy as [-> | Hy]; [lra | apply Hall; exact Hy].
Qed.

Lemma gflops_sum (pts : list DataPoint.t) :
  (forall p, p ∈ pts -> Num.is_finite (DataPoint.gflops p) = true) ->
  forall a : Q, exists s : Q,
    foldl (fun sum p => (sum + DataPoint.gflops p)%num) (Finite a) pts = Finite s /\
    s == a + qsum gflops_q pts.
Proof.
  induction pts as [|p pts IH]; intros Hfin a.
  - exists a. split; [reflexivity | simpl; ring].
  - simpl. assert (Hp : Num.is_finite (DataPoint.gflops p) = true) by (apply Hfin; left).
    unfold gflops_q at 1. destruct (DataPoint.gflops p) as [g | | |]; try discriminate.
    destruct (IH (fun q Hq => Hfin q (list_elem_of_further _ _ _ Hq)) (a + g)) as (s & Hs & Es).
    exists s. split; [exact Hs |]. rewrite Es. ring.
Qed.

(** X12. On points of finite rates, the maximum TFLOPS of the summary is the
    TFLOPS of one of the points and no point exceeds it, and the average
    GFLOPS is the arithmetic mean of the points' GFLOPS. *)
Theorem summarize_peak_and_mean (pts : list DataPoint.t) (total : number) :
  pts <> [] ->
  (forall p, p ∈ pts ->
     Num.is_finite (DataPoint.teraflops p) = true /\
     Num.is_finite (DataPoint.gflops p) = true) ->
  exists peak mean : Q,
    AnalysisResult.maxTFLOPS (summarize pts total) = Finite peak /\
    (exists p, p ∈ pts /\ DataPoint.teraflops p = Finite peak) /\
    (forall p, p ∈ pts -> teraflops_q p <= peak) /\
    AnalysisResult.avgGFLOPS (summarize pts total) = Finite mean /\
    mean == qsum gflops_q pts / qlen pts.
Proof.
  intros Hne Hfin.
  assert (Hmap : map DataPoint.teraflops pts = map Finite (map teraflops_q pts)).
  { clear Hne. induction pts as [|p pts IH]; [reflexivity |].
    simpl. rewrite IH by (intros q Hq; apply Hfin; right; exact Hq). f_equal.
    destruct (Hfin p) as [Hp _]; [left |]. unfold teraflops_q.
    destruct (DataPoint.teraflops p); try discriminate. reflexivity. }
  assert (Hq : forall p, p ∈ pts -> DataPoint.teraflops p = Finite (teraflops_q p)).
  { intros p Hp. destruct (Hfin p Hp) as [Ht _]. unfold teraflops_q.
    destruct (DataPoint.teraflops p); try discriminate. reflexivity. }
  assert (Havg : exists mean : Q,
            AnalysisResult.avgGFLOPS (summarize pts total) = Finite mean /\
            mean == qsum gflops_q pts / qlen pts).
  { destruct (gflops_sum pts (fun p Hp => proj2 (Hfin p Hp)) 0) as (s & Hs & Es).
    assert (HN : 0 < qlen pts) by (apply qlen_pos; exact Hne).
    exists (s / qlen pts). unfold summarize. cbn [AnalysisResult.avgGFLOPS].
    unfold Num.zero. rewrite Hs.
    change (Num.of_nat (length pts)) with (Finite (qlen pts)).
    unfold Num.div. rewrite Qeq_bool_false by lra.
    split; [reflexivity |]. rewrite Es. field. lra. }
  destruct Havg as (mean & Hmean & Emean).
  destruct pts as [|p0 pts]; [congruence |].
  destruct (max_finite (map teraflops_q pts) (teraflops_q p0)) as (m & Hm & Hin & Hle & Hall).
  exists m, mean.
  split.
  { unfold summarize. cbn [AnalysisResult.maxTFLOPS].
    unfold max_numbers. rewrite Hmap. simpl. exact Hm. }
  split.
  { destruct Hin as [-> | Hin].
    - exists p0. split; [left | apply Hq; left].
    - apply list_elem_of_In, in_map_iff in Hin as (p & <- & Hp).
      apply list_elem_of_In in Hp.
      exists p. split; [right; exact Hp | apply Hq; right; exact Hp]. }
  split.
  { intros p Hp. apply elem_of_cons in Hp as [-> | Hp]; [exact Hle |].
    apply Hall. apply list_elem_of_In, in_map. apply list_elem_of_In. exact Hp. }
  split; [exact Hmean | exact Emean].
Qed.

End Summary.

Lemma summarize_peak_and_mean_witness :
  rated_points <> [] /\
  exists peak mean : Q,
    AnalysisResult.maxTFLOPS (summarize rated_points Num.zero) = Finite peak /\
    (exists p, p ∈ rated_points /\ DataPoint.teraflops p = Finite peak) /\
    (forall p, p ∈ rated_points -> (teraflops_q p <= peak)%Q) /\
    AnalysisResult.avgGFLOPS (summarize rated_points Num.zero) = Finite mean /\
    (mean == qsum gflops_q rated_points / qlen rated_points)%Q.
Proof.
  split; [discriminate |].
  apply (summarize_peak_and_mean rated_points Num.zero); [discriminate |].
  intros p Hp. unfold rated_points in Hp.
  repeat (apply elem_of_cons in Hp as [-> | Hp]); try (split; reflexivity).
  inversion Hp.
Defined.

(** ** The clear button *)

Section Clearing.

Variable sqrt_fin : Q -> Q.

(** X18. No result is on display while a sweep is running, so that there is
    nothing to clear then; and clearing a result that is on display
    brings back the display of the start, with the inputs, the log and
    the environment as they are. *)
Theorem clear_restores_initial_display (c : Config.t) (w : World.t) (evs : list Event) :
  (UI.isRunning (App.ui (run_events sqrt_fin evs (idle c w))) = true ->
   UI.results (App.ui (run_events sqrt_fin evs (idle c w))) = None) /\
  (UI.results (App.ui (run_events sqrt_fin evs (idle c w))) <> None ->
   handle sqrt_fin ClickClear (run_events sqrt_fin evs (idle c w))
   = {| App.config := App.config (run_events sqrt_fin evs (idle c w));
        App.ui := App.ui (idle c w);
        App.suspended := [];
        App.console := App.console (run_events sqrt_fin evs (idle c w));
        App.world := App.world (run_events sqrt_fin evs (idle c w)) |}).
Proof.
  pose proof (run_events_inv sqrt_fin evs (idle c w) (idle_inv c w)) as Hinv.
  split.
  - intros Hrun. apply (running_no_results _ Hinv Hrun).
  - intros Hres.
    destruct (UI.isRunning (App.ui (run_events sqrt_fin evs (idle c w)))) eqn:Hrun.
    + exfalso. apply Hres. apply (running_no_results _ Hinv Hrun).
    + pose proof (stopped_not_suspended _ Hinv Hrun) as Hnil.
      unfold handle.
      destruct (UI.results (App.ui (run_events sqrt_fin evs (idle c w)))) as [res |];
        [| congruence].
      unfold clearResults. rewrite Hrun, Hnil. reflexivity.
Qed.

End Clearing.

Lemma clear_restores_initial_display_witness :
  UI.results (App.ui (run_events (fun q => q) [ChangeStartN 1000; ClickRun]
                        (idle initial_config frozen_world))) <> None /\
  handle (fun q => q) ClickClear
         (run_events (fun q => q) [ChangeStartN 1000; ClickRun]
            (idle initial_config frozen_world))
  = {| App.config := App.config (run_events (fun q => q) [ChangeStartN 1000; ClickRun]
                                   (idle initial_config frozen_world));
       App.ui := App.ui (idle initial_config frozen_world);
       App.suspended := [];
       App.console := App.console (run_events (fun q => q) [ChangeStartN 1000; ClickRun]
                                     (idle initial_config frozen_world));
       App.world := App.world (run_events (fun q => q) [ChangeStartN 1000; ClickRun]
                                 (idle initial_config frozen_world)) |}.
Proof.
  split; [discriminate |].
  apply (clear_restores_initial_display (fun q => q) initial_config frozen_world
           [ChangeStartN 1000; ClickRun]).
  discriminate.
Defined.

(** ** The cubic fit under rounding and in binary64 *)

Section RoundedFit.

Local Open Scope Q_scope.

Variable rnd : Q -> Q.
Variable largest : Q.
Variable Math_pow : number -> nat -> number.

Hypothesis rnd_monotone : forall x y : Q, x <= y -> rnd x <= rnd y.
Hypothesis rnd_0 : rnd 0 == 0.
Hypothesis rnd_1 : rnd 1 == 1.
Hypothesis largest_ge_1 : 1 <= largest.
Hypothesis square_not_below_zero : forall x : number, not_below_zero (Math_pow x 2).

Lemma rnd_nonneg (q : Q) : 0 <= q -> 0 <= rnd q.
Proof. intros H. rewrite <- rnd_0. apply rnd_monotone. exact H. Qed.

Lemma rnd_le_1 (q : Q) : q <= 1 -> rnd q <= 1.
Proof. intros H. rewrite <- rnd_1. apply rnd_monotone. exact H. Qed.

Lemma round_not_below_zero (x : number) :
  not_below_zero x -> not_below_zero (Rounded.round rnd largest x).
Proof.
  destruct x as [q | | |]; simpl; try tauto.
  intros Hq. pose proof (rnd_nonneg q Hq) as Hr.
  destruct (Num.Qltb largest (Qabs (rnd q))) eqn:E; [| exact Hr].
  destruct (Qlt_le_dec 0 (rnd q)) as [Hpos | Hle].
  - rewrite (Qltb_true _ _ Hpos). exact I.
  - exfalso. assert (Hz : rnd q == 0) by lra.
    rewrite Qltb_false in E; [discriminate |].
    rewrite Qabs_pos by lra. lra.
Qed.

Lemma round_not_above_one (x : number) :
  not_above_one x -> not_above_one (Rounded.round rnd largest x).
Proof.
  destruct x as [q | | |]; simpl; try tauto.
  intros Hq. pose proof (rnd_le_1 q Hq) as Hr.
  destruct (Num.Qltb largest (Qabs (rnd q))) eqn:E; [| exact Hr].
  destruct (Qlt_le_dec 0 (rnd q)) as [Hpos | Hle].
  - exfalso. rewrite Qltb_false in E; [discriminate |].
    rewrite Qabs_pos by lra. lra.
  - rewrite (Qltb_false _ _ Hle). exact I.
Qed.

Lemma add_not_below_zero (x y : number) :
  not_below_zero x -> not_below_zero y -> not_below_zero (Num.add x y).
Proof.
  destruct x as [a | | |], y as [b | | |]; simpl; try tauto. intros; lra.
Qed.

Lemma squares_not_below_zero (a b c avgY : number) (pts : list DataPoint.t) :
  forall ss : number * number,
    not_below_zero (fst ss) -> not_below_zero (snd ss) ->
    not_below_zero (fst (foldl (Rounded.squares_step rnd largest Math_pow a b c avgY) ss pts)) /\
    not_below_zero (snd (foldl (Rounded.squares_step rnd largest Math_pow a b c avgY) ss pts)).
Proof.
  induction pts as [|p pts IH]; intros [r t] Hr Ht; [split; assumption |].
  simpl foldl. apply IH; unfold Rounded.squares_step, Rounded.add;
    cbn [fst snd]; apply round_not_below_zero, add_not_below_zero;
    try assumption; apply square_not_below_zero.
Qed.

Lemma ratio_not_below_zero (r t : number) :
  not_below_zero r -> Num.gtb t Num.zero = true -> not_below_zero (Num.div r t).
Proof.
  unfold Num.gtb, Num.zero.
  destruct r as [a | | |], t as [b | | |]; simpl; try tauto; try discriminate;
    intros Hr Ht.
  - assert (Hb : 0 < b).
    { unfold Num.Qltb in Ht. destruct (Qle_bool b 0) eqn:E; [discriminate |].
      destruct (Qlt_le_dec 0 b) as [H | H]; [exact H |].
      apply Qle_bool_iff in H. congruence. }
    rewrite Qeq_bool_false by lra. simpl. apply Qle_shift_div_l; lra.
  - assert (Hb : 0 < b).
    { unfold Num.Qltb in Ht. destruct (Qle_bool b 0) eqn:E; [discriminate |].
      destruct (Qlt_le_dec 0 b) as [H | H]; [exact H |].
      apply Qle_bool_iff in H. congruence. }
    replace (Qle_bool 0 b) with true; [exact I |].
    symmetry. apply Qle_bool_iff. lra.
Qed.

Lemma one_minus_not_above_one (x : number) :
  not_below_zero x -> not_above_one (Num.sub (Finite 1) x).
Proof.
  destruct x as [q | | |]; simpl; try tauto. intros; lra.
Qed.

Lemma clamp_in_unit_interval (x : number) :
  not_above_one x -> in_unit_interval_or_nan (Num.max Num.zero x).
Proof.
  unfold Num.zero. destruct x as [q | | |]; simpl; try tauto; [| intros; lra].
  intros Hq. destruct (Qlt_le_dec 0 q) as [Hpos | Hle].
  - rewrite (Qltb_true _ _ Hpos). simpl. lra.
  - rewrite (Qltb_false _ _ Hle). simpl. lra.
Qed.

(** X8. Under any rounding that is monotone and leaves 0 and 1 as they
    are, with overflow beyond a largest number that is at least 1,
    whatever [Math.pow] returns as long as a square is never negative,
    and for every input whatsoever: the reported b is 0, and rSquared is
    either NaN or a number between 0 and 1. *)
Theorem fit_r_squared_in_unit_interval (pts : list DataPoint.t) :
  (Fit.b (Rounded.fitCubicCurve rnd largest Math_pow pts) =~ Finite 0)%num /\
  in_unit_interval_or_nan (Fit.rSquared (Rounded.fitCubicCurve rnd largest Math_pow pts)).
Proof.
  unfold Rounded.fitCubicCurve.
  destruct (length pts <? 3)%nat; [split; [reflexivity | simpl; lra] |].
  destruct (foldl (Rounded.regression_step rnd largest Math_pow) _ pts) as [[[s3 s6] stn] st].
  match goal with
  | |- context [foldl (Rounded.squares_step rnd largest Math_pow ?a ?b ?c ?y) ?z pts] =>
      pose proof (squares_not_below_zero a b c y pts z) as Hss;
      destruct (foldl (Rounded.squares_step rnd largest Math_pow a b c y) z pts) as [r t]
  end.
  cbn [Fit.b Fit.rSquared fst snd] in *.
  split; [reflexivity |].
  destruct Hss as [Hr _]; [simpl; lra | simpl; lra |].
  destruct (Num.gtb t Num.zero) eqn:Ht; [| simpl; lra].
  apply clamp_in_unit_interval. unfold Rounded.sub, Rounded.div.
  apply round_not_above_one, one_minus_not_above_one, round_not_below_zero.
  apply ratio_not_below_zero; assumption.
Qed.

End RoundedFit.

Lemma exact_square_not_below_zero (x : number) : not_below_zero (Num.pow x 2).
Proof.
  destruct x as [q | | |]; try exact I.
  simpl. assert (H : q * (q * 1) == q * q) by ring. rewrite H. apply Qsq_nonneg.
Qed.

(** The power that rounds the exact power has squares that are never
    negative. *)
Lemma rounded_square_not_below_zero (rnd : Q -> Q) (largest : Q) :
  (forall x y : Q, (x <= y)%Q -> (rnd x <= rnd y)%Q) ->
  (rnd 0 == 0)%Q -> (1 <= largest)%Q ->
  forall x : number, not_below_zero (Rounded.pow rnd largest x 2).
Proof.
  intros Hmono H0 Hlargest x. unfold Rounded.pow.
  apply round_not_below_zero; try assumption. apply exact_square_not_below_zero.
Qed.

Lemma to_sixteenths_monotone (x y : Q) :
  (x <= y)%Q -> (to_sixteenths x <= to_sixteenths y)%Q.
Proof.
  intros H. unfold to_sixteenths.
  assert (Hf : (Qfloor (x * 16 + (1 # 2)) <= Qfloor (y * 16 + (1 # 2)))%Z)
    by (apply Qfloor_resp_le; lra).
  rewrite Zle_Qle in Hf.
  apply Qmult_le_compat_r; [exact Hf | discriminate].
Qed.

Lemma fit_r_squared_in_unit_interval_witness :
  (forall x y : Q, (x <= y)%Q -> (to_sixteenths x <= to_sixteenths y)%Q) /\
  (to_sixteenths 0 == 0)%Q /\ (to_sixteenths 1 == 1)%Q /\ (1 <= 1000000)%Q /\
  (forall x, not_below_zero (Rounded.pow to_sixteenths 1000000 x 2)) /\
  (Fit.b (Rounded.fitCubicCurve to_sixteenths 1000000
            (Rounded.pow to_sixteenths 1000000) scattered_points) =~ Finite 0)%num /\
  in_unit_interval_or_nan
    (Fit.rSquared (Rounded.fitCubicCurve to_sixteenths 1000000
                     (Rounded.pow to_sixteenths 1000000) scattered_points)).
Proof.
  assert (Hsq : forall x, not_below_zero (Rounded.pow to_sixteenths 1000000 x 2)).
  { apply rounded_square_not_below_zero;
      [exact to_sixteenths_monotone | reflexivity | discriminate]. }
  split; [exact to_sixteenths_monotone |].
  split; [reflexivity |]. split; [reflexivity |]. split; [discriminate |].
  split; [exact Hsq |].
  apply (fit_r_squared_in_unit_interval to_sixteenths 1000000
           (Rounded.pow to_sixteenths 1000000));
    [exact to_sixteenths_monotone | reflexivity | reflexivity | discriminate | exact Hsq].
Defined.

(** With the identity as rounding and no overflow the rounded fit is
    the exact one; rounding to sixteenths changes it. *)
Example rounded_fit_scattered :
  Rounded.fitCubicCurve (fun q => q) 1000000 (Rounded.pow (fun q => q) 1000000)
                        scattered_points
  = fitCubicCurve scattered_points /\
  Rounded.fitCubicCurve to_sixteenths 1000000 (Rounded.pow to_sixteenths 1000000)
                        scattered_points
  = {| Fit.a := Finite (1 # 16); Fit.b := Finite 0; Fit.c := Finite (44 # 16);
       Fit.rSquared := Finite 0 |}.
Proof. vm_compute. split; reflexivity. Qed.

Section FitSigns.






End FitSigns.



(** On the three points of times 2, 16 and 54 binary64 is exact. *)
Example binary64_fit_exact_cubic :
  Binary64.fitCubicCurve Binary64.pow_by_products Binary64.cubic_points
  = {| Binary64.Fit.a := 2; Binary64.Fit.b := 0; Binary64.Fit.c := 0;
       Binary64.Fit.rSquared := 1 |}.
Proof. vm_compute. reflexivity. Qed.
